(** * minitradutor: the contract / ledger pipeline, embedded in Rocq

    Sources embedded here (TypeScript, Deno runtime):
      - [utils/hash.ts], [utils/time.ts]
      - [providers/types.ts]
      - [ledger.ts]            (validateEnvelope, saveLedgerEntry, readLedger)
      - [translate.ts]         (buildProvenance, buildContract, translateRequest)
      - [contract.ts]          (legacy validateContract, buildContract)
      - [providers/mock.ts], [providers/openai.ts]
      - [api.ts]               (validateTranslateRequest, the handlers, the router)
      - [signer.ts]            (canonicalizeContract, signContract, verifyContract,
                                the export and import of keys)
      - [config.ts]            (loadConfig, getConfig, validateConfig) and the
                                provider factory of the legacy [providers/types.ts]

    Conventions of the embedding.
      - A JavaScript string is a [string]: the sequence of bytes of its UTF-8
        text.  [TextEncoder.encode], [Deno.writeTextFile] and
        [Deno.readTextFile] are then the identity on the representation, and a
        file is the byte sequence it holds.
      - A JavaScript [number] is a finite decimal value (type [number] below);
        every finite double is one.  NaN and the infinities are left out: they
        are not JSON and Ajv rejects them for the type "number".
      - Effects (file system, wall clock, provider calls) are threaded through
        an explicit [World] by a state-and-exception monad [M]. *)

From Stdlib Require Import ZArith NArith List Ascii String Bool Lia.
From stdpp Require Import base option gmap strings.
Import ListNotations.

Local Open Scope Z_scope.

(* ===================================================================== *)
(** * 1. JavaScript strings                                               *)
(* ===================================================================== *)

Module JsString.

Definition LF : ascii := Ascii.ascii_of_nat 10.
Definition code (c : ascii) : N := N_of_ascii c.
Definition chr (n : N) : ascii := ascii_of_N n.

  (** [s.length > 0] and the truthiness of a string: only the empty string is
      falsy. *)
Definition is_empty (s : string) : bool :=
    match s with EmptyString => true | String _ _ => false end.

Fixpoint rev_onto (s acc : string) : string :=
    match s with
    | EmptyString => acc
    | String c r => rev_onto r (String c acc)
    end.
Definition rev (s : string) : string := rev_onto s EmptyString.

Definition len (s : string) : Z := Z.of_nat (String.length s).

  (** [s.lastIndexOf(c)] for a one-character needle: -1 when absent. *)
Fixpoint lastIndexOf_from (c : ascii) (s : string) (i : Z) (found : Z) : Z :=
    match s with
    | EmptyString => found
    | String a r =>
        lastIndexOf_from c r (i + 1) (if Ascii.eqb a c then i else found)
    end.
Definition lastIndexOf (c : ascii) (s : string) : Z :=
    lastIndexOf_from c s 0 (-1).

  (** [s.substring(a, b)]: both indices clamped to [0, length], swapped when
      out of order. *)
Definition substring (a b : Z) (s : string) : string :=
    let clamp i := Z.max 0 (Z.min i (len s)) in
    let lo := Z.min (clamp a) (clamp b) in
    let hi := Z.max (clamp a) (clamp b) in
    String.substring (Z.to_nat lo) (Z.to_nat (hi - lo)) s.

Fixpoint take (n : nat) (s : string) : string :=
    match n, s with
    | S n', String c r => String c (take n' r)
    | _, _ => EmptyString
    end.

Fixpoint startsWith (p s : string) : bool :=
    match p, s with
    | EmptyString, _ => true
    | String a p', String b s' => Ascii.eqb a b && startsWith p' s'
    | String _ _, EmptyString => false
    end.

Fixpoint includes (needle hay : string) : bool :=
    startsWith needle hay ||
    match hay with
    | EmptyString => false
    | String _ r => includes needle r
    end.

  (** [s.split(sep)] for a one-character separator. *)
Fixpoint split_acc (sep : ascii) (s : string) (cur : string) : list string :=
    match s with
    | EmptyString => [rev cur]
    | String c r =>
        if Ascii.eqb c sep then rev cur :: split_acc sep r EmptyString
        else split_acc sep r (String c cur)
    end.
Definition split (sep : ascii) (s : string) : list string :=
    split_acc sep s EmptyString.

  (** White space and line terminators removed by [String.prototype.trim], as
      UTF-8 byte sequences: TAB LF VT FF CR SP, U+00A0, U+1680, U+2000..U+200A,
      U+2028, U+2029, U+202F, U+205F, U+3000, U+FEFF. *)
Definition ws1 (c : ascii) : bool :=
    let n := code c in ((9 <=? n) && (n <=? 13) || (n =? 32))%N.

Definition ws2 (a b : ascii) : bool :=
    ((code a =? 194) && (code b =? 160))%N.

Definition ws3 (a b c : ascii) : bool :=
    let x := code a in let y := code b in let z := code c in
    ((x =? 225) && (y =? 154) && (z =? 128)
     || (x =? 226) && (y =? 128)
          && ((128 <=? z) && (z <=? 138) || (z =? 168) || (z =? 169) || (z =? 175))
     || (x =? 226) && (y =? 129) && (z =? 159)
     || (x =? 227) && (y =? 128) && (z =? 128)
     || (x =? 239) && (y =? 187) && (z =? 191))%N.

Fixpoint trimStart (s : string) : string :=
    match s with
    | String a r =>
        if ws1 a then trimStart r
        else match r with
             | String b r2 =>
                 if ws2 a b then trimStart r2
                 else match r2 with
                      | String c r3 => if ws3 a b c then trimStart r3 else s
                      | EmptyString => s
                      end
             | EmptyString => s
             end
    | EmptyString => s
    end.

  (** The same scan on the reversed text, white-space sequences read
      backwards. *)
Fixpoint trimStart_rev (s : string) : string :=
    match s with
    | String a r =>
        if ws1 a then trimStart_rev r
        else match r with
             | String b r2 =>
                 if ws2 b a then trimStart_rev r2
                 else match r2 with
                      | String c r3 => if ws3 c b a then trimStart_rev r3 else s
                      | EmptyString => s
                      end
             | EmptyString => s
             end
    | EmptyString => s
    end.

Definition trimEnd (s : string) : string := rev (trimStart_rev (rev s)).
Definition trim (s : string) : string := trimEnd (trimStart s).

End JsString.

(* ===================================================================== *)
(** * 2. JavaScript numbers                                               *)
(* ===================================================================== *)

Module JsNumber.
Import JsString.

  (** A non-zero decimal digit: the last digit of a mantissa without trailing
      zeros. *)
Inductive digit19 := D1 | D2 | D3 | D4 | D5 | D6 | D7 | D8 | D9.

Definition digit19_val (d : digit19) : N :=
    match d with
    | D1 => 1 | D2 => 2 | D3 => 3 | D4 => 4 | D5 => 5
    | D6 => 6 | D7 => 7 | D8 => 8 | D9 => 9
    end%N.

Definition digit19_of (n : N) : digit19 :=
    match n with
    | 2 => D2 | 3 => D3 | 4 => D4 | 5 => D5
    | 6 => D6 | 7 => D7 | 8 => D8 | 9 => D9 | _ => D1
    end%N.

  (** A finite number in canonical form: zero, or
      [(-1)^neg * (10 * lead + last) * 10 ^ exp10]. *)
Inductive number :=
  | Zero
  | NonZero (neg : bool) (lead : N) (last : digit19) (exp10 : Z).

Definition mantissa (x : number) : Z :=
    match x with
    | Zero => 0
    | NonZero neg lead last _ =>
        let m := Z.of_N (10 * lead + digit19_val last) in
        if neg then - m else m
    end.

Definition exponent (x : number) : Z :=
    match x with Zero => 0 | NonZero _ _ _ e => e end.

  (** Enough steps to visit every decimal digit of [n]: its count of binary
      digits. *)
Definition fuel_of (n : N) : nat := S (N.to_nat (N.log2 n)).

  (** [m * 10 ^ e] brought to canonical form: trailing zeros of the mantissa
      move into the exponent. *)
Fixpoint strip_zeros (fuel : nat) (m : N) (e : Z) : N * Z :=
    match fuel with
    | O => (m, e)
    | S f => if (m mod 10 =? 0)%N then strip_zeros f (m / 10)%N (e + 1) else (m, e)
    end.

Definition of_decimal (m : Z) (e : Z) : number :=
    if m =? 0 then Zero
    else
      let '(m', e') := strip_zeros (fuel_of (Z.abs_N m)) (Z.abs_N m) e in
      NonZero (m <? 0) (m' / 10)%N (digit19_of (m' mod 10)%N) e'.

Definition of_Z (z : Z) : number := of_decimal z 0.

  (** Comparison of values: both mantissas at the smaller exponent. *)
Definition scaled (x : number) (e : Z) : Z := mantissa x * 10 ^ (exponent x - e).

Definition ltb (x y : number) : bool :=
    let e := Z.min (exponent x) (exponent y) in scaled x e <? scaled y e.

Definition leb (x y : number) : bool :=
    let e := Z.min (exponent x) (exponent y) in scaled x e <=? scaled y e.

Definition zero : number := Zero.
Definition one : number := NonZero false 0 D1 0.

  (** Decimal digits, most significant first. *)
Fixpoint digits_acc (fuel : nat) (n : N) (acc : list N) : list N :=
    match fuel with
    | O => n :: acc
    | S f => if (n <? 10)%N then n :: acc
             else digits_acc f (n / 10)%N ((n mod 10)%N :: acc)
    end.
Definition digits (n : N) : list N := digits_acc (fuel_of n) n [].

Fixpoint digits_val (acc : N) (ds : list N) : N :=
    match ds with
    | [] => acc
    | d :: r => digits_val (10 * acc + d)%N r
    end.

Definition digit_char (d : N) : ascii := chr (48 + d).

Fixpoint digits_string (ds : list N) : string :=
    match ds with
    | [] => EmptyString
    | d :: r => String (digit_char d) (digits_string r)
    end.

Definition zeros (n : Z) : list N := repeat 0%N (Z.to_nat n).

Definition sign_text (neg : bool) : string := if neg then "-" else EmptyString.

  (** [Number::toString] (radix 10) of ECMAScript, on the digits [ds] of the
      mantissa, [k] their count and [n] the position of the decimal point. *)
Definition toString (x : number) : string :=
    match x with
    | Zero => "0"
    | NonZero neg lead last e =>
        let ds := digits (10 * lead + digit19_val last) in
        let k := Z.of_nat (length ds) in
        let n := k + e in
        let body :=
          if (k <=? n) && (n <=? 21) then
            digits_string (ds ++ zeros (n - k))
          else if (0 <? n) && (n <=? 21) then
            digits_string (firstn (Z.to_nat n) ds) +:+ "." +:+
            digits_string (skipn (Z.to_nat n) ds)
          else if (-6 <? n) && (n <=? 0) then
            "0." +:+ digits_string (zeros (- n) ++ ds)
          else
            let ex := n - 1 in
            let es := (if ex <? 0 then "-" else "+") +:+
                      digits_string (digits (Z.abs_N ex)) in
            match ds with
            | [] => EmptyString
            | [d] => digits_string [d] +:+ "e" +:+ es
            | d :: r => digits_string [d] +:+ "." +:+ digits_string r +:+ "e" +:+ es
            end
        in sign_text neg +:+ body
    end.

  (** [n.toString(16).padStart(2, '0')] for a byte. *)
Definition hex_digit (d : N) : ascii :=
    if (d <? 10)%N then chr (48 + d) else chr (87 + d).

Definition hex2 (b : N) : string :=
    String (hex_digit (b / 16)) (String (hex_digit (b mod 16)) EmptyString).

End JsNumber.

(* ===================================================================== *)
(** * 3. JSON: values, [JSON.stringify], [JSON.parse]                     *)
(* ===================================================================== *)

Module Json.
Import JsString JsNumber.

Unset Elimination Schemes.
Inductive json :=
  | JNull
  | JBool (b : bool)
  | JNum (x : number)
  | JStr (s : string)
  | JArr (items : list json)
  | JObj (members : list (string * json)).
Set Elimination Schemes.

  (** ** Serialization *)

Definition dquote : ascii := chr 34.
Definition bslash : ascii := chr 92.

  (** [QuoteJSONString]: the two-character escapes, [\u00xx] for the other
      control characters, every other byte as it is. *)
Definition quote_char (c : ascii) : string :=
    let n := code c in
    if (n =? 8)%N then "\b"
    else if (n =? 9)%N then "\t"
    else if (n =? 10)%N then "\n"
    else if (n =? 12)%N then "\f"
    else if (n =? 13)%N then "\r"
    else if (n =? 34)%N then String bslash (String c EmptyString)
    else if (n =? 92)%N then "\\"
    else if (n <? 32)%N then "\u00" +:+ hex2 n
    else String c EmptyString.

Fixpoint quote_body (s : string) : string :=
    match s with
    | EmptyString => EmptyString
    | String c r => quote_char c +:+ quote_body r
    end.

Definition quote (s : string) : string :=
    String dquote (quote_body s +:+ String dquote EmptyString).

  (** [JSON.stringify(v)] without indentation. *)
Fixpoint stringify (v : json) : string :=
    match v with
    | JNull => "null"
    | JBool true => "true"
    | JBool false => "false"
    | JNum x => toString x
    | JStr s => quote s
    | JArr items => "[" +:+ String.concat "," (map stringify items) +:+ "]"
    | JObj members =>
        "{" +:+ String.concat ","
                  (map (fun kv => quote (fst kv) +:+ ":" +:+ stringify (snd kv)) members)
        +:+ "}"
    end.

  (** ** Lexical analysis *)

Inductive token :=
  | TLBrace | TRBrace | TLBracket | TRBracket | TColon | TComma
  | TStr (s : string) | TNum (x : number) | TTrue | TFalse | TNull.

  (** Where the scan of a number literal stands, following the JSON grammar:
      an optional minus sign; an integer part, either a single 0 or digits
      that do not start with 0; an optional fraction, a point and at least
      one digit; an optional exponent, e or E, an optional sign and at least
      one digit. *)
Inductive numstate :=
  | NSign | NZero | NInt | NDot | NFrac | NE | NESign | NExp.

Record numacc := {
    n_neg : bool;      (* a leading minus sign *)
    n_mant : N;        (* the digits read so far, integer and fraction *)
    n_frac : Z;        (* how many of them are fraction digits *)
    n_eneg : bool;     (* sign of the exponent *)
    n_exp : N          (* magnitude of the exponent *)
  }.

Definition num_value (a : numacc) : number :=
    let m := Z.of_N (n_mant a) in
    let e := Z.of_N (n_exp a) in
    of_decimal (if n_neg a then - m else m) ((if n_eneg a then - e else e) - n_frac a).

Definition num_accepting (st : numstate) : bool :=
    match st with NZero | NInt | NFrac | NExp => true | _ => false end.

Definition digit_val (c : ascii) : option N :=
    let n := code c in
    if (48 <=? n)%N && (n <=? 57)%N then Some (n - 48)%N else None.

Definition hex_val (c : ascii) : option N :=
    let n := code c in
    if (48 <=? n)%N && (n <=? 57)%N then Some (n - 48)%N
    else if (97 <=? n)%N && (n <=? 102)%N then Some (n - 87)%N
    else if (65 <=? n)%N && (n <=? 70)%N then Some (n - 55)%N
    else None.

  (** UTF-8 (generalized to lone surrogates) of a code point, last byte
      first, since the lexer accumulates the text of a string reversed. *)
Definition utf8_rev (cp : N) : list ascii :=
    (if cp <? 128 then [chr cp]
     else if cp <? 2048 then [chr (128 + cp mod 64); chr (192 + cp / 64)]
     else if cp <? 65536 then
       [chr (128 + cp mod 64); chr (128 + (cp / 64) mod 64); chr (224 + cp / 4096)]
     else
       [chr (128 + cp mod 64); chr (128 + (cp / 64) mod 64);
        chr (128 + (cp / 4096) mod 64); chr (240 + cp / 262144)])%N.

Definition push_rev (bytes : list ascii) (acc : string) : string :=
    fold_right String acc bytes.

Definition is_high (u : N) : bool := ((55296 <=? u) && (u <=? 56319))%N.
Definition is_low (u : N) : bool := ((56320 <=? u) && (u <=? 57343))%N.

  (** A pending high surrogate that found no partner is kept as a lone
      surrogate. *)
Definition flush (acc : string) (hi : option N) : string :=
    match hi with
    | None => acc
    | Some h => push_rev (utf8_rev h) acc
    end.

  (** A [\uXXXX] escape has been read with value [u]. *)
Definition push_unit (acc : string) (hi : option N) (u : N) : string * option N :=
    if is_high u then (flush acc hi, Some u)
    else if is_low u then
      match hi with
      | Some h =>
          (push_rev (utf8_rev (65536 + (h - 55296) * 1024 + (u - 56320))%N) acc, None)
      | None => (push_rev (utf8_rev u) acc, None)
      end
    else (push_rev (utf8_rev u) (flush acc hi), None).

Inductive lstate :=
  | LIdle
  | LStr (acc : string) (hi : option N)
  | LEsc (acc : string) (hi : option N)
  | LUni (acc : string) (hi : option N) (more : nat) (u : N)
  | LNum (st : numstate) (a : numacc)
  | LLit (rest : string) (t : token).

Definition num_start (neg : bool) (m : N) : numacc :=
    {| n_neg := neg; n_mant := m; n_frac := 0; n_eneg := false; n_exp := 0 |}.

Definition idle_step (c : ascii) : option (lstate * list token) :=
    let n := code c in
    if (n =? 32)%N || (n =? 9)%N || (n =? 10)%N || (n =? 13)%N then Some (LIdle, [])
    else if (n =? 123)%N then Some (LIdle, [TLBrace])
    else if (n =? 125)%N then Some (LIdle, [TRBrace])
    else if (n =? 91)%N then Some (LIdle, [TLBracket])
    else if (n =? 93)%N then Some (LIdle, [TRBracket])
    else if (n =? 58)%N then Some (LIdle, [TColon])
    else if (n =? 44)%N then Some (LIdle, [TComma])
    else if (n =? 34)%N then Some (LStr EmptyString None, [])
    else if (n =? 45)%N then Some (LNum NSign (num_start true 0), [])
    else if (n =? 48)%N then Some (LNum NZero (num_start false 0), [])
    else if (n =? 116)%N then Some (LLit "rue" TTrue, [])
    else if (n =? 102)%N then Some (LLit "alse" TFalse, [])
    else if (n =? 110)%N then Some (LLit "ull" TNull, [])
    else match digit_val c with
         | Some d => Some (LNum NInt (num_start false d), [])
         | None => None
         end.

Definition add_int (a : numacc) (d : N) : numacc :=
    {| n_neg := n_neg a; n_mant := 10 * n_mant a + d; n_frac := n_frac a;
       n_eneg := n_eneg a; n_exp := n_exp a |}.
Definition add_frac (a : numacc) (d : N) : numacc :=
    {| n_neg := n_neg a; n_mant := 10 * n_mant a + d; n_frac := n_frac a + 1;
       n_eneg := n_eneg a; n_exp := n_exp a |}.
Definition add_exp (a : numacc) (d : N) : numacc :=
    {| n_neg := n_neg a; n_mant := n_mant a; n_frac := n_frac a;
       n_eneg := n_eneg a; n_exp := 10 * n_exp a + d |}.
Definition set_eneg (a : numacc) : numacc :=
    {| n_neg := n_neg a; n_mant := n_mant a; n_frac := n_frac a;
       n_eneg := true; n_exp := n_exp a |}.

  (** The literal ends at [c]: its token is emitted and [c] is read afresh. *)
Definition num_end (st : numstate) (a : numacc) (c : ascii)
    : option (lstate * list token) :=
    if num_accepting st then
      match idle_step c with
      | Some (st', ts) => Some (st', TNum (num_value a) :: ts)
      | None => None
      end
    else None.

Definition num_step (st : numstate) (a : numacc) (c : ascii)
    : option (lstate * list token) :=
    let n := code c in
    let is_e := (n =? 101)%N || (n =? 69)%N in
    match st, digit_val c with
    | NSign, Some d => Some (LNum (if (d =? 0)%N then NZero else NInt) (add_int a d), [])
    | NInt, Some d => Some (LNum NInt (add_int a d), [])
    | NDot, Some d | NFrac, Some d => Some (LNum NFrac (add_frac a d), [])
    | NE, Some d | NESign, Some d | NExp, Some d => Some (LNum NExp (add_exp a d), [])
    | NZero, None | NInt, None =>
        if (n =? 46)%N then Some (LNum NDot a, [])
        else if is_e then Some (LNum NE a, [])
        else num_end st a c
    | NFrac, None => if is_e then Some (LNum NE a, []) else num_end st a c
    | NE, None =>
        if (n =? 43)%N then Some (LNum NESign a, [])
        else if (n =? 45)%N then Some (LNum NESign (set_eneg a), [])
        else None
    | _, _ => num_end st a c
    end.

Definition esc_char (c : ascii) : option ascii :=
    let n := code c in
    if (n =? 34)%N || (n =? 92)%N || (n =? 47)%N then Some c
    else if (n =? 98)%N then Some (chr 8)
    else if (n =? 102)%N then Some (chr 12)
    else if (n =? 110)%N then Some (chr 10)
    else if (n =? 114)%N then Some (chr 13)
    else if (n =? 116)%N then Some (chr 9)
    else None.

Definition lex_step (st : lstate) (c : ascii) : option (lstate * list token) :=
    match st with
    | LIdle => idle_step c
    | LStr acc hi =>
        let n := code c in
        if (n =? 34)%N then Some (LIdle, [TStr (rev (flush acc hi))])
        else if (n =? 92)%N then Some (LEsc acc hi, [])
        else if (n <? 32)%N then None
        else Some (LStr (String c (flush acc hi)) None, [])
    | LEsc acc hi =>
        if (code c =? 117)%N then Some (LUni acc hi 3 0%N, [])
        else match esc_char c with
             | Some x => Some (LStr (String x (flush acc hi)) None, [])
             | None => None
             end
    | LUni acc hi more u =>
        match hex_val c with
        | None => None
        | Some h =>
            let u' := (16 * u + h)%N in
            match more with
            | S k => Some (LUni acc hi k u', [])
            | O => let '(acc', hi') := push_unit acc hi u' in Some (LStr acc' hi', [])
            end
        end
    | LNum nst a => num_step nst a c
    | LLit rest t =>
        match rest with
        | String x EmptyString =>
            if Ascii.eqb c x then Some (LIdle, [t]) else None
        | String x r => if Ascii.eqb c x then Some (LLit r t, []) else None
        | EmptyString => None
        end
    end.

Definition lex_end (st : lstate) : option (list token) :=
    match st with
    | LIdle => Some []
    | LNum nst a => if num_accepting nst then Some [TNum (num_value a)] else None
    | _ => None
    end.

  (** The tokens of a step go before the tokens of the rest of the text. *)
Definition emit (ts : list token) (rest : option (list token))
    : option (list token) :=
    match ts with
    | [] => rest
    | _ => match rest with
           | Some r => Some (ts ++ r)
           | None => None
           end
    end.

Fixpoint lex (st : lstate) (s : string) : option (list token) :=
    match s with
    | EmptyString => lex_end st
    | String c r =>
        match lex_step st c with
        | None => None
        | Some (st', ts) => emit ts (lex st' r)
        end
    end.

  (** The text of a token and the tokens of a value, as [stringify] writes
      them. *)
Definition token_text (t : token) : string :=
    match t with
    | TLBrace => "{" | TRBrace => "}" | TLBracket => "[" | TRBracket => "]"
    | TColon => ":" | TComma => ","
    | TStr s => quote s
    | TNum x => toString x
    | TTrue => "true" | TFalse => "false" | TNull => "null"
    end.

Fixpoint tokens_text (ts : list token) : string :=
    match ts with
    | [] => EmptyString
    | t :: r => token_text t +:+ tokens_text r
    end.

  (** The pieces [ls] with [sep] between them. *)
Fixpoint sep_concat {A} (sep : list A) (ls : list (list A)) : list A :=
    match ls with
    | [] => []
    | [x] => x
    | x :: r => x ++ sep ++ sep_concat sep r
    end.

Fixpoint tokens_of (v : json) : list token :=
    match v with
    | JNull => [TNull]
    | JBool true => [TTrue]
    | JBool false => [TFalse]
    | JNum x => [TNum x]
    | JStr s => [TStr s]
    | JArr items => TLBracket :: sep_concat [TComma] (map tokens_of items) ++ [TRBracket]
    | JObj members =>
        TLBrace :: sep_concat [TComma]
                     (map (fun kv => TStr (fst kv) :: TColon :: tokens_of (snd kv)) members)
        ++ [TRBrace]
    end.

  (** No object of the value has a repeated key. *)
Unset Elimination Schemes.
Inductive keys_distinct : json -> Prop :=
  | kd_null : keys_distinct JNull
  | kd_bool b : keys_distinct (JBool b)
  | kd_num x : keys_distinct (JNum x)
  | kd_str s : keys_distinct (JStr s)
  | kd_arr items : Forall keys_distinct items -> keys_distinct (JArr items)
  | kd_obj members :
      NoDup (map fst members) ->
      Forall (fun kv => keys_distinct (snd kv)) members ->
      keys_distinct (JObj members).
Set Elimination Schemes.

  (** What may come after a number in the tokens [stringify] writes. *)
Definition follows_number (ts : list token) : Prop :=
    match ts with
    | [] | TComma :: _ | TRBracket :: _ | TRBrace :: _ => True
    | _ => False
    end.

Fixpoint separated (ts : list token) : Prop :=
    match ts with
    | [] => True
    | TNum _ :: r => follows_number r /\ separated r
    | _ :: r => separated r
    end.

  (** ** Syntactic analysis: a pushdown automaton over the tokens *)

  (** [CreateDataProperty]: a repeated key keeps its place and takes the new
      value. *)
Fixpoint obj_set (k : string) (v : json) (ms : list (string * json))
    : list (string * json) :=
    match ms with
    | [] => [(k, v)]
    | (k', v') :: r =>
        if String.eqb k' k then (k', v) :: r else (k', v') :: obj_set k v r
    end.

Inductive frame :=
  | FArr (done : list json)                       (* elements, last first *)
  | FObj (done : list (string * json)) (key : string).

Inductive pmode :=
  | PValue | PKey | PColon | PAfter | PDone (v : json).

Definition pstate : Type := list frame * pmode.

Definition push_value (stk : list frame) (v : json) : pstate :=
    match stk with
    | [] => ([], PDone v)
    | FArr done :: r => (FArr (v :: done) :: r, PAfter)
    | FObj done k :: r => (FObj (obj_set k v done) k :: r, PAfter)
    end.

Definition parse_step (st : pstate) (t : token) : option pstate :=
    let '(stk, mode) := st in
    match mode, t with
    | PValue, TNull => Some (push_value stk JNull)
    | PValue, TTrue => Some (push_value stk (JBool true))
    | PValue, TFalse => Some (push_value stk (JBool false))
    | PValue, TNum x => Some (push_value stk (JNum x))
    | PValue, TStr s => Some (push_value stk (JStr s))
    | PValue, TLBracket => Some (FArr [] :: stk, PValue)
    | PValue, TLBrace => Some (FObj [] EmptyString :: stk, PKey)
    | PValue, TRBracket =>
        match stk with
        | FArr [] :: r => Some (push_value r (JArr []))
        | _ => None
        end
    | PKey, TStr k =>
        match stk with
        | FObj done _ :: r => Some (FObj done k :: r, PColon)
        | _ => None
        end
    | PKey, TRBrace =>
        match stk with
        | FObj [] _ :: r => Some (push_value r (JObj []))
        | _ => None
        end
    | PColon, TColon => Some (stk, PValue)
    | PAfter, TComma =>
        match stk with
        | FArr _ :: _ => Some (stk, PValue)
        | FObj _ _ :: _ => Some (stk, PKey)
        | [] => None
        end
    | PAfter, TRBracket =>
        match stk with
        | FArr done :: r => Some (push_value r (JArr (List.rev done)))
        | _ => None
        end
    | PAfter, TRBrace =>
        match stk with
        | FObj done _ :: r => Some (push_value r (JObj done))
        | _ => None
        end
    | _, _ => None
    end.

Fixpoint parse_tokens (st : pstate) (ts : list token) : option json :=
    match ts with
    | [] => match st with (_, PDone v) => Some v | _ => None end
    | t :: r =>
        match parse_step st t with
        | None => None
        | Some st' => parse_tokens st' r
        end
    end.

  (** [JSON.parse(text)]: [None] stands for the [SyntaxError] it throws. *)
Definition parse (text : string) : option json :=
    match lex LIdle text with
    | None => None
    | Some ts => parse_tokens ([], PValue) ts
    end.

  (** [o.k] on a parsed object. *)
Fixpoint lookup (k : string) (ms : list (string * json)) : option json :=
    match ms with
    | [] => None
    | (k', v) :: r => if String.eqb k' k then Some v else lookup k r
    end.

End Json.

(* ===================================================================== *)
(** * 4. SHA-256 ([crypto.subtle.digest])                                 *)
(* ===================================================================== *)

Module Sha256.

Definition mask32 : N := 4294967295.
Definition w32 (x : N) : N := N.land x mask32.
Definition add32 (x y : N) : N := w32 (x + y).
Definition rotr (n x : N) : N := N.lor (N.shiftr x n) (w32 (N.shiftl x (32 - n))).
Definition not32 (x : N) : N := N.lxor x mask32.

Definition Ch (x y z : N) : N := N.lxor (N.land x y) (N.land (not32 x) z).
Definition Maj (x y z : N) : N :=
    N.lxor (N.lxor (N.land x y) (N.land x z)) (N.land y z).
Definition Sigma0 (x : N) : N := N.lxor (N.lxor (rotr 2 x) (rotr 13 x)) (rotr 22 x).
Definition Sigma1 (x : N) : N := N.lxor (N.lxor (rotr 6 x) (rotr 11 x)) (rotr 25 x).
Definition sigma0 (x : N) : N := N.lxor (N.lxor (rotr 7 x) (rotr 18 x)) (N.shiftr x 3).
Definition sigma1 (x : N) : N := N.lxor (N.lxor (rotr 17 x) (rotr 19 x)) (N.shiftr x 10).

  (** The round constants: the first 32 bits of the fractional parts of the
      cube roots of the first 64 primes. *)
Definition K : list N :=
    [ 1116352408; 1899447441; 3049323471; 3921009573;
      961987163; 1508970993; 2453635748; 2870763221;
      3624381080; 310598401; 607225278; 1426881987;
      1925078388; 2162078206; 2614888103; 3248222580;
      3835390401; 4022224774; 264347078; 604807628;
      770255983; 1249150122; 1555081692; 1996064986;
      2554220882; 2821834349; 2952996808; 3210313671;
      3336571891; 3584528711; 113926993; 338241895;
      666307205; 773529912; 1294757372; 1396182291;
      1695183700; 1986661051; 2177026350; 2456956037;
      2730485921; 2820302411; 3259730800; 3345764771;
      3516065817; 3600352804; 4094571909; 275423344;
      430227734; 506948616; 659060556; 883997877;
      958139571; 1322822218; 1537002063; 1747873779;
      1955562222; 2024104815; 2227730452; 2361852424;
      2428436474; 2756734187; 3204031479; 3329325298 ]%N.

Record state := {
    ha : N; hb : N; hc : N; hd : N; he : N; hf : N; hg : N; hh : N
  }.

Definition H0 : state :=
    {| ha := 1779033703; hb := 3144134277; hc := 1013904242; hd := 2773480762;
       he := 1359893119; hf := 2600822924; hg := 528734635; hh := 1541459225 |}%N.

  (** The message with its padding: a 1 bit, zeros up to 56 modulo 64 bytes,
      the bit length on 8 bytes, big-endian. *)
Definition be_bytes (count : nat) (x : N) : list N :=
    map (fun i => (N.shiftr x (8 * N.of_nat i)) mod 256)%N (List.rev (seq 0 count)).

Definition pad (msg : list N) : list N :=
    let l := length msg in
    let z := ((64 - (l + 9) mod 64) mod 64)%nat in
    msg ++ [128%N] ++ repeat 0%N z ++ be_bytes 8 (8 * N.of_nat l).

Definition word_of (b0 b1 b2 b3 : N) : N :=
    (((b0 * 256 + b1) * 256 + b2) * 256 + b3)%N.

Fixpoint words_of (bytes : list N) : list N :=
    match bytes with
    | b0 :: b1 :: b2 :: b3 :: r => word_of b0 b1 b2 b3 :: words_of r
    | _ => []
    end.

  (** The message schedule: 16 words of the block, then 48 derived words.
      [w] holds the schedule so far, latest word first. *)
Fixpoint extend (count : nat) (w : list N) : list N :=
    match count with
    | O => w
    | S c =>
        let x := add32 (add32 (sigma1 (nth 1 w 0%N)) (nth 6 w 0%N))
                       (add32 (sigma0 (nth 14 w 0%N)) (nth 15 w 0%N)) in
        extend c (x :: w)
    end.

Definition schedule (block : list N) : list N :=
    List.rev (extend 48 (List.rev block)).

Definition round (s : state) (kw : N * N) : state :=
    let '(k, w) := kw in
    let t1 := add32 (add32 (add32 (hh s) (Sigma1 (he s))) (Ch (he s) (hf s) (hg s)))
                    (add32 k w) in
    let t2 := add32 (Sigma0 (ha s)) (Maj (ha s) (hb s) (hc s)) in
    {| ha := add32 t1 t2; hb := ha s; hc := hb s; hd := hc s;
       he := add32 (hd s) t1; hf := he s; hg := hf s; hh := hg s |}.

Definition compress (s : state) (block : list N) : state :=
    let r := fold_left round (combine K (schedule block)) s in
    {| ha := add32 (ha s) (ha r); hb := add32 (hb s) (hb r);
       hc := add32 (hc s) (hc r); hd := add32 (hd s) (hd r);
       he := add32 (he s) (he r); hf := add32 (hf s) (hf r);
       hg := add32 (hg s) (hg r); hh := add32 (hh s) (hh r) |}.

Fixpoint blocks (count : nat) (ws : list N) (s : state) : state :=
    match count with
    | O => s
    | S c => blocks c (skipn 16 ws) (compress s (firstn 16 ws))
    end.

Definition word_bytes (w : N) : list N :=
    [ (w / 16777216) mod 256; (w / 65536) mod 256; (w / 256) mod 256; w mod 256 ]%N.

Definition state_bytes (s : state) : list N :=
    word_bytes (ha s) ++ word_bytes (hb s) ++ word_bytes (hc s) ++ word_bytes (hd s)
    ++ word_bytes (he s) ++ word_bytes (hf s) ++ word_bytes (hg s) ++ word_bytes (hh s).

Definition final_state (msg : list N) : state :=
    let ws := words_of (pad msg) in
    blocks (length ws / 16) ws H0.

Definition digest (msg : list N) : list N := state_bytes (final_state msg).

End Sha256.

(* ===================================================================== *)
(** * 5. providers/types.ts                                               *)
(* ===================================================================== *)

Import JsString JsNumber Json.

Inductive TranslationMethod := human | machine | hybrid.

Record ProvenanceBlock := {
  timestamp : string;     (* ISO8601 *)
  tenant_id : string;
  signature : string      (* hex, or empty when signing is off *)
}.

Record TranslationContract := {
  id : string;
  workflow : string;
  flow : string;
  source_language : string;
  target_language : string;
  source_text : string;
  translated_text : string;
  translator : option string;          (* [translator?: string] *)
  method : TranslationMethod;
  confidence : number;
  provenance : ProvenanceBlock
}.

Record TranslationContractEnvelope := {
  contract : TranslationContract
}.

(** [TranslationRequestInput]: what the API and the CLI hand to the
    pipeline. *)
Module Request.
Record TranslationRequestInput := {
    source_language : string;
    target_language : string;
    source_text : string;
    workflow : string;
    flow : string;
    tenant_id : string;
    method : TranslationMethod;
    translator : option string
  }.
End Request.
Abbreviation TranslationRequestInput := Request.TranslationRequestInput.

(** The argument and the result of [TranslationProvider.translate]. *)
Record TranslateParams := {
  tp_source_language : string;
  tp_target_language : string;
  tp_text : string
}.

Record TranslateResult := {
  translatedText : string;
  result_confidence : number
}.

(** ** Errors *)

Inductive ErrorClass :=
| PlainError | SyntaxError | NotFound | AlreadyExists | NotADirectory | IsADirectory.

Record JsError := {
  err_class : ErrorClass;
  message : string
}.

Definition new_Error (msg : string) : JsError :=
  {| err_class := PlainError; message := msg |}.

(** A provider is a black box: an answer or an error for every request. *)
Record TranslationProvider := {
  translate : TranslateParams -> JsError + TranslateResult
}.

(** ** The objects as [JSON.stringify] and Ajv see them

    Properties in the order of the object literal of [translate.ts]; a
    property whose value is [undefined] is skipped by [JSON.stringify] and is
    absent for Ajv. *)

Definition method_string (m : TranslationMethod) : string :=
  match m with human => "human" | machine => "machine" | hybrid => "hybrid" end.

Definition provenance_json (p : ProvenanceBlock) : json :=
  JObj [ ("timestamp", JStr (timestamp p));
         ("tenant_id", JStr (tenant_id p));
         ("signature", JStr (signature p)) ].

Definition optional (k : string) (v : option string) : list (string * json) :=
  match v with Some s => [(k, JStr s)] | None => [] end.

Definition contract_json (c : TranslationContract) : json :=
  JObj ([ ("id", JStr (id c));
          ("workflow", JStr (workflow c));
          ("flow", JStr (flow c));
          ("source_language", JStr (source_language c));
          ("target_language", JStr (target_language c));
          ("source_text", JStr (source_text c));
          ("translated_text", JStr (translated_text c)) ]
        ++ optional "translator" (translator c)
        ++ [ ("method", JStr (method_string (method c)));
             ("confidence", JNum (confidence c));
             ("provenance", provenance_json (provenance c)) ]).

Definition envelope_json (e : TranslationContractEnvelope) : json :=
  JObj [ ("contract", contract_json (contract e)) ].

(** [!contract.translator]: absent, or the empty string. *)
Definition falsy (v : option string) : bool :=
  match v with
  | None => true
  | Some s => is_empty s
  end.

(* ===================================================================== *)
(** * 6. The world: file system, wall clock, provider calls               *)
(* ===================================================================== *)

(** What the program does to the outside, in order. *)
Inductive Event :=
| EvTranslate (p : TranslateParams)           (* provider.translate(p) *)
| EvMkdir (dir : string)                      (* Deno.mkdir *)
| EvWrite (path : string) (data : string).    (* Deno.writeTextFile *)

Record World := {
  files : gmap string string;     (* regular files and their content *)
  dirs : gset string;             (* directories *)
  clock : nat -> Z;               (* successive readings of the wall clock, ms *)
  ticks : nat;                    (* readings taken so far *)
  trace : list Event
}.

Definition log (ev : Event) (w : World) : World :=
  {| files := files w; dirs := dirs w; clock := clock w; ticks := ticks w;
     trace := trace w ++ [ev] |}.

(** An asynchronous function: it changes the world and returns, or throws. *)
Definition M (A : Type) : Type := World -> (JsError + A) * World.

#[export] Instance M_ret : MRet M := fun A (x : A) w => (inr x, w).

#[export] Instance M_bind : MBind M := fun A B (k : A -> M B) (m : M A) w =>
  match m w with
  | (inr x, w') => k x w'
  | (inl e, w') => (inl e, w')
  end.

Definition throw {A} (e : JsError) : M A := fun w => (inl e, w).

(** [try { body } catch (error) { handler(error) }] *)
Definition try_catch {A} (body : M A) (handler : JsError -> M A) : M A := fun w =>
  match body w with
  | (inr x, w') => (inr x, w')
  | (inl e, w') => handler e w'
  end.

(** [await provider.translate(params)] *)
Definition call_translate (p : TranslationProvider) (params : TranslateParams)
  : M TranslateResult :=
  fun w => (translate p params, log (EvTranslate params) w).

(** [Date.now()] and [new Date()] read the clock. *)
Definition Date_now : M Z := fun w =>
  (inr (clock w (ticks w)),
   {| files := files w; dirs := dirs w; clock := clock w; ticks := S (ticks w);
      trace := trace w |}).

Module Deno.

Definition slash : ascii := chr 47.

  (** The directory a path lies in. *)
Definition dirname (path : string) : string :=
    JsString.substring 0 (lastIndexOf slash path) path.

  (** A directory and the directories above it, as named in the path. *)
Fixpoint ancestors_acc (s cur : string) : list string :=
    match s with
    | EmptyString => [JsString.rev cur]
    | String c r =>
        if Ascii.eqb c slash && negb (is_empty cur)
        then JsString.rev cur :: ancestors_acc r (String c cur)
        else ancestors_acc r (String c cur)
    end.
Definition ancestors (dir : string) : list string := ancestors_acc dir EmptyString.

Definition is_file (w : World) (path : string) : bool :=
    bool_decide (is_Some (files w !! path)).

Definition is_dir (w : World) (path : string) : bool :=
    is_empty path || String.eqb path "." || bool_decide (path ∈ dirs w).

  (** [Deno.readTextFile(path)] *)
Definition readTextFile (path : string) : M string := fun w =>
    match files w !! path with
    | Some content => (inr content, w)
    | None =>
        if bool_decide (path ∈ dirs w)
        then (inl {| err_class := IsADirectory; message := "Is a directory (os error 21)" |}, w)
        else (inl {| err_class := NotFound;
                     message := "No such file or directory (os error 2)" |}, w)
    end.

  (** [Deno.mkdir(dir, { recursive: true })]: the directory and the missing
      ones above it; an existing directory is not an error, a regular file in
      the way is. *)
Definition mkdir_recursive (dir : string) : M unit := fun w =>
    let w := log (EvMkdir dir) w in
    if is_empty dir then
      (inl {| err_class := NotFound;
              message := "No such file or directory (os error 2)" |}, w)
    else if is_file w dir then
      (inl {| err_class := AlreadyExists; message := "File exists (os error 17)" |}, w)
    else if existsb (is_file w) (ancestors dir) then
      (inl {| err_class := NotADirectory; message := "Not a directory (os error 20)" |}, w)
    else
      (inr (),
       {| files := files w; dirs := dirs w ∪ list_to_set (ancestors dir);
          clock := clock w; ticks := ticks w; trace := trace w |}).

  (** [Deno.writeTextFile(path, data, { append: true, create: true })]: the
      bytes of [data] go after the bytes the file holds; a missing file is
      created. *)
Definition writeTextFile_append (path data : string) : M unit := fun w =>
    let w := log (EvWrite path data) w in
    if bool_decide (path ∈ dirs w) then
      (inl {| err_class := IsADirectory; message := "Is a directory (os error 21)" |}, w)
    else if negb (is_dir w (dirname path)) then
      (inl {| err_class := NotFound;
              message := "No such file or directory (os error 2)" |}, w)
    else
      (inr (),
       {| files := <[ path := default EmptyString (files w !! path) +:+ data ]> (files w);
          dirs := dirs w; clock := clock w; ticks := ticks w; trace := trace w |}).

End Deno.

(* ===================================================================== *)
(** * 7. utils/hash.ts and utils/time.ts                                  *)
(* ===================================================================== *)

(** [new TextEncoder().encode(input)] *)
Definition encode (input : string) : list N :=
  map N_of_ascii (list_ascii_of_string input).

(** [hashArray.map(b => b.toString(16).padStart(2, '0')).join('')] *)
Fixpoint hex_join (bytes : list N) : string :=
  match bytes with
  | [] => EmptyString
  | b :: r => hex2 b +:+ hex_join r
  end.

Definition generateHash (input : string) : string :=
  let data := encode input in
  let hashArray := Sha256.digest data in
  hex_join hashArray.

Definition generateContractId (content : string) : M string :=
  now ← Date_now;
  let timestamp := toString (of_Z now) in
  let combined := content +:+ "_" +:+ timestamp in
  let hash := generateHash combined in
  mret ("trans_" +:+ JsString.substring 0 6 hash).

(** [Date.prototype.toISOString]: the civil date of a day count, then the
    fixed format, with the expanded year outside 0..9999. *)
Definition civil_from_days (days : Z) : Z * Z * Z :=
  let z := days + 719468 in
  let era := z / 146097 in
  let doe := z - era * 146097 in
  let yoe := (doe - doe / 1460 + doe / 36524 - doe / 146096) / 365 in
  let doy := doe - (365 * yoe + yoe / 4 - yoe / 100) in
  let mp := (5 * doy + 2) / 153 in
  let d := doy - (153 * mp + 2) / 5 + 1 in
  let m := if mp <? 10 then mp + 3 else mp - 9 in
  let y := yoe + era * 400 + (if m <=? 2 then 1 else 0) in
  (y, m, d).

Definition pad_digits (width : nat) (n : Z) : string :=
  let ds := digits (Z.to_N n) in
  digits_string (repeat 0%N (width - length ds) ++ ds).

Definition toISOString (ms : Z) : string :=
  let days := ms / 86400000 in
  let rest := ms mod 86400000 in
  let '(y, m, d) := civil_from_days days in
  let year :=
    if (0 <=? y) && (y <=? 9999) then pad_digits 4 y
    else (if y <? 0 then "-" else "+") +:+ pad_digits 6 (Z.abs y) in
  year +:+ "-" +:+ pad_digits 2 m +:+ "-" +:+ pad_digits 2 d +:+ "T"
  +:+ pad_digits 2 (rest / 3600000) +:+ ":"
  +:+ pad_digits 2 ((rest / 60000) mod 60) +:+ ":"
  +:+ pad_digits 2 ((rest / 1000) mod 60) +:+ "."
  +:+ pad_digits 3 (rest mod 1000) +:+ "Z".

Definition generateTimestamp : M string :=
  now ← Date_now;
  mret (toISOString now).

(* ===================================================================== *)
(** * 8. Ajv                                                              *)
(* ===================================================================== *)

(** One entry of [validate.errors]. *)
Record ErrorObject := {
  instancePath : string;
  error_message : string
}.

(** A compiled schema: the errors it reports for a value, none when the
    value is valid.  [schema.json] is not part of the sources, so the
    functions below take the compiled validator as an argument. *)
Definition Validator : Type := json -> list ErrorObject.

(** [validate.errors.map(err => `${err.instancePath} ${err.message}`).join(", ")] *)
Fixpoint join_errors (errs : list ErrorObject) : string :=
  match errs with
  | [] => EmptyString
  | [e] => instancePath e +:+ " " +:+ error_message e
  | e :: r => instancePath e +:+ " " +:+ error_message e +:+ ", " +:+ join_errors r
  end.

Definition is_nil {A} (l : list A) : bool :=
  match l with [] => true | _ :: _ => false end.

(** The schema of the specification, to have one concrete validator at
    hand. *)
Module SpecSchema.

Definition err (path msg : string) : list ErrorObject :=
    [ {| instancePath := path; error_message := msg |} ].

Definition required_string (path : string) (o : list (string * json)) (k : string)
    : list ErrorObject :=
    match lookup k o with
    | None => err path ("must have required property '" +:+ k +:+ "'")
    | Some (JStr _) => []
    | Some _ => err (path +:+ "/" +:+ k) "must be string"
    end.

Definition optional_string (path : string) (o : list (string * json)) (k : string)
    : list ErrorObject :=
    match lookup k o with
    | None | Some (JStr _) => []
    | Some _ => err (path +:+ "/" +:+ k) "must be string"
    end.

Definition check_method (path : string) (o : list (string * json)) : list ErrorObject :=
    match lookup "method" o with
    | None => err path "must have required property 'method'"
    | Some (JStr m) =>
        if String.eqb m "human" || String.eqb m "machine" || String.eqb m "hybrid"
        then [] else err (path +:+ "/method") "must be equal to one of the allowed values"
    | Some _ => err (path +:+ "/method") "must be string"
    end.

Definition check_confidence (path : string) (o : list (string * json))
    : list ErrorObject :=
    match lookup "confidence" o with
    | None => err path "must have required property 'confidence'"
    | Some (JNum _) => []
    | Some _ => err (path +:+ "/confidence") "must be number"
    end.

Definition check_provenance (path : string) (o : list (string * json))
    : list ErrorObject :=
    match lookup "provenance" o with
    | None => err path "must have required property 'provenance'"
    | Some (JObj p) =>
        let path' := path +:+ "/provenance" in
        required_string path' p "timestamp" ++ required_string path' p "tenant_id"
        ++ required_string path' p "signature"
    | Some _ => err (path +:+ "/provenance") "must be object"
    end.

Definition contract_schema (path : string) (v : json) : list ErrorObject :=
    match v with
    | JObj o =>
        required_string path o "id" ++ required_string path o "workflow"
        ++ required_string path o "flow" ++ required_string path o "source_language"
        ++ required_string path o "target_language" ++ required_string path o "source_text"
        ++ required_string path o "translated_text" ++ optional_string path o "translator"
        ++ check_method path o ++ check_confidence path o ++ check_provenance path o
    | _ => err path "must be object"
    end.

  (** Modelled from the spec: [schema.json], which is missing from the
      sources.  Section 4.3 of the specification gives its structural layer:
      every field present with the correct primitive type (translator
      optional), method in {human, machine, hybrid}, confidence numeric; the
      validation for a ledger write is of the envelope. *)
Definition envelope_schema : Validator := fun v =>
    match v with
    | JObj o =>
        match lookup "contract" o with
        | None => err EmptyString "must have required property 'contract'"
        | Some c => contract_schema "/contract" c
        end
    | _ => err EmptyString "must be object"
    end.

End SpecSchema.

(* ===================================================================== *)
(** * 9. ledger.ts                                                        *)
(* ===================================================================== *)

(** [JSON.parse(text)] as a computation: a [SyntaxError] on text that is not
    JSON (the wording of the engine's message is not modelled). *)
Definition JSON_parse (text : string) : M json :=
  match parse text with
  | Some v => mret v
  | None => throw {| err_class := SyntaxError; message := "Unexpected token in JSON" |}
  end.

(** [array.map(f)] for an [f] that may throw. *)
Fixpoint map_M {A B} (f : A -> M B) (l : list A) : M (list B) :=
  match l with
  | [] => mret []
  | x :: r => y ← f x; ys ← map_M f r; mret (y :: ys)
  end.

Definition is_human_or_hybrid (m : TranslationMethod) : bool :=
  match m with human | hybrid => true | machine => false end.

Module Ledger.

Definition LEDGER_PATH : string := "./output/contracts.ndjson".

Definition translator_required : string :=
    "translator field is required when method is 'human' or 'hybrid'".
Definition confidence_range : string :=
    "confidence must be between 0.0 and 1.0".

Section WithSchema.
Variable validate : Validator.

Definition validateEnvelope (envelope : TranslationContractEnvelope) : M unit :=
      let errors := validate (envelope_json envelope) in
      if negb (is_nil errors) then
        throw (new_Error ("Invalid translation contract envelope: " +:+ join_errors errors))
      else
        let contract := contract envelope in
        if is_human_or_hybrid (method contract) && falsy (translator contract) then
          throw (new_Error translator_required)
        else if ltb (confidence contract) zero || ltb one (confidence contract) then
          throw (new_Error confidence_range)
        else mret ().

Definition saveLedgerEntry (envelope : TranslationContractEnvelope) : M unit :=
      _ ← validateEnvelope envelope;
      let line := stringify (envelope_json envelope) +:+ String LF EmptyString in
      try_catch
        (let dir := JsString.substring 0 (lastIndexOf Deno.slash LEDGER_PATH) LEDGER_PATH in
         _ ← Deno.mkdir_recursive dir;
         Deno.writeTextFile_append LEDGER_PATH line)
        (fun error => throw (new_Error ("Failed to write to ledger: " +:+ message error))).

End WithSchema.

Definition nonempty (line : string) : bool := negb (is_empty line).

  (** [content.trim().split("\n").filter(line => line.length > 0)] *)
Definition ledger_lines (content : string) : list string :=
    List.filter nonempty (split LF (trim content)).

Definition readLedger (ledgerPath : string) : M (list json) :=
    try_catch
      (content ← Deno.readTextFile ledgerPath;
       let lines := ledger_lines content in
       map_M JSON_parse lines)
      (fun error =>
         match err_class error with
         | NotFound => mret []
         | _ => throw error
         end).

End Ledger.

(** An earlier revision of [ledger.ts] (unnamed/part_008): the append alone,
    with neither validation nor directory creation. *)
Module LedgerDraft.

Definition LEDGER_PATH : string := "./output/contracts.ndjson".

Definition saveLedgerEntry (envelope : TranslationContractEnvelope) : M unit :=
    let line := stringify (envelope_json envelope) +:+ String LF EmptyString in
    try_catch
      (Deno.writeTextFile_append LEDGER_PATH line)
      (fun error => throw (new_Error ("Failed to write to ledger: " +:+ message error))).

End LedgerDraft.

(* ===================================================================== *)
(** * 10. translate.ts                                                    *)
(* ===================================================================== *)

Module Translate.

Definition ENABLE_SIGNING : bool := false.   (* placeholder *)

Definition buildProvenance (tenant : string) : M ProvenanceBlock :=
    ts ← generateTimestamp;
    mret {| timestamp := ts;
            tenant_id := tenant;
            signature := if ENABLE_SIGNING then "<todo-signature>" else EmptyString |}.

Definition buildContract (input : TranslationRequestInput)
      (translatedText : string) (confidence : number) : M TranslationContract :=
    id ← generateContractId
           (Request.source_language input +:+ "_" +:+ Request.target_language input
            +:+ "_" +:+ Request.source_text input);
    prov ← buildProvenance (Request.tenant_id input);
    mret {| id := id;
            workflow := Request.workflow input;
            flow := Request.flow input;
            source_language := Request.source_language input;
            target_language := Request.target_language input;
            source_text := Request.source_text input;
            translated_text := translatedText;
            translator := Request.translator input;
            method := Request.method input;
            confidence := confidence;
            provenance := prov |}.

Section WithSchema.
Variable validate : Validator.

Definition translateRequest (provider : TranslationProvider)
        (input : TranslationRequestInput) : M TranslationContractEnvelope :=
      r ← call_translate provider
            {| tp_source_language := Request.source_language input;
               tp_target_language := Request.target_language input;
               tp_text := Request.source_text input |};
      contract ← buildContract input (translatedText r) (result_confidence r);
      let envelope := {| contract := contract |} in
      _ ← Ledger.saveLedgerEntry validate envelope;
      mret envelope.

End WithSchema.

End Translate.

(* ===================================================================== *)
(** * 11. contract.ts (legacy builder and validator)                      *)
(* ===================================================================== *)

Module Contract.

Module Params.
Record BuildContractParams := {
      workflow : string;
      flow : string;
      source_language : string;
      target_language : string;
      source_text : string;
      translated_text : string;
      method : TranslationMethod;
      confidence : number;
      tenant_id : string;
      translator : option string;
      signature : option string
    }.
End Params.
Abbreviation BuildContractParams := Params.BuildContractParams.

  (** The contract object as this module builds it: [translator] is assigned
      after the literal, so it comes last. *)
Definition contract_json (c : TranslationContract) : json :=
    JObj ([ ("id", JStr (id c));
            ("workflow", JStr (workflow c));
            ("flow", JStr (flow c));
            ("source_language", JStr (source_language c));
            ("target_language", JStr (target_language c));
            ("source_text", JStr (source_text c));
            ("translated_text", JStr (translated_text c));
            ("method", JStr (method_string (method c)));
            ("confidence", JNum (confidence c));
            ("provenance", provenance_json (provenance c)) ]
          ++ optional "translator" (translator c)).

  (** [x || ''] and [if (x) ...] on an optional string. *)
Definition or_empty (v : option string) : string :=
    match v with Some s => s | None => EmptyString end.
Definition truthy (v : option string) : option string :=
    if falsy v then None else v.

Section WithSchema.
Variable validate : Validator.

Definition validateContract (contract : TranslationContract) : M unit :=
      let errors := validate (contract_json contract) in
      if negb (is_nil errors) then
        throw (new_Error ("Invalid translation contract: " +:+ join_errors errors))
      else if is_human_or_hybrid (method contract) && falsy (translator contract) then
        throw (new_Error Ledger.translator_required)
      else if ltb (confidence contract) zero || ltb one (confidence contract) then
        throw (new_Error Ledger.confidence_range)
      else mret ().

Definition buildContract (params : BuildContractParams) : M TranslationContract :=
      let contentForId :=
        Params.source_text params +:+ "_" +:+ Params.target_language params
        +:+ "_" +:+ Params.workflow params +:+ "_" +:+ Params.flow params in
      id ← generateContractId contentForId;
      ts ← generateTimestamp;
      let contract :=
        {| id := id;
           workflow := Params.workflow params;
           flow := Params.flow params;
           source_language := Params.source_language params;
           target_language := Params.target_language params;
           source_text := Params.source_text params;
           translated_text := Params.translated_text params;
           translator := truthy (Params.translator params);
           method := Params.method params;
           confidence := Params.confidence params;
           provenance := {| timestamp := ts;
                            tenant_id := Params.tenant_id params;
                            signature := or_empty (Params.signature params) |} |} in
      _ ← validateContract contract;
      mret contract.

End WithSchema.

  (** [saveLedgerEntry(contract, ledgerPath)]: the bare contract on a line. *)
Definition saveLedgerEntry (contract : TranslationContract) (ledgerPath : string)
    : M unit :=
    let dir := JsString.substring 0 (lastIndexOf Deno.slash ledgerPath) ledgerPath in
    _ ← Deno.mkdir_recursive dir;
    let line := stringify (contract_json contract) +:+ String LF EmptyString in
    Deno.writeTextFile_append ledgerPath line.

Definition readLedger (ledgerPath : string) : M (list json) :=
    try_catch
      (content ← Deno.readTextFile ledgerPath;
       let lines := Ledger.ledger_lines content in
       map_M JSON_parse lines)
      (fun error =>
         match err_class error with
         | NotFound => mret []
         | _ => throw error
         end).

End Contract.

(* ===================================================================== *)
(** * 12. Vocabulary of the statements                                    *)
(* ===================================================================== *)

(** The params handed to the provider. *)
Definition params_of (input : TranslationRequestInput) : TranslateParams :=
  {| tp_source_language := Request.source_language input;
     tp_target_language := Request.target_language input;
     tp_text := Request.source_text input |}.

(** The world after [n] more readings of the clock. *)
Definition tick (n : nat) (w : World) : World :=
  {| files := files w; dirs := dirs w; clock := clock w; ticks := n + ticks w;
     trace := trace w |}.

(** No provider call among the events. *)
Definition provider_untouched (evs : list Event) : Prop :=
  forall p, ~ In (EvTranslate p) evs.

(** No directory made and no file written among the events. *)
Definition storage_untouched (evs : list Event) : Prop :=
  (forall d, ~ In (EvMkdir d) evs) /\ (forall p data, ~ In (EvWrite p data) evs).

(** The events of [w'] that [w] did not have yet. *)
Definition new_events (w w' : World) : list Event :=
  skipn (length (trace w)) (trace w').

Definition translator_present (c : TranslationContract) : Prop :=
  exists s, translator c = Some s /\ s <> EmptyString.

Definition in_unit_interval (x : number) : Prop :=
  leb zero x = true /\ leb x one = true.

Definition out_of_range (x : number) : Prop :=
  ltb x zero = true \/ ltb one x = true.

(** What the gate of the ledger accepts. *)
Definition envelope_valid (validate : Validator) (envelope : TranslationContractEnvelope)
  : Prop :=
  validate (envelope_json envelope) = []
  /\ (is_human_or_hybrid (method (contract envelope)) = true ->
      translator_present (contract envelope))
  /\ in_unit_interval (confidence (contract envelope)).

(** The error of a request without translator: the provider's own when the
    provider fails, otherwise the refusal of the ledger, by the schema or by
    the translator rule. *)
Definition refusal (outcome : JsError + TranslateResult) (e : JsError) : Prop :=
  match outcome with
  | inl provider_error => e = provider_error
  | inr _ =>
      e = new_Error Ledger.translator_required
      \/ exists errors,
           e = new_Error ("Invalid translation contract envelope: " +:+ errors)
  end.

(** The fail-fast rule as the specification words it: a human or hybrid
    request without translator fails with no provider call and no storage
    effect. *)
Definition fails_before_provider (validate : Validator)
    (provider : TranslationProvider) (input : TranslationRequestInput) (w : World) : Prop :=
  let '(r, w') := Translate.translateRequest validate provider input w in
  (exists e, r = inl e)
  /\ provider_untouched (new_events w w')
  /\ storage_untouched (new_events w w')
  /\ files w' = files w /\ dirs w' = dirs w.

(** The range rule as the specification words it: on a structurally valid
    envelope, a confidence out of range is reported by the range error. *)
Definition range_error_reported (validate : Validator)
    (envelope : TranslationContractEnvelope) (w : World) : Prop :=
  validate (envelope_json envelope) = [] ->
  out_of_range (confidence (contract envelope)) ->
  exists e, fst (Ledger.validateEnvelope validate envelope w) = inl e
            /\ includes "between 0.0 and 1.0" (message e) = true.

(** The content hashed for the id as the specification words it: source
    text, target language, workflow and flow. *)
Definition spec_id_content (input : TranslationRequestInput) : string :=
  Request.source_text input +:+ "_" +:+ Request.target_language input
  +:+ "_" +:+ Request.workflow input +:+ "_" +:+ Request.flow input.

(** The content the pipeline hashes. *)
Definition pipeline_id_content (input : TranslationRequestInput) : string :=
  Request.source_language input +:+ "_" +:+ Request.target_language input
  +:+ "_" +:+ Request.source_text input.

Definition id_of_content (content : string) (now : Z) : string :=
  "trans_" +:+ JsString.take 6 (generateHash (content +:+ "_" +:+ toString (of_Z now))).

(** The derivation of the id as the specification words it: the pipeline
    hashes source text, target language, workflow and flow, with the clock
    reading. *)
Definition id_hashes_spec_content (validate : Validator)
    (provider : TranslationProvider) (input : TranslationRequestInput) (w : World) : Prop :=
  forall envelope w',
    Translate.translateRequest validate provider input w = (inr envelope, w') ->
    id (contract envelope) = id_of_content (spec_id_content input) (clock w (ticks w)).

Definition printable_ascii (c : ascii) : bool :=
  ((32 <=? code c) && (code c <=? 126))%N.

Fixpoint string_forall (P : ascii -> bool) (s : string) : bool :=
  match s with
  | EmptyString => true
  | String c r => P c && string_forall P r
  end.

Definition not_LF (c : ascii) : bool := negb (Ascii.eqb c LF).

(** The lines of a ledger, each closed by a line feed, and the same lines
    with line feeds between them only. *)
Fixpoint unlines (ls : list string) : string :=
  match ls with
  | [] => EmptyString
  | l :: r => l +:+ String LF (unlines r)
  end.

Fixpoint join_lines (ls : list string) : string :=
  match ls with
  | [] => EmptyString
  | [l] => l
  | l :: r => l +:+ String LF (join_lines r)
  end.

Definition lbrace : ascii := "{"%char.
Definition rbrace : ascii := "}"%char.

Definition is_digit (d : N) : Prop := (d < 10)%N.

Definition mantissa_N (lead : N) (last : digit19) : N := (10 * lead + digit19_val last)%N.

(** A character that cannot continue a number literal. *)
Definition stop_char (c : ascii) : bool :=
  match digit_val c with
  | Some _ => false
  | None => negb ((code c =? 46) || (code c =? 101) || (code c =? 69))%N
  end.

(** Text that may follow a number literal: nothing, or a stop character. *)
Definition number_stop (s : string) : Prop :=
  match s with
  | EmptyString => True
  | String c _ => stop_char c = true
  end.

Definition closes (t : token) : Prop := t = TRBracket \/ t = TRBrace.

(** The automaton reads the tokens of [v] as one value, whatever the
    context. *)
Definition parses (v : json) : Prop :=
  forall stk rest,
    parse_tokens (stk, PValue) (tokens_of v ++ rest)
    = parse_tokens (push_value stk v) rest.

(** Neither a control character nor, in particular, a line feed. *)
Definition no_control (c : ascii) : bool := (32 <=? code c)%N.

(** Text that opens with a left brace and closes with a right brace. *)
Definition braced (l : string) : Prop :=
  exists x, l = String lbrace (x +:+ String rbrace EmptyString).

(** The line of the ledger that holds an envelope. *)
Definition line_of (envelope : TranslationContractEnvelope) : string :=
  stringify (envelope_json envelope).

(** The world after a successful append of [line] to the ledger. *)
Definition appended (line : string) (w : World) : World :=
  {| files := <[ Ledger.LEDGER_PATH :=
                   default EmptyString (files w !! Ledger.LEDGER_PATH) +:+ line ]> (files w);
     dirs := dirs w ∪ list_to_set ["."; "./output"];
     clock := clock w;
     ticks := ticks w;
     trace := (trace w ++ [EvMkdir "./output"]) ++ [EvWrite Ledger.LEDGER_PATH line] |}.

(** Nothing stands in the way of the ledger: no regular file where its
    directories go, no directory where the ledger file goes. *)
Definition storage_ready (w : World) : Prop :=
  Deno.is_file w "." = false
  /\ Deno.is_file w "./output" = false
  /\ Ledger.LEDGER_PATH ∉ dirs w.

(** The ledger file is absent or empty. *)
Definition ledger_blank (w : World) : Prop :=
  files w !! Ledger.LEDGER_PATH = None
  \/ files w !! Ledger.LEDGER_PATH = Some EmptyString.

(** [for (const e of envelopes) await saveLedgerEntry(e)] *)
Fixpoint save_all (validate : Validator) (envelopes : list TranslationContractEnvelope)
  : M unit :=
  match envelopes with
  | [] => mret ()
  | e :: r => _ ← Ledger.saveLedgerEntry validate e; save_all validate r
  end.

Definition end_of_line : string := String LF EmptyString.

(** The part of saveLedgerEntry after the gate: the directory, then the
    line. *)
Definition write_line (line : string) : M unit :=
  try_catch
    (let dir := JsString.substring 0 (lastIndexOf Deno.slash Ledger.LEDGER_PATH)
                  Ledger.LEDGER_PATH in
     _ ← Deno.mkdir_recursive dir;
     Deno.writeTextFile_append Ledger.LEDGER_PATH line)
    (fun error => throw (new_Error ("Failed to write to ledger: " +:+ message error))).

(** Every line parsed, or none. *)
Fixpoint parse_all (lines : list string) : option (list json) :=
  match lines with
  | [] => Some []
  | l :: r =>
      match parse l, parse_all r with
      | Some v, Some vs => Some (v :: vs)
      | _, _ => None
      end
  end.

Definition syntax_error : JsError :=
  {| err_class := SyntaxError; message := "Unexpected token in JSON" |}.

(** The typed view of an object read back from the ledger: its fields, when
    they have the types of an envelope. *)
Definition get_string (k : string) (o : list (string * json)) : option string :=
  match lookup k o with
  | Some (JStr s) => Some s
  | _ => None
  end.

Definition get_number (k : string) (o : list (string * json)) : option number :=
  match lookup k o with
  | Some (JNum x) => Some x
  | _ => None
  end.

Definition get_object (k : string) (o : list (string * json))
  : option (list (string * json)) :=
  match lookup k o with
  | Some (JObj m) => Some m
  | _ => None
  end.

Definition method_of_string (s : string) : option TranslationMethod :=
  if String.eqb s "human" then Some human
  else if String.eqb s "machine" then Some machine
  else if String.eqb s "hybrid" then Some hybrid
  else None.

Definition read_provenance (p : list (string * json)) : option ProvenanceBlock :=
  ts ← get_string "timestamp" p;
  tenant ← get_string "tenant_id" p;
  sig ← get_string "signature" p;
  Some {| timestamp := ts; tenant_id := tenant; signature := sig |}.

Definition read_contract (o : list (string * json)) : option TranslationContract :=
  c_id ← get_string "id" o;
  c_workflow ← get_string "workflow" o;
  c_flow ← get_string "flow" o;
  c_source_language ← get_string "source_language" o;
  c_target_language ← get_string "target_language" o;
  c_source_text ← get_string "source_text" o;
  c_translated_text ← get_string "translated_text" o;
  c_method ← get_string "method" o ≫= method_of_string;
  c_confidence ← get_number "confidence" o;
  c_provenance ← get_object "provenance" o ≫= read_provenance;
  Some {| id := c_id; workflow := c_workflow; flow := c_flow;
          source_language := c_source_language;
          target_language := c_target_language;
          source_text := c_source_text;
          translated_text := c_translated_text;
          translator := get_string "translator" o;
          method := c_method; confidence := c_confidence;
          provenance := c_provenance |}.

Definition read_envelope (v : json) : option TranslationContractEnvelope :=
  match v with
  | JObj o =>
      c ← get_object "contract" o ≫= read_contract;
      Some {| contract := c |}
  | _ => None
  end.

(* ===================================================================== *)
(** * 13. Test fixtures                                                   *)
(* ===================================================================== *)

Module Fixtures.

  (** [MockProvider] of providers/mock.ts with a fixed answer, and its
      [shouldFail] variant. *)
Definition mock (text : string) (conf : number) : TranslationProvider :=
    {| translate := fun _ =>
         inr {| translatedText := text; result_confidence := conf |} |}.

Definition failing_mock : TranslationProvider :=
    {| translate := fun _ => inl (new_Error "Mock translation failed (simulated)") |}.

Definition empty_world : World :=
    {| files := ∅; dirs := ∅; clock := fun _ => 1731523440123;
       ticks := 0; trace := [] |}.

Definition request (m : TranslationMethod) (who : option string)
    : TranslationRequestInput :=
    {| Request.source_language := "en";
       Request.target_language := "pt";
       Request.source_text := "test";
       Request.workflow := "test";
       Request.flow := "test";
       Request.tenant_id := "test";
       Request.method := m;
       Request.translator := who |}.

Definition a_contract (m : TranslationMethod) (who : option string) (conf : number)
    : TranslationContract :=
    {| id := "trans_f2a7c8"; workflow := "docgen"; flow := "translate_fn";
       source_language := "en"; target_language := "pt";
       source_text := "hello"; translated_text := "olá";
       translator := who; method := m; confidence := conf;
       provenance := {| timestamp := "2025-11-13T18:44:00.123Z";
                        tenant_id := "voulezvous"; signature := EmptyString |} |}.

  (** The parameters of the test "validateContract - deve rejeitar confidence
      inválida" of tests/contract.test.ts. *)
Definition params_confidence_1_5 : Contract.BuildContractParams :=
    {| Contract.Params.workflow := "test";
       Contract.Params.flow := "test";
       Contract.Params.source_language := "en";
       Contract.Params.target_language := "pt";
       Contract.Params.source_text := "test";
       Contract.Params.translated_text := "teste";
       Contract.Params.method := machine;
       Contract.Params.confidence := of_decimal 15 (-1);
       Contract.Params.tenant_id := "test";
       Contract.Params.translator := None;
       Contract.Params.signature := None |}.

Definition n_0_95 : number := of_decimal 95 (-2).
Definition n_1_5 : number := of_decimal 15 (-1).

Definition with_ledger (content : string) : World :=
    {| files := {[ Ledger.LEDGER_PATH := content ]}; dirs := {[ "."; "./output" ]};
       clock := fun _ => 1731523440123; ticks := 0; trace := [] |}.

Definition valid_envelope : TranslationContractEnvelope :=
    {| contract := a_contract machine None n_0_95 |}.

  (** A contract that breaks both business rules. *)
Definition invalid_envelope : TranslationContractEnvelope :=
    {| contract := a_contract human None n_1_5 |}.

  (** A ledger of two lines: one is JSON of another shape, one is an
      envelope that the gate would refuse. *)
Definition foreign_line : string := "{" +:+ quote "foo" +:+ ":1}".
Definition unvalidated_ledger : string :=
    foreign_line +:+ end_of_line +:+ line_of invalid_envelope +:+ end_of_line.


Definition reviewed_envelope : TranslationContractEnvelope :=
    {| contract := a_contract human (Some "john.doe@example.com") one |}.

End Fixtures.

(* ===================================================================== *)
(** * 14. Vocabulary of the further statements                            *)
(* ===================================================================== *)

(** A digit of lower-case hexadecimal text. *)
Definition lower_hex (c : ascii) : bool :=
  ((48 <=? code c) && (code c <=? 57) || (97 <=? code c) && (code c <=? 102))%N.

(** The white space of ASCII: TAB, LF, VT, FF, CR and the space. *)
Definition blank (c : ascii) : bool := ws1 c.

(** The contract that [buildContract] of translate.ts puts together for a
    request and the answer of the provider, given the reading of the clock
    that goes into the id and the one that goes into the provenance. *)
Definition pipeline_contract (input : TranslationRequestInput) (r : TranslateResult)
    (now stamp : Z) : TranslationContract :=
  {| id := id_of_content (pipeline_id_content input) now;
     workflow := Request.workflow input;
     flow := Request.flow input;
     source_language := Request.source_language input;
     target_language := Request.target_language input;
     source_text := Request.source_text input;
     translated_text := translatedText r;
     translator := Request.translator input;
     method := Request.method input;
     confidence := result_confidence r;
     provenance := {| timestamp := toISOString stamp;
                      tenant_id := Request.tenant_id input;
                      signature := EmptyString |} |}.

(** The envelope of a request answered by [r] in the world [w]: the clock is
    read twice, for the id and then for the timestamp. *)
Definition pipeline_envelope (input : TranslationRequestInput) (r : TranslateResult)
    (w : World) : TranslationContractEnvelope :=
  {| contract := pipeline_contract input r (clock w (ticks w)) (clock w (S (ticks w))) |}.

(** The content of the ledger file, empty when there is none. *)
Definition ledger_content (w : World) : string :=
  default EmptyString (files w !! Ledger.LEDGER_PATH).

(** The error that [saveLedgerEntry] makes of a failure of the file system. *)
Definition write_failure (cause : string) : JsError :=
  new_Error ("Failed to write to ledger: " +:+ cause).

Module Obstructed.
End Obstructed.

(** The content that [buildContract] of contract.ts hashes into the id. *)
Definition legacy_id_content (params : Contract.BuildContractParams) : string :=
  Contract.Params.source_text params +:+ "_" +:+ Contract.Params.target_language params
  +:+ "_" +:+ Contract.Params.workflow params +:+ "_" +:+ Contract.Params.flow params.

(** The contract that [buildContract] of contract.ts assembles before it
    validates it: an empty translator is left out, a missing signature is the
    empty string. *)
Definition legacy_contract (params : Contract.BuildContractParams) (now stamp : Z)
  : TranslationContract :=
  {| id := id_of_content (legacy_id_content params) now;
     workflow := Contract.Params.workflow params;
     flow := Contract.Params.flow params;
     source_language := Contract.Params.source_language params;
     target_language := Contract.Params.target_language params;
     source_text := Contract.Params.source_text params;
     translated_text := Contract.Params.translated_text params;
     translator := Contract.truthy (Contract.Params.translator params);
     method := Contract.Params.method params;
     confidence := Contract.Params.confidence params;
     provenance := {| timestamp := toISOString stamp;
                      tenant_id := Contract.Params.tenant_id params;
                      signature := Contract.or_empty (Contract.Params.signature params) |} |}.

(** What [validateContract] of contract.ts accepts. *)
Definition contract_valid (validate : Validator) (c : TranslationContract) : Prop :=
  validate (Contract.contract_json c) = []
  /\ (is_human_or_hybrid (method c) = true -> translator_present c)
  /\ in_unit_interval (confidence c).

Module LegacyFixtures.

  (** The parameters of the test "buildContract - deve criar um contrato
      válido" of tests/contract.test.ts. *)
Definition params : Contract.BuildContractParams :=
    {| Contract.Params.workflow := "test_workflow";
       Contract.Params.flow := "test_flow";
       Contract.Params.source_language := "en";
       Contract.Params.target_language := "pt";
       Contract.Params.source_text := "Hello world";
       Contract.Params.translated_text := "Olá mundo";
       Contract.Params.method := machine;
       Contract.Params.confidence := Fixtures.n_0_95;
       Contract.Params.tenant_id := "test_tenant";
       Contract.Params.translator := None;
       Contract.Params.signature := None |}.

  (** The structural layer of the schema, for a bare contract. *)
Definition contract_schema : Validator := SpecSchema.contract_schema EmptyString.

End LegacyFixtures.




(* ===================================================================== *)
(** * 15. utils/time.ts: isValidTimestamp                                 *)
(* ===================================================================== *)

(** [new Date(text)] parses [text].  ECMAScript fixes the result for text in
    its Date Time String Format and leaves any other text to the engine.
    The format is taken here in the complete UTC form,
    [YYYY-MM-DDTHH:mm:ss.sssZ] with the year also as [+YYYYYY] or [-YYYYYY];
    every other text, shorter forms of the format included, goes to the
    parser of the engine, which the functions below take as an argument. *)
Module Date.

  (** The time values: whole milliseconds, 8.64e15 at most on either side of
      the epoch. *)
Definition max_time : Z := 8640000000000000.

Definition in_range (t : Z) : bool := (- max_time <=? t) && (t <=? max_time).

  (** [TimeClip]: [None] stands for NaN, the time value of an invalid
      date. *)
Definition TimeClip (t : Z) : option Z := if in_range t then Some t else None.

  (** Exactly [n] decimal digits at the head of [s]: their value, and the
      rest of [s]. *)
Fixpoint take_digits (n : nat) (acc : Z) (s : string) : option (Z * string) :=
    match n with
    | O => Some (acc, s)
    | S k =>
        match s with
        | String c r =>
            match digit_val c with
            | Some d => take_digits k (10 * acc + Z.of_N d) r
            | None => None
            end
        | EmptyString => None
        end
    end.

Definition expect (c : ascii) (s : string) : option string :=
    match s with
    | String a r => if Ascii.eqb a c then Some r else None
    | EmptyString => None
    end.

Definition is_leap (y : Z) : bool :=
    (y mod 4 =? 0) && (negb (y mod 100 =? 0) || (y mod 400 =? 0)).

Definition days_in_month (y m : Z) : Z :=
    if m =? 2 then (if is_leap y then 29 else 28)
    else if (m =? 4) || (m =? 6) || (m =? 9) || (m =? 11) then 30
    else 31.

  (** [MakeDay]: the day number of a date of the proleptic Gregorian
      calendar, day 0 being 1970-01-01. *)
Definition days_from_civil (y m d : Z) : Z :=
    let y' := if m <=? 2 then y - 1 else y in
    let era := y' / 400 in
    let yoe := y' - era * 400 in
    let mp := if 2 <? m then m - 3 else m + 9 in
    let doy := (153 * mp + 2) / 5 + d - 1 in
    let doe := yoe * 365 + yoe / 4 - yoe / 100 + doy in
    era * 146097 + doe - 719468.

  (** The year of the format: four digits, or a sign and six digits, where
      [-000000] is not a year. *)
Definition take_year (s : string) : option (Z * string) :=
    match s with
    | String c r =>
        if Ascii.eqb c "+" then take_digits 6 0 r
        else if Ascii.eqb c "-" then
          match take_digits 6 0 r with
          | Some (y, r') => if y =? 0 then None else Some (- y, r')
          | None => None
          end
        else take_digits 4 0 s
    | EmptyString => None
    end.

  (** The time value of a text in the format, [None] for any other text. *)
Definition iso_parse (s : string) : option Z :=
    '(y, s) ← take_year s;
    s ← expect "-" s;
    '(m, s) ← take_digits 2 0 s;
    s ← expect "-" s;
    '(d, s) ← take_digits 2 0 s;
    s ← expect "T" s;
    '(h, s) ← take_digits 2 0 s;
    s ← expect ":" s;
    '(mi, s) ← take_digits 2 0 s;
    s ← expect ":" s;
    '(sec, s) ← take_digits 2 0 s;
    s ← expect "." s;
    '(ms, s) ← take_digits 3 0 s;
    s ← expect "Z" s;
    if is_empty s && (1 <=? m) && (m <=? 12) && (1 <=? d) && (d <=? days_in_month y m)
       && (h <=? 23) && (mi <=? 59) && (sec <=? 59)
    then Some (days_from_civil y m d * 86400000
               + h * 3600000 + mi * 60000 + sec * 1000 + ms)
    else None.

Section Engine.

    (** What the engine makes of a text that is not in the format above: a
        time value, or [None] for NaN. *)
Variable engine_parse : string -> option Z.

    (** The time value of [new Date(text)]. *)
Definition parse (text : string) : option Z :=
      match iso_parse text with
      | Some t => TimeClip t
      | None => engine_parse text ≫= TimeClip
      end.

End Engine.

End Date.

Section WithDateParser.

Variable engine_parse : string -> option Z.

  (** [isValidTimestamp(timestamp)]:
      [!isNaN(date.getTime()) && date.toISOString() === timestamp] *)
Definition isValidTimestamp (timestamp : string) : bool :=
    match Date.parse engine_parse timestamp with
    | None => false
    | Some t => String.eqb (toISOString t) timestamp
    end.

End WithDateParser.

(** The shape of the text [toISOString] writes: the digits and the marks of
    [YYYY-MM-DDTHH:mm:ss.sssZ], the year also as a sign and six digits. *)
Definition digit_char_b (c : ascii) : bool :=
  match digit_val c with Some _ => true | None => false end.

Fixpoint matches (pattern : list (ascii -> bool)) (s : string) : bool :=
  match pattern, s with
  | [], EmptyString => true
  | p :: ps, String c r => p c && matches ps r
  | _, _ => false
  end.

Definition is_char (a c : ascii) : bool := Ascii.eqb c a.
Definition is_sign (c : ascii) : bool := Ascii.eqb c "+" || Ascii.eqb c "-".

Definition iso_tail : list (ascii -> bool) :=
  [ is_char "-"; digit_char_b; digit_char_b; is_char "-"; digit_char_b; digit_char_b;
    is_char "T"; digit_char_b; digit_char_b; is_char ":"; digit_char_b; digit_char_b;
    is_char ":"; digit_char_b; digit_char_b; is_char "."; digit_char_b; digit_char_b;
    digit_char_b; is_char "Z" ].

Definition iso_shape (s : string) : bool :=
  matches (repeat digit_char_b 4 ++ iso_tail) s
  || matches (is_sign :: repeat digit_char_b 6 ++ iso_tail) s.

(** The date of [civil_from_days] within its cycle of 400 years: the day
    [doe] of the cycle gives the year of the cycle, the month and the day. *)
Definition civil_of_doe (doe : Z) : Z * Z * Z :=
  let yoe := (doe - doe / 1460 + doe / 36524 - doe / 146096) / 365 in
  let doy := doe - (365 * yoe + yoe / 4 - yoe / 100) in
  let mp := (5 * doy + 2) / 153 in
  let d := doy - (153 * mp + 2) / 5 + 1 in
  let m := if mp <? 10 then mp + 3 else mp - 9 in
  (yoe + (if m <=? 2 then 1 else 0), m, d).

(** The year as [toISOString] writes it. *)
Definition year_text (y : Z) : string :=
  if (0 <=? y) && (y <=? 9999) then pad_digits 4 y
  else (if y <? 0 then "-" else "+") +:+ pad_digits 6 (Z.abs y).

(* ===================================================================== *)
(** * 16. providers/mock.ts                                               *)
(* ===================================================================== *)

(** A property read from an object literal: its own, one that the literal
    does not have but [Object.prototype] does ([obj["constructor"]] is a
    function, not [undefined]), or none. *)
Inductive property (A : Type) :=
| Own (v : A)
| Inherited
| Missing.
Arguments Own {A} v.
Arguments Inherited {A}.
Arguments Missing {A}.

(** The string-keyed properties of [Object.prototype] in V8. *)
Definition Object_prototype_keys : list string :=
  [ "constructor"; "__defineGetter__"; "__defineSetter__"; "hasOwnProperty";
    "__lookupGetter__"; "__lookupSetter__"; "isPrototypeOf"; "propertyIsEnumerable";
    "toString"; "valueOf"; "__proto__"; "toLocaleString" ].

Fixpoint assoc {A} (k : string) (table : list (string * A)) : option A :=
  match table with
  | [] => None
  | (k', v) :: r => if String.eqb k' k then Some v else assoc k r
  end.

(** [obj[k]] on an object literal with the properties [table]. *)
Definition get {A} (table : list (string * A)) (k : string) : property A :=
  match assoc k table with
  | Some v => Own v
  | None => if existsb (String.eqb k) Object_prototype_keys then Inherited else Missing
  end.

Module Mock.

Record MockProviderConfig := {
    simulateDelay : option number;      (* in ms *)
    shouldFail : option bool;
    fixedConfidence : option number     (* 0.95 when left out *)
  }.

  (** The instance: the configuration with its defaults filled in. *)
Record MockProvider := {
    delay : number;
    fails : bool;
    answer_confidence : number
  }.

  (** [new MockProvider(config)] *)
Definition new (config : MockProviderConfig) : MockProvider :=
    {| delay := default zero (simulateDelay config);
       fails := default false (shouldFail config);
       answer_confidence := default (of_decimal 95 (-2)) (fixedConfidence config) |}.

  (** [new MockProvider()] *)
Definition no_config : MockProviderConfig :=
    {| simulateDelay := None; shouldFail := None; fixedConfidence := None |}.

Definition rules : list (string * list (string * list (string * string))) :=
    [ ("en",
       [ ("pt", [ ("Hello world", "Olá mundo");
                  ("Hello", "Olá");
                  ("test", "teste");
                  ("The system is auditable.", "O sistema é auditável.") ]);
         ("ja", [ ("Hello world", "こんにちは世界");
                  ("Hello", "こんにちは") ]) ]);
      ("pt",
       [ ("en", [ ("Olá mundo", "Hello world");
                  ("O sistema é auditável.", "The system is auditable.") ]) ]);
      ("python",
       [ ("pt", [ ("def greet(): print('Hello')", "Uma função 'greet' que imprime 'Hello'.");
                  ("def hello(): return 'world'", "Uma função 'hello' que retorna 'world'.") ]);
         ("en", [ ("def greet(): print('Hello')",
                   "A function 'greet' that prints 'Hello'.") ]) ]) ].

  (** The text for which no rule is found. *)
Definition fallback (text from to : string) : string :=
    "[MOCK " +:+ from +:+ "→" +:+ to +:+ "] " +:+ text.

  (** [mockTranslate(text, from, to)]: [rules[from]?.[to]?.[text]] when that
      is a non-empty string, the fallback when it is undefined.  [None]
      where the lookup reaches a property of [Object.prototype]: what comes
      out then is a function or one of its properties, not a translation,
      and is not modelled. *)
Definition mockTranslate (text from to : string) : option string :=
    match get rules from with
    | Missing => Some (fallback text from to)
    | Inherited => None
    | Own by_target =>
        match get by_target to with
        | Missing => Some (fallback text from to)
        | Inherited => None
        | Own by_text =>
            match get by_text text with
            | Missing => Some (fallback text from to)
            | Inherited => None
            | Own translation =>
                Some (if is_empty translation then fallback text from to else translation)
            end
        end
    end.

  (** [translate(params)]: the configured failure, or the mock translation
      with the configured confidence.  The delay, when one is configured,
      only postpones the answer. *)
Definition translate (self : MockProvider) (params : TranslateParams)
    : option (JsError + TranslateResult) :=
    if fails self then Some (inl (new_Error "Mock translation failed (simulated)"))
    else
      match mockTranslate (tp_text params) (tp_source_language params)
              (tp_target_language params) with
      | Some translatedText =>
          Some (inr {| translatedText := translatedText;
                       result_confidence := answer_confidence self |})
      | None => None
      end.

End Mock.

(* ===================================================================== *)
(** * 17. api.ts                                                          *)
(* ===================================================================== *)

(** [JSON.stringify(value, null, 2)] and the like: with a non-empty [gap],
    every member and element goes on a line of its own, indented by one more
    [gap] than the object or array that holds it; a key is followed by a
    colon and a space; empty objects and arrays stay [{}] and [[]]. *)
Fixpoint stringify_indented (gap indent : string) (v : json) : string :=
  match v with
  | JArr [] => "[]"
  | JArr items =>
      let inner := indent +:+ gap in
      "[" +:+ String LF inner
      +:+ String.concat ("," +:+ String LF inner) (map (stringify_indented gap inner) items)
      +:+ String LF indent +:+ "]"
  | JObj [] => "{}"
  | JObj members =>
      let inner := indent +:+ gap in
      "{" +:+ String LF inner
      +:+ String.concat ("," +:+ String LF inner)
            (map (fun kv => quote (fst kv) +:+ ": " +:+ stringify_indented gap inner (snd kv))
               members)
      +:+ String LF indent +:+ "}"
  | _ => stringify v
  end.

(** [JSON.stringify(value, null, 2)] *)
Definition stringify_2 (v : json) : string := stringify_indented "  " EmptyString v.

(** The [name] of an error. *)
Definition error_name (e : JsError) : string :=
  match err_class e with
  | PlainError => "Error"
  | SyntaxError => "SyntaxError"
  | NotFound => "NotFound"
  | AlreadyExists => "AlreadyExists"
  | NotADirectory => "NotADirectory"
  | IsADirectory => "IsADirectory"
  end.

(** The name of a header as [Headers] keeps it: in lower case. *)
Definition lower_char (c : ascii) : ascii :=
  let n := code c in
  if ((65 <=? n) && (n <=? 90))%N then chr (n + 32) else c.

Fixpoint lower (s : string) : string :=
  match s with
  | EmptyString => EmptyString
  | String c r => String (lower_char c) (lower r)
  end.

Module Api.

  (** The truthiness of a property of a parsed body: [undefined], [null],
      [false], [0] and the empty string are falsy. *)
Definition truthy (v : option json) : bool :=
    match v with
    | None | Some JNull | Some (JBool false) | Some (JNum Zero) => false
    | Some (JStr s) => negb (is_empty s)
    | Some _ => true
    end.

  (** [typeof v === "string"] *)
Definition is_string (v : option json) : bool :=
    match v with Some (JStr _) => true | _ => false end.

  (** [v === text] *)
Definition is_text (text : string) (v : option json) : bool :=
    match v with Some (JStr s) => String.eqb s text | _ => false end.

  (** [body as Record<string, unknown>], for a body that is an object and
      not [null]: the members of an object; an array is an object too, with
      none of the properties that are read here. *)
Definition properties (body : json) : option (list (string * json)) :=
    match body with
    | JObj members => Some members
    | JArr _ => Some []
    | _ => None
    end.

  (** [!req[k] || typeof req[k] !== "string"] *)
Definition not_a_text (req : list (string * json)) (k : string) : bool :=
    negb (truthy (lookup k req)) || negb (is_string (lookup k req)).

Definition validateTranslateRequest (body : json) : JsError + unit :=
    match properties body with
    | None => inl (new_Error "Request body must be a JSON object")
    | Some req =>
        if not_a_text req "source_language" then
          inl (new_Error "source_language is required and must be a string")
        else if not_a_text req "target_language" then
          inl (new_Error "target_language is required and must be a string")
        else if not_a_text req "source_text" then
          inl (new_Error "source_text is required and must be a string")
        else if not_a_text req "workflow" then
          inl (new_Error "workflow is required and must be a string")
        else if not_a_text req "flow" then
          inl (new_Error "flow is required and must be a string")
        else if not_a_text req "tenant_id" then
          inl (new_Error "tenant_id is required and must be a string")
        else
          let method := lookup "method" req in
          if truthy method
             && negb (is_text "human" method || is_text "machine" method
                      || is_text "hybrid" method) then
            inl (new_Error "method must be 'human', 'machine', or 'hybrid'")
          else if (is_text "human" method || is_text "hybrid" method)
                  && negb (truthy (lookup "translator" req)) then
            inl (new_Error "translator is required when method is 'human' or 'hybrid'")
          else inr ()
    end.

  (** [body as TranslationRequestInput], with [input.method = "machine"]
      when the method is falsy.  The cast checks nothing: this is the body
      read at the types of [TranslationRequestInput], and [None] for a body
      that does not have them.  After [validateTranslateRequest] that is a
      body whose translator is present and not a string, which the pipeline
      would carry as it is; such a body is not modelled. *)
Definition input_of (req : list (string * json)) : option TranslationRequestInput :=
    source_language ← get_string "source_language" req;
    target_language ← get_string "target_language" req;
    source_text ← get_string "source_text" req;
    workflow ← get_string "workflow" req;
    flow ← get_string "flow" req;
    tenant_id ← get_string "tenant_id" req;
    method ← (if truthy (lookup "method" req)
              then get_string "method" req ≫= method_of_string
              else Some machine);
    translator ← match lookup "translator" req with
                 | None => Some None
                 | Some (JStr s) => Some (Some s)
                 | Some _ => None
                 end;
    Some {| Request.source_language := source_language;
            Request.target_language := target_language;
            Request.source_text := source_text;
            Request.workflow := workflow;
            Request.flow := flow;
            Request.tenant_id := tenant_id;
            Request.method := method;
            Request.translator := translator |}.

Record Request := {
    req_method : string;        (* request.method *)
    pathname : string;          (* new URL(request.url).pathname *)
    req_body : string           (* the text of the body *)
  }.

Record Response := {
    status : Z;
    headers : gmap string string;
    body : option string
  }.

  (** [new Headers(init)] and [headers.set(name, value)] *)
Definition Headers_set (name value : string) (h : gmap string string)
    : gmap string string :=
    <[ lower name := value ]> h.

Definition Headers (init : list (string * string)) : gmap string string :=
    fold_left (fun h kv => Headers_set (fst kv) (snd kv) h) init ∅.

Definition json_headers : gmap string string :=
    Headers [ ("Content-Type", "application/json") ].


  (** The response of the [catch] of [handleTranslate]. *)
Definition or_text (s fallback : string) : string :=
    if is_empty s then fallback else s.

Definition error_response (error : JsError) : Response :=
    let errorResponse :=
      JObj [ ("error", JStr (or_text (error_name error) "TranslationError"));
             ("message", JStr (or_text (message error)
                                 "An error occurred during translation")) ] in
    {| status := 400; headers := json_headers; body := Some (stringify_2 errorResponse) |}.

Section Server.

Variable validate : Validator.
Variable provider : TranslationProvider.

    (** The error that [request.json()] throws for a body that is not JSON:
        a SyntaxError, with a message of the engine's. *)
Variable json_error : string -> JsError.

    (** [handleTranslate(request)], on the text of the body.  What is written
        to the console is left out. *)
Definition handleTranslate (text : string) : option (M Response) :=
      match parse text with
      | None => Some (mret (error_response (json_error text)))
      | Some body =>
          match validateTranslateRequest body with
          | inl error => Some (mret (error_response error))
          | inr _ =>
              match properties body ≫= input_of with
              | None => None
              | Some input =>
                  Some (try_catch
                          (envelope ← Translate.translateRequest validate provider input;
                           mret {| status := 200; headers := json_headers;
                                   body := Some (stringify_2 (envelope_json envelope)) |})
                          (fun error => mret (error_response error)))
              end
          end
      end.






End Server.

End Api.

Module ApiFixtures.

  (** The body of a request for a human translation. *)
Definition members : list (string * json) :=
    [ ("source_language", JStr "en");
      ("target_language", JStr "pt");
      ("source_text", JStr "Hello world");
      ("workflow", JStr "docs");
      ("flow", JStr "en_to_pt");
      ("tenant_id", JStr "demo");
      ("method", JStr "human");
      ("translator", JStr "john.doe@example.com") ].

Definition body : json := JObj members.

Definition input : TranslationRequestInput :=
    {| Request.source_language := "en";
       Request.target_language := "pt";
       Request.source_text := "Hello world";
       Request.workflow := "docs";
       Request.flow := "en_to_pt";
       Request.tenant_id := "demo";
       Request.method := human;
       Request.translator := Some "john.doe@example.com" |}.

  (** A server with the structural schema, a provider that always gives the
      same answer, and an engine whose SyntaxError has no message. *)
Definition json_error (text : string) : JsError :=
    {| err_class := SyntaxError; message := EmptyString |}.

End ApiFixtures.

(* ===================================================================== *)
(** * 18. signer.ts                                                       *)
(* ===================================================================== *)

(** [JSON.stringify(value, allow)] with an array of names for replacer: the
    names are the only properties written, of the value and of every object
    inside it, in the order of the array; the elements of an array are all
    written. *)
Fixpoint stringify_only (allow : list string) (v : json) : string :=
  match v with
  | JArr items => "[" +:+ String.concat "," (map (stringify_only allow) items) +:+ "]"
  | JObj members =>
      "{" +:+ String.concat ","
                (omap (fun k =>
                         match assoc k (map (fun kv => (fst kv, stringify_only allow (snd kv)))
                                          members) with
                         | Some text => Some (quote k +:+ ":" +:+ text)
                         | None => None
                         end) allow)
      +:+ "}"
  | _ => stringify v
  end.

(** [names.sort()]: ascending, by the code units of the names. *)
Fixpoint sort_insert (k : string) (sorted : list string) : list string :=
  match sorted with
  | [] => [k]
  | x :: r => if String.leb k x then k :: sorted else x :: sort_insert k r
  end.

Definition sort (names : list string) : list string :=
  fold_right sort_insert [] names.

(** [Object.keys(o)] *)
Definition Object_keys (v : json) : list string :=
  match v with
  | JObj members => map fst members
  | _ => []
  end.

(** The UTF-16 code units of a string, read off its UTF-8 bytes: one unit
    for a sequence of one, two or three bytes, a surrogate pair for a
    sequence of four. *)
Fixpoint code_units (s : string) : list N :=
  match s with
  | EmptyString => []
  | String a r =>
      let x := code a in
      if (x <? 192)%N then x :: code_units r
      else
        match r with
        | EmptyString => [x]
        | String b r1 =>
            let y := (code b - 128)%N in
            if (x <? 224)%N then ((x - 192) * 64 + y)%N :: code_units r1
            else
              match r1 with
              | EmptyString => [x]
              | String c r2 =>
                  let z := (code c - 128)%N in
                  if (x <? 240)%N then ((x - 224) * 4096 + y * 64 + z)%N :: code_units r2
                  else
                    match r2 with
                    | EmptyString => [x]
                    | String d r3 =>
                        let cp := ((x - 240) * 262144 + y * 4096 + z * 64
                                   + (code d - 128) - 65536)%N in
                        (55296 + cp / 1024)%N :: (56320 + cp mod 1024)%N :: code_units r3
                    end
              end
        end
  end.

(** [text.replace(pattern, replacement)] for a pattern that is a string, and
    a replacement without [$]: the first occurrence is replaced. *)
Fixpoint drop (n : nat) (s : string) : string :=
  match n, s with
  | S k, String _ r => drop k r
  | _, _ => s
  end.

Fixpoint replace_first (pattern replacement s : string) : string :=
  if startsWith pattern s then replacement +:+ drop (String.length pattern) s
  else match s with
       | EmptyString => EmptyString
       | String c r => String c (replace_first pattern replacement r)
       end.

Module Hex.

  (** The white space that [parseInt] skips. *)
Definition white_space (u : N) : bool :=
    ((9 <=? u) && (u <=? 13) || (u =? 32) || (u =? 160) || (u =? 5760)
     || (8192 <=? u) && (u <=? 8202) || (u =? 8232) || (u =? 8233) || (u =? 8239)
     || (u =? 8287) || (u =? 12288) || (u =? 65279))%N.

  (** The characters that [.] does not match. *)
Definition line_terminator (u : N) : bool :=
    ((u =? 10) || (u =? 13) || (u =? 8232) || (u =? 8233))%N.

Fixpoint trim_start (us : list N) : list N :=
    match us with
    | u :: r => if white_space u then trim_start r else us
    | [] => []
    end.

Definition digit_value (u : N) : option N :=
    if ((48 <=? u) && (u <=? 57))%N then Some (u - 48)%N
    else if ((97 <=? u) && (u <=? 102))%N then Some (u - 87)%N
    else if ((65 <=? u) && (u <=? 70))%N then Some (u - 55)%N
    else None.

  (** The value of the longest run of hexadecimal digits at the head, [None]
      when there is no digit. *)
Fixpoint digits_value (seen : option N) (us : list N) : option N :=
    match us with
    | u :: r =>
        match digit_value u with
        | Some d => digits_value (Some (16 * default 0%N seen + d)%N) r
        | None => seen
        end
    | [] => seen
    end.

  (** [parseInt(text, 16)], [None] for NaN: white space, a sign, the prefix
      [0x], then the digits.  (The value is exact as long as a double holds
      it; it is used on one or two characters.) *)
Definition parseInt16 (us : list N) : option Z :=
    let s := trim_start us in
    let '(negative, s) :=
      match s with
      | 45%N :: r => (true, r)
      | 43%N :: r => (false, r)
      | _ => (false, s)
      end in
    let s :=
      match s with
      | 48%N :: x :: r => if ((x =? 120) || (x =? 88))%N then r else s
      | _ => s
      end in
    match digits_value None s with
    | None => None
    | Some v => Some (if negative then - Z.of_N v else Z.of_N v)
    end.

  (** [text.match(/.{1,2}/g)]: the characters two by two, a line terminator
      ending a piece and belonging to none; no piece at all ([[]]) stands for
      [null]. *)
Fixpoint match_pairs (us : list N) : list (list N) :=
    match us with
    | [] => []
    | a :: r =>
        if line_terminator a then match_pairs r
        else
          match r with
          | [] => [[a]]
          | b :: r' =>
              if line_terminator b then [a] :: match_pairs r'
              else [a; b] :: match_pairs r'
          end
    end.

  (** An element of [new Uint8Array(numbers)]: the number modulo 256, and 0
      for NaN. *)
Definition ToUint8 (v : option Z) : N :=
    match v with
    | None => 0%N
    | Some z => Z.to_N (z mod 256)
    end.

  (** [new Uint8Array(hex.match(/.{1,2}/g)!.map(byte => parseInt(byte, 16)))]:
      [None] for the TypeError of [null.map] when nothing matches. *)
Definition bytes (hex : string) : option (list N) :=
    match match_pairs (code_units hex) with
    | [] => None
    | pieces => Some (map (fun piece => ToUint8 (parseInt16 piece)) pieces)
    end.

End Hex.

Module Signer.

  (** [{ ...contract.provenance, signature }] with the empty string for
      [signature]. *)
Definition unsigned (p : ProvenanceBlock) : ProvenanceBlock :=
    {| timestamp := timestamp p; tenant_id := tenant_id p; signature := EmptyString |}.

  (** [contractCopy]: the contract with the signature blanked. *)
Definition contractCopy (contract : TranslationContract) : TranslationContract :=
    {| id := id contract;
       workflow := workflow contract;
       flow := flow contract;
       source_language := source_language contract;
       target_language := target_language contract;
       source_text := source_text contract;
       translated_text := translated_text contract;
       translator := translator contract;
       method := method contract;
       confidence := confidence contract;
       provenance := unsigned (provenance contract) |}.

  (** [canonicalizeContract(contract)]:
      [JSON.stringify(contractCopy, Object.keys(contractCopy).sort())] *)
Definition canonicalizeContract (contract : TranslationContract) : string :=
    let copy := Contract.contract_json (contractCopy contract) in
    stringify_only (sort (Object_keys copy)) copy.

Section Crypto.

    (** [crypto.subtle.sign({ name: "Ed25519" }, privateKey, data)], for the
        private key at hand: the bytes of the signature. *)
Variable sign : list N -> list N.

    (** [signContract(contract, privateKey)] *)
Definition signContract (contract : TranslationContract) : string :=
      let canonical := canonicalizeContract contract in
      let data := encode canonical in
      let signature := sign data in
      "ed25519:" +:+ hex_join signature.

End Crypto.

Section Verification.

    (** [crypto.subtle.verify({ name: "Ed25519" }, publicKey, signature,
        data)] for the public key at hand; a call that throws counts as
        [false], which is what the [catch] of [verifyContract] returns. *)
Variable verify : list N -> list N -> bool.

    (** [verifyContract(contract, publicKey)] *)
Definition verifyContract (contract : TranslationContract) : bool :=
      let signatureStr := signature (provenance contract) in
      if negb (startsWith "ed25519:" signatureStr) then false
      else
        let signatureHex := replace_first "ed25519:" EmptyString signatureStr in
        match Hex.bytes signatureHex with
        | None => false
        | Some signatureBytes =>
            let canonical := canonicalizeContract contract in
            let data := encode canonical in
            verify signatureBytes data
        end.

End Verification.

Inductive KeyFormat := pkcs8 | spki.

Section Keys.

    (** A key of the Web Crypto API, with [crypto.subtle.exportKey(format,
        key)] as the bytes it gives or the error it throws, and
        [crypto.subtle.importKey(format, bytes, ...)]. *)
Variable CryptoKey : Type.
Variable exportKey : KeyFormat -> CryptoKey -> JsError + list N.
Variable importKey : KeyFormat -> list N -> JsError + CryptoKey.

Definition exportPrivateKey (privateKey : CryptoKey) : JsError + string :=
      match exportKey pkcs8 privateKey with
      | inr exported => inr (hex_join exported)
      | inl error => inl error
      end.

Definition exportPublicKey (publicKey : CryptoKey) : JsError + string :=
      match exportKey spki publicKey with
      | inr exported => inr (hex_join exported)
      | inl error => inl error
      end.

    (** [None] stands for the TypeError on a text in which nothing
        matches. *)
Definition importPrivateKey (hexKey : string) : option (JsError + CryptoKey) :=
      match Hex.bytes hexKey with
      | None => None
      | Some bytes => Some (importKey pkcs8 bytes)
      end.

Definition importPublicKey (hexKey : string) : option (JsError + CryptoKey) :=
      match Hex.bytes hexKey with
      | None => None
      | Some bytes => Some (importKey spki bytes)
      end.

End Keys.

End Signer.

(** A value of a [Uint8Array]. *)
Definition is_byte (b : N) : Prop := (b < 256)%N.

(** The two hexadecimal digits of a byte, as code units. *)
Definition hex_pair (b : N) : list N :=
  [code (hex_digit (b / 16)); code (hex_digit (b mod 16))].

(** The contract [c] with another provenance block. *)
Definition with_provenance (c : TranslationContract) (p : ProvenanceBlock)
  : TranslationContract :=
  {| id := id c; workflow := workflow c; flow := flow c;
     source_language := source_language c; target_language := target_language c;
     source_text := source_text c; translated_text := translated_text c;
     translator := translator c; method := method c; confidence := confidence c;
     provenance := p |}.

(** The object whose plain serialization is the canonical text of [c]: the
    fields in the order of their names, and nothing inside the provenance. *)
Definition canonical_json (c : TranslationContract) : json :=
  JObj ([ ("confidence", JNum (confidence c));
          ("flow", JStr (flow c));
          ("id", JStr (id c));
          ("method", JStr (method_string (method c)));
          ("provenance", JObj []);
          ("source_language", JStr (source_language c));
          ("source_text", JStr (source_text c));
          ("target_language", JStr (target_language c));
          ("translated_text", JStr (translated_text c)) ]
        ++ optional "translator" (translator c)
        ++ [ ("workflow", JStr (workflow c)) ]).

(* ===================================================================== *)
(** * 19. providers/openai.ts                                             *)
(* ===================================================================== *)

Module OpenAI.

Record OpenAIProviderConfig := {
    apiKey : string;
    baseUrl : option string;     (* default https://api.openai.com *)
    model : option string        (* default gpt-4o-mini *)
  }.

Record OpenAIProvider := {
    self_apiKey : string;
    self_baseUrl : string;
    self_model : string
  }.

  (** [new OpenAIProvider(config)] *)
Definition new (config : OpenAIProviderConfig) : OpenAIProvider :=
    {| self_apiKey := apiKey config;
       self_baseUrl := default "https://api.openai.com" (baseUrl config);
       self_model := default "gpt-4o-mini" (model config) |}.

  (** What [fetch] is called with, and what it resolves to: the status line
      and the text of the body. *)
Record FetchRequest := {
    url : string;
    http_method : string;
    request_headers : list (string * string);
    request_body : string
  }.

Record FetchResponse := {
    http_status : Z;
    statusText : string;
    response_text : string
  }.

  (** [res.ok] *)
Definition ok (res : FetchResponse) : bool :=
    (200 <=? http_status res) && (http_status res <=? 299).

  (** What [translate] comes to: an answer, an error thrown, or the
      TypeError of a response that has not the expected shape. *)
Inductive outcome :=
  | Returned (result : TranslateResult)
  | Threw (error : JsError)
  | ThrewTypeError.

  (** [lines.join("\n")] *)
Fixpoint join_lines (lines : list string) : string :=
    match lines with
    | [] => EmptyString
    | [l] => l
    | l :: r => l +:+ String LF (join_lines r)
    end.

Definition prompt (params : TranslateParams) : string :=
    join_lines
      [ "You are a precise translation engine.";
        "Source language: " +:+ tp_source_language params;
        "Target language: " +:+ tp_target_language params;
        EmptyString;
        "Text to translate:";
        tp_text params;
        EmptyString;
        "Return ONLY the translated text, with no explanations." ].

Definition request (self : OpenAIProvider) (params : TranslateParams) : FetchRequest :=
    {| url := self_baseUrl self +:+ "/v1/chat/completions";
       http_method := "POST";
       request_headers :=
         [ ("Authorization", "Bearer " +:+ self_apiKey self);
           ("Content-Type", "application/json") ];
       request_body :=
         stringify
           (JObj [ ("model", JStr (self_model self));
                   ("messages",
                    JArr [ JObj [ ("role", JStr "user");
                                  ("content", JStr (prompt params)) ] ]) ]) |}.

  (** [v.name] on a value that is neither [null] nor [undefined], for a name
      that no prototype has: a member of an object, nothing on anything
      else. *)
Definition member (name : string) (v : json) : option json :=
    match v with
    | JObj members => lookup name members
    | _ => None
    end.

  (** The first character of a non-empty string, as a string: its first
      UTF-16 code unit. *)
Definition first_character (s : string) : string :=
    match code_units s with
    | u :: _ => string_of_list_ascii (List.rev (utf8_rev u))
    | [] => EmptyString
    end.

  (** [v[0]] on a value that is neither [null] nor [undefined]. *)
Definition first (v : json) : option json :=
    match v with
    | JArr (x :: _) => Some x
    | JObj members => lookup "0" members
    | JStr s => if is_empty s then None else Some (JStr (first_character s))
    | _ => None
    end.

  (** [v?.step]: nothing of [undefined] and [null]. *)
Definition chain (step : json -> option json) (v : option json) : option json :=
    match v with
    | None | Some JNull => None
    | Some x => step x
    end.

  (** [data.choices?.[0]?.message?.content?.trim?.()], or the empty string
      when that is nullish, for [data] that is not [null]: the text of a
      string trimmed; the empty string where the
      chain ends on [undefined] or [null]; [None] for the TypeError of
      calling a [trim] that is not a function. *)
Definition content_text (data : json) : option string :=
    let content :=
      chain (member "content") (chain (member "message") (chain first (member "choices" data)))
    in
    match content with
    | None | Some JNull => Some EmptyString
    | Some (JStr s) => Some (trim s)
    | Some (JObj members) =>
        match lookup "trim" members with
        | None | Some JNull => Some EmptyString
        | Some _ => None
        end
    | Some _ => Some EmptyString
    end.

Section Network.

    (** [fetch(url, init)]: the response, or the rejection. *)
Variable fetch : FetchRequest -> JsError + FetchResponse.

    (** The error that [res.json()] throws for a body that is not JSON. *)
Variable json_error : string -> JsError.

    (** [translate(params)] *)
Definition translate (self : OpenAIProvider) (params : TranslateParams) : outcome :=
      match fetch (request self params) with
      | inl rejection => Threw rejection
      | inr res =>
          if negb (ok res) then
            let errText := response_text res in
            Threw (new_Error ("OpenAI error: " +:+ toString (of_Z (http_status res))
                              +:+ " " +:+ statusText res +:+ " - " +:+ errText))
          else
            match parse (response_text res) with
            | None => Threw (json_error (response_text res))
            | Some JNull => ThrewTypeError
            | Some data =>
                match content_text data with
                | None => ThrewTypeError
                | Some translatedText =>
                    if is_empty translatedText then
                      Threw (new_Error "Empty translation from OpenAI")
                    else
                      Returned {| translatedText := translatedText;
                                  result_confidence := of_decimal 9 (-1) |}
                end
            end
      end.

End Network.

End OpenAI.

Module OpenAIFixtures.

  (** A response of the chat completions API, and a network that always
      gives it. *)
Definition completion (content : string) : json :=
    JObj [ ("id", JStr "chatcmpl-1");
           ("choices",
            JArr [ JObj [ ("index", JNum Zero);
                          ("message", JObj [ ("role", JStr "assistant");
                                             ("content", JStr content) ]) ] ]) ].

Definition fetch (status : Z) (text : string)
    : OpenAI.FetchRequest -> JsError + OpenAI.FetchResponse :=
    fun _ => inr {| OpenAI.http_status := status; OpenAI.statusText := "OK";
                    OpenAI.response_text := text |}.

Definition config : OpenAI.OpenAIProviderConfig :=
    {| OpenAI.apiKey := "sk-test"; OpenAI.baseUrl := None; OpenAI.model := None |}.

Definition params : TranslateParams :=
    {| tp_source_language := "en"; tp_target_language := "pt"; tp_text := "Hello world" |}.

End OpenAIFixtures.

(* ===================================================================== *)
(** * 20. config.ts and the provider factory of providers/types.ts        *)
(* ===================================================================== *)

Module Config.

Inductive LLMProvider := anthropic | openai | mock.

  (** [port] is a JavaScript number: an integer, or [None] for the NaN that
      [parseInt] gives. *)
Record MinitradutorConfig := {
    llmProvider : LLMProvider;
    anthropicApiKey : option string;
    openaiApiKey : option string;
    enableSigning : bool;
    ed25519PrivateKey : option string;
    ed25519PublicKey : option string;
    ledgerPath : string;
    port : option Z;
    host : string;
    defaultTenantId : string;
    defaultWorkflow : string;
    defaultFlow : string
  }.

Definition DEFAULT_CONFIG : MinitradutorConfig :=
    {| llmProvider := mock;
       anthropicApiKey := None;
       openaiApiKey := None;
       enableSigning := false;
       ed25519PrivateKey := None;
       ed25519PublicKey := None;
       ledgerPath := "./output/contracts.ndjson";
       port := Some 8000;
       host := "0.0.0.0";
       defaultTenantId := "default";
       defaultWorkflow := "translation";
       defaultFlow := "default" |}.

  (** The process: its environment variables, the module's [configInstance]
      and what [console.warn] has printed, latest first. *)
Record Process := {
    env : gmap string string;
    configInstance : option MinitradutorConfig;
    warnings : list string
  }.

Definition Deno_env_get (name : string) (p : Process) : option string :=
    env p !! name.

Definition decimal_value (u : N) : option N :=
    if ((48 <=? u) && (u <=? 57))%N then Some (u - 48)%N else None.

  (** The value of the longest run of decimal digits at the head, [None]
      when there is no digit. *)
Fixpoint decimal_digits (seen : option N) (us : list N) : option N :=
    match us with
    | u :: r =>
        match decimal_value u with
        | Some d => decimal_digits (Some (10 * default 0%N seen + d)%N) r
        | None => seen
        end
    | [] => seen
    end.

Definition max_exact : Z := 2 ^ 53.

  (** [parseInt(text, 10)]: white space, a sign, then the digits; the inner
      [None] is NaN.  The integer that the digits spell is the result as
      long as it is at most 2^53, where every integer is a double and prints
      as its digits; a longer number is rounded by the engine and is outside
      this model (the outer [None]). *)
Definition parseInt10 (text : string) : option (option Z) :=
    let s := Hex.trim_start (code_units text) in
    let '(negative, s) :=
      match s with
      | 45%N :: r => (true, r)
      | 43%N :: r => (false, r)
      | _ => (false, s)
      end in
    match decimal_digits None s with
    | None => Some None
    | Some v =>
        if Z.of_N v <=? max_exact
        then Some (Some (if negative then - Z.of_N v else Z.of_N v))
        else None
    end.

  (** [const v = Deno.env.get(name); if (v) { field = v; }] *)
Definition or_default (v : option string) (d : string) : string :=
    match v with
    | Some s => if is_empty s then d else s
    | None => d
    end.

Definition provider_named (v : option string) : LLMProvider :=
    match v with
    | Some s =>
        if String.eqb s "anthropic" then anthropic
        else if String.eqb s "openai" then openai
        else llmProvider DEFAULT_CONFIG
    | None => llmProvider DEFAULT_CONFIG
    end.

Definition is_true (v : option string) : bool :=
    match v with
    | Some s => String.eqb s "true"
    | None => false
    end.

Definition loadConfig (p : Process) : option MinitradutorConfig :=
    port ←
      match Deno_env_get "PORT" p with
      | Some text => if is_empty text then Some (port DEFAULT_CONFIG) else parseInt10 text
      | None => Some (port DEFAULT_CONFIG)
      end;
    Some
      {| llmProvider := provider_named (Deno_env_get "LLM_PROVIDER" p);
         anthropicApiKey := Deno_env_get "ANTHROPIC_API_KEY" p;
         openaiApiKey := Deno_env_get "OPENAI_API_KEY" p;
         enableSigning := is_true (Deno_env_get "ENABLE_SIGNING" p);
         ed25519PrivateKey := Deno_env_get "ED25519_PRIVATE_KEY" p;
         ed25519PublicKey := Deno_env_get "ED25519_PUBLIC_KEY" p;
         ledgerPath := or_default (Deno_env_get "LEDGER_PATH" p) (ledgerPath DEFAULT_CONFIG);
         port := port;
         host := or_default (Deno_env_get "HOST" p) (host DEFAULT_CONFIG);
         defaultTenantId :=
           or_default (Deno_env_get "DEFAULT_TENANT_ID" p) (defaultTenantId DEFAULT_CONFIG);
         defaultWorkflow :=
           or_default (Deno_env_get "DEFAULT_WORKFLOW" p) (defaultWorkflow DEFAULT_CONFIG);
         defaultFlow := or_default (Deno_env_get "DEFAULT_FLOW" p) (defaultFlow DEFAULT_CONFIG) |}.

Definition set_instance (c : MinitradutorConfig) (p : Process) : Process :=
    {| env := env p; configInstance := Some c; warnings := warnings p |}.

Definition getConfig (p : Process) : option (MinitradutorConfig * Process) :=
    match configInstance p with
    | Some c => Some (c, p)
    | None => c ← loadConfig p; Some (c, set_instance c p)
    end.

Definition reloadConfig (p : Process) : option (MinitradutorConfig * Process) :=
    c ← loadConfig p; Some (c, set_instance c p).

Definition console_warn (text : string) (p : Process) : Process :=
    {| env := env p; configInstance := configInstance p; warnings := text :: warnings p |}.

Definition anthropic_key_required : string :=
    "ANTHROPIC_API_KEY is required when LLM_PROVIDER=anthropic. "
    +:+ "Set the environment variable or change the provider.".

Definition openai_key_required : string :=
    "OPENAI_API_KEY is required when LLM_PROVIDER=openai. "
    +:+ "Set the environment variable or change the provider.".

Definition signing_warning : string :=
    "WARNING: Signing is enabled but ED25519_PRIVATE_KEY is not set. "
    +:+ "Signatures will be empty.".

Definition is_anthropic (l : LLMProvider) : bool :=
    match l with anthropic => true | _ => false end.

Definition is_openai (l : LLMProvider) : bool :=
    match l with openai => true | _ => false end.

  (** [config.port < 1 || config.port > 65535]: false on NaN. *)
Definition port_out_of_range (port : option Z) : bool :=
    match port with
    | Some n => (n <? 1) || (n >? 65535)
    | None => false
    end.

Definition port_text (port : option Z) : string :=
    match port with
    | Some n => toString (of_Z n)
    | None => "NaN"
    end.

Definition validateConfig (p : Process) : option ((JsError + unit) * Process) :=
    '(config, p) ← getConfig p;
    if is_anthropic (llmProvider config) && falsy (anthropicApiKey config) then
      Some (inl (new_Error anthropic_key_required), p)
    else if is_openai (llmProvider config) && falsy (openaiApiKey config) then
      Some (inl (new_Error openai_key_required), p)
    else
      let p :=
        if enableSigning config && falsy (ed25519PrivateKey config)
        then console_warn signing_warning p else p in
      if port_out_of_range (port config) then
        Some (inl (new_Error ("Invalid port: " +:+ port_text (port config)
                              +:+ ". Must be between 1 and 65535.")), p)
      else Some (inr tt, p).

End Config.

Module LegacyProviders.

Record TranslationParams := {
    source_language : string;
    target_language : string;
    source_text : string
  }.

Record TranslationResult := {
    translated_text : string;
    confidence : number
  }.

  (** The three classes of providers/types.ts; the first two hold their
      [apiKey]. *)
Inductive Provider :=
  | AnthropicProvider (apiKey : string)
  | OpenAIProvider (apiKey : string)
  | MockProvider.

Definition createProvider (p : Config.Process)
    : option ((JsError + Provider) * Config.Process) :=
    '(config, p) ← Config.getConfig p;
    Some
      (match Config.llmProvider config with
       | Config.anthropic =>
           match Config.anthropicApiKey config with
           | Some key =>
               if is_empty key then inl (new_Error "ANTHROPIC_API_KEY not configured")
               else inr (AnthropicProvider key)
           | None => inl (new_Error "ANTHROPIC_API_KEY not configured")
           end
       | Config.openai =>
           match Config.openaiApiKey config with
           | Some key =>
               if is_empty key then inl (new_Error "OPENAI_API_KEY not configured")
               else inr (OpenAIProvider key)
           | None => inl (new_Error "OPENAI_API_KEY not configured")
           end
       | Config.mock => inr MockProvider
       end, p).

  (** [MockProvider.translate] *)
Definition mock_translate (params : TranslationParams) : TranslationResult :=
    {| translated_text :=
         "[MOCK TRANSLATION from " +:+ source_language params +:+ " to "
         +:+ target_language params +:+ "]: " +:+ source_text params;
       confidence := of_decimal 95 (-2) |}.

  (** [translateText], as far as the provider is the mock one: the two
      others call the network and are not modelled ([None]). *)
Definition translateText (params : TranslationParams) (p : Config.Process)
    : option ((JsError + TranslationResult) * Config.Process) :=
    '(made, p) ← createProvider p;
    match made with
    | inl e => Some (inl e, p)
    | inr MockProvider => Some (inr (mock_translate params), p)
    | inr _ => None
    end.

End LegacyProviders.

(** A process that has not read its configuration yet. *)
Definition fresh_process (variables : gmap string string) : Config.Process :=
  {| Config.env := variables; Config.configInstance := None; Config.warnings := [] |}.

(** The same process with other environment variables. *)
Definition with_env (variables : gmap string string) (p : Config.Process) : Config.Process :=
  {| Config.env := variables; Config.configInstance := Config.configInstance p;
     Config.warnings := Config.warnings p |}.

(** A text that [parseInt] reads no number from: after the white space and
    one sign, no digit. *)
Definition no_number (text : string) : bool :=
  match Hex.trim_start (code_units text) with
  | [] => true
  | u :: r =>
      if ((u =? 45) || (u =? 43))%N then
        match r with
        | [] => true
        | d :: _ => negb (bool_decide (is_Some (Config.decimal_value d)))
        end
      else negb (bool_decide (is_Some (Config.decimal_value u)))
  end.

Module ConfigFixtures.

Definition variables : gmap string string :=
    {[ "LLM_PROVIDER" := "openai"; "OPENAI_API_KEY" := "sk-1" ]}.

  (** [LLM_PROVIDER] is compared as it is written. *)
Definition misspelt : gmap string string :=
    {[ "LLM_PROVIDER" := "OpenAI"; "OPENAI_API_KEY" := "sk-1" ]}.

Definition loaded (variables : gmap string string) : Config.MinitradutorConfig :=
    default Config.DEFAULT_CONFIG (Config.loadConfig (fresh_process variables)).

Definition cached (variables : gmap string string) : Config.Process :=
    Config.set_instance (loaded variables) (fresh_process variables).

Definition params : LegacyProviders.TranslationParams :=
    {| LegacyProviders.source_language := "en"; LegacyProviders.target_language := "pt";
       LegacyProviders.source_text := "Hello" |}.

End ConfigFixtures.

(* ===================================================================== *)
(** * 21. Properties                                                      *)
(* ===================================================================== *)

#[local] Arguments String.append !_ _ / : simpl nomatch.

(** ** Strings *)

Lemma append_cons (c : ascii) (a b : string) : String c a +:+ b = String c (a +:+ b).
Proof. reflexivity. Qed.

Lemma append_nil_l (s : string) : EmptyString +:+ s = s.
Proof. reflexivity. Qed.

Lemma append_nil_r (s : string) : s +:+ EmptyString = s.
Proof. induction s as [|c s IH]; simpl; [reflexivity | by f_equal]. Qed.

Lemma append_assoc (a b c : string) : (a +:+ b) +:+ c = a +:+ (b +:+ c).
Proof. induction a as [|x a IH]; simpl; [reflexivity | by f_equal]. Qed.

Lemma length_append (a b : string) :
  String.length (a +:+ b) = (String.length a + String.length b)%nat.
Proof. induction a as [|x a IH]; simpl; [reflexivity | by f_equal]. Qed.

Lemma rev_onto_append (s acc : string) : rev_onto s acc = JsString.rev s +:+ acc.
Proof.
  unfold JsString.rev. revert acc.
  induction s as [|c s IH]; intros acc; simpl; [reflexivity|].
  rewrite IH, (IH (String c EmptyString)), append_assoc. reflexivity.
Qed.

Lemma rev_append (a b : string) :
  JsString.rev (a +:+ b) = JsString.rev b +:+ JsString.rev a.
Proof.
  induction a as [|x a IH]; simpl.
  - by rewrite append_nil_r.
  - unfold JsString.rev at 1 3. simpl. rewrite !rev_onto_append, IH, append_assoc.
    reflexivity.
Qed.

Lemma rev_involutive (s : string) : JsString.rev (JsString.rev s) = s.
Proof.
  induction s as [|c s IH]; [reflexivity|].
  unfold JsString.rev at 2. simpl. rewrite rev_onto_append, rev_append, IH.
  reflexivity.
Qed.

Lemma string_forall_append P (a b : string) :
  string_forall P (a +:+ b) = string_forall P a && string_forall P b.
Proof.
  induction a as [|x a IH]; simpl; [reflexivity | by rewrite IH, andb_assoc].
Qed.

Lemma string_forall_impl (P Q : ascii -> bool) (s : string) :
  (forall c, P c = true -> Q c = true) ->
  string_forall P s = true -> string_forall Q s = true.
Proof.
  intros HPQ. induction s as [|c s IH]; simpl; [reflexivity|].
  intros [Hc Hs]%andb_true_iff. by rewrite (HPQ c Hc), (IH Hs).
Qed.

(** ** Lines *)

Lemma unlines_join (ls : list string) :
  ls <> [] -> unlines ls = join_lines ls +:+ String LF EmptyString.
Proof.
  induction ls as [|l [|l2 r] IH]; intros H; [done | reflexivity |].
  change (l +:+ String LF (unlines (l2 :: r))
          = (l +:+ String LF (join_lines (l2 :: r))) +:+ String LF EmptyString).
  rewrite IH by done. rewrite append_assoc. reflexivity.
Qed.

Lemma unlines_app (a b : list string) : unlines (a ++ b) = unlines a +:+ unlines b.
Proof.
  induction a as [|l a IH]; [reflexivity|].
  simpl. rewrite IH, append_assoc. reflexivity.
Qed.

Lemma split_acc_line (l rest cur : string) :
  string_forall not_LF l = true ->
  split_acc LF (l +:+ rest) cur = split_acc LF rest (rev_onto l cur).
Proof.
  revert cur. induction l as [|c l IH]; intros cur H; simpl in *; [reflexivity|].
  apply andb_true_iff in H as [Hc Hl]. unfold not_LF in Hc.
  apply negb_true_iff in Hc. rewrite Hc. by apply IH.
Qed.

Lemma split_acc_last (l cur : string) :
  string_forall not_LF l = true ->
  split_acc LF l cur = [JsString.rev (rev_onto l cur)].
Proof.
  intros H. rewrite <- (append_nil_r l) at 1. by rewrite split_acc_line.
Qed.

Lemma split_join_lines (ls : list string) :
  ls <> [] ->
  Forall (fun l => string_forall not_LF l = true) ls ->
  split LF (join_lines ls) = ls.
Proof.
  unfold split.
  induction ls as [|l [|l2 r] IH]; intros Hne H; [done | |].
  - inversion H; subst. simpl. rewrite split_acc_last by done.
    by rewrite rev_onto_append, append_nil_r, rev_involutive.
  - inversion H as [|? ? Hl Hr]; subst.
    change (split_acc LF (l +:+ String LF (join_lines (l2 :: r))) EmptyString
            = l :: l2 :: r).
    rewrite split_acc_line by done.
    change (split_acc LF (String LF ?s) ?c)
      with (JsString.rev c :: split_acc LF s EmptyString).
    rewrite rev_onto_append, append_nil_r, rev_involutive.
    f_equal. by apply IH.
Qed.

(** ** Trimming a ledger *)

Lemma trimStart_lbrace (r : string) :
  trimStart (String lbrace r) = String lbrace r.
Proof. destruct r as [|b [|c r]]; reflexivity. Qed.

Lemma trimStart_rev_rbrace (r : string) :
  trimStart_rev (String rbrace r) = String rbrace r.
Proof.
  destruct r as [|b [|c r]]; try reflexivity.
  - simpl. unfold ws2. by destruct (code b =? 194)%N.
  - simpl. unfold ws2, ws3.
    repeat match goal with
           | |- context [(code ?x =? ?n)%N] => destruct (code x =? n)%N; simpl
           | |- context [(?n <=? code ?x)%N] => destruct (n <=? code x)%N; simpl
           | |- context [(code ?x <=? ?n)%N] => destruct (code x <=? n)%N; simpl
           end; reflexivity.
Qed.

Lemma trim_braces (r s : string) :
  String lbrace r = s +:+ String rbrace (String LF EmptyString) ->
  trim (String lbrace r) = s +:+ String rbrace EmptyString.
Proof.
  intros H. unfold trim, trimEnd. rewrite trimStart_lbrace, H.
  rewrite rev_append.
  change (JsString.rev (String rbrace (String LF EmptyString)))
    with (String LF (String rbrace EmptyString)).
  change (String LF (String rbrace EmptyString) +:+ JsString.rev s)
    with (String LF (String rbrace (JsString.rev s))).
  change (trimStart_rev (String LF ?x)) with (trimStart_rev x).
  rewrite trimStart_rev_rbrace.
  change (String rbrace (JsString.rev s))
    with (String rbrace EmptyString +:+ JsString.rev s).
  rewrite rev_append, rev_involutive. reflexivity.
Qed.

Lemma trim_empty : trim EmptyString = EmptyString.
Proof. reflexivity. Qed.

(** ** Decimal digits *)

Lemma digits_val_app (a : N) (x y : list N) :
  digits_val a (x ++ y) = digits_val (digits_val a x) y.
Proof. revert a. induction x as [|d x IH]; intros a; simpl; [reflexivity | apply IH]. Qed.

Lemma digits_val_shift (a : N) (ds : list N) :
  digits_val a ds = (a * 10 ^ N.of_nat (length ds) + digits_val 0 ds)%N.
Proof.
  revert a. induction ds as [|d ds IH]; intros a.
  - simpl. lia.
  - cbn [digits_val length]. rewrite (IH (10 * a + d)%N), (IH (10 * 0 + d)%N).
    rewrite Nat2N.inj_succ, N.pow_succ_r'. lia.
Qed.

Lemma digits_val_zeros (a : N) (j : nat) :
  digits_val a (repeat 0%N j) = (a * 10 ^ N.of_nat j)%N.
Proof.
  revert a. induction j as [|j IH]; intros a.
  - simpl. lia.
  - cbn [repeat digits_val]. rewrite IH, Nat2N.inj_succ, N.pow_succ_r'. lia.
Qed.

Lemma digits_acc_spec (fuel : nat) (n : N) (acc : list N) :
  (n < 2 ^ N.of_nat fuel)%N ->
  exists ds,
    digits_acc fuel n acc = ds ++ acc
    /\ ds <> []
    /\ Forall is_digit ds
    /\ digits_val 0 ds = n
    /\ (n <> 0%N -> hd 0%N ds <> 0%N).
Proof.
  revert n acc. induction fuel as [|f IH]; intros n acc Hn.
  - assert (n = 0%N) as -> by (simpl in Hn; lia).
    exists [0%N]. split; [reflexivity|]. split; [done|]. split; [|split; [reflexivity|done]].
    constructor; [unfold is_digit; lia | constructor].
  - cbn [digits_acc]. destruct (N.ltb_spec n 10) as [Hlt|Hge].
    + exists [n]. split; [reflexivity|]. split; [done|].
      split; [constructor; [exact Hlt | constructor]|].
      split; [simpl; lia | intros H; exact H].
    + assert (n / 10 < 2 ^ N.of_nat f)%N as Hq.
      { rewrite Nat2N.inj_succ, N.pow_succ_r' in Hn.
        apply N.Div0.div_lt_upper_bound. lia. }
      destruct (IH (n / 10)%N ((n mod 10)%N :: acc) Hq) as (ds & E & Hne & Hall & Hval & Hhd).
      exists (ds ++ [(n mod 10)%N]). rewrite E, <- app_assoc.
      split; [reflexivity|]. split; [by destruct ds|]. split; [|split].
      * apply Forall_app. split; [exact Hall|].
        constructor; [|constructor]. unfold is_digit. apply N.mod_lt. lia.
      * rewrite digits_val_app, Hval. simpl.
        pose proof (N.div_mod n 10). lia.
      * intros _. destruct ds as [|d ds]; [done|]. simpl. apply Hhd.
        intros H0. apply N.div_small_iff in H0; lia.
Qed.

Lemma fuel_of_bound (n : N) : (n < 2 ^ N.of_nat (fuel_of n))%N.
Proof.
  unfold fuel_of. rewrite Nat2N.inj_succ, N2Nat.id.
  destruct n as [|p]; [reflexivity|].
  apply N.log2_spec. lia.
Qed.

Lemma digits_spec (n : N) :
  exists d ds,
    digits n = d :: ds
    /\ Forall is_digit (d :: ds)
    /\ digits_val 0 (d :: ds) = n
    /\ (n <> 0%N -> d <> 0%N).
Proof.
  destruct (digits_acc_spec (fuel_of n) n [] (fuel_of_bound n))
    as (ds & E & Hne & Hall & Hval & Hhd).
  rewrite app_nil_r in E. destruct ds as [|d ds]; [done|].
  exists d, ds. unfold digits. by rewrite E.
Qed.

(** ** Canonical form *)

Lemma strip_zeros_pow (fuel : nat) (m : N) (j : nat) (e : Z) :
  (m mod 10 <> 0)%N -> (j <= fuel)%nat ->
  strip_zeros fuel (m * 10 ^ N.of_nat j) e = (m, e + Z.of_nat j).
Proof.
  intros Hm. revert fuel e. induction j as [|j IH]; intros fuel e Hj.
  - rewrite N.mul_1_r, Z.add_0_r. destruct fuel as [|f]; [reflexivity|].
    cbn [strip_zeros]. by apply N.eqb_neq in Hm as ->.
  - destruct fuel as [|f]; [lia|]. cbn [strip_zeros].
    rewrite Nat2N.inj_succ, N.pow_succ_r'.
    replace (m * (10 * 10 ^ N.of_nat j))%N with ((m * 10 ^ N.of_nat j) * 10)%N by lia.
    rewrite N.Div0.mod_mul, N.eqb_refl, N.div_mul by lia.
    rewrite IH by lia. f_equal. lia.
Qed.

Lemma fuel_of_pow (m : N) (j : nat) :
  (m <> 0)%N -> (j <= fuel_of (m * 10 ^ N.of_nat j))%nat.
Proof.
  intros Hm. unfold fuel_of.
  assert (2 ^ N.of_nat j <= m * 10 ^ N.of_nat j)%N as H.
  { transitivity (1 * 10 ^ N.of_nat j)%N.
    - rewrite N.mul_1_l. apply N.pow_le_mono_l. lia.
    - apply N.mul_le_mono_r. lia. }
  apply N.log2_le_mono in H. rewrite N.log2_pow2 in H by lia. lia.
Qed.

Lemma digit19_val_range (d : digit19) : (1 <= digit19_val d <= 9)%N.
Proof. destruct d; simpl; lia. Qed.

Lemma digit19_of_val (d : digit19) : digit19_of (digit19_val d) = d.
Proof. by destruct d. Qed.

Lemma mantissa_N_mod (lead : N) (last : digit19) :
  (mantissa_N lead last mod 10 = digit19_val last)%N.
Proof.
  unfold mantissa_N. pose proof (digit19_val_range last).
  rewrite N.add_comm, N.mul_comm, N.Div0.mod_add. apply N.mod_small. lia.
Qed.

Lemma mantissa_N_div (lead : N) (last : digit19) :
  (mantissa_N lead last / 10 = lead)%N.
Proof.
  unfold mantissa_N. pose proof (digit19_val_range last).
  rewrite N.add_comm, N.mul_comm, N.div_add by lia.
  rewrite N.div_small; lia.
Qed.

(** A mantissa followed by [j] zeros, at exponent [e], is the canonical
    number with the zeros moved into the exponent. *)
Lemma of_decimal_canonical (neg : bool) (lead : N) (last : digit19) (j : nat) (e : Z) :
  let m := Z.of_N (mantissa_N lead last * 10 ^ N.of_nat j) in
  of_decimal (if neg then - m else m) e = NonZero neg lead last (e + Z.of_nat j).
Proof.
  intros m. pose proof (digit19_val_range last) as Hr.
  assert (0 < mantissa_N lead last)%N as Hpos by (unfold mantissa_N; lia).
  assert (0 < m) as Hm.
  { unfold m. apply N2Z.inj_lt with (n := 0%N). apply N.mul_pos_pos; [exact Hpos|].
    apply N.neq_0_lt_0, N.pow_nonzero. lia. }
  unfold of_decimal.
  assert (((if neg then - m else m) =? 0) = false) as -> by (destruct neg; lia).
  assert (Z.abs_N (if neg then - m else m) = mantissa_N lead last * 10 ^ N.of_nat j)%N as ->.
  { destruct neg; [rewrite Zabs2N.inj_opp|]; unfold m; apply Zabs2N.id. }
  rewrite strip_zeros_pow.
  - rewrite mantissa_N_div, mantissa_N_mod, digit19_of_val.
    f_equal. destruct neg; lia.
  - rewrite mantissa_N_mod. lia.
  - apply fuel_of_pow. lia.
Qed.

(** ** Lexing a number literal *)

Lemma emit_nil o : emit [] o = o.
Proof. reflexivity. Qed.

Lemma emit_emit a b o : emit a (emit b o) = emit (a ++ b) o.
Proof.
  destruct a as [|x a]; [reflexivity|].
  destruct b as [|y b]; [by rewrite app_nil_r|].
  destruct o; simpl; [|reflexivity].
  by rewrite <- app_assoc.
Qed.

Lemma emit_Some a r : emit a (Some r) = Some (a ++ r).
Proof. by destruct a. Qed.

Lemma lex_cons st c s :
  lex st (String c s)
  = match lex_step st c with
    | None => None
    | Some (st', ts) => emit ts (lex st' s)
    end.
Proof. reflexivity. Qed.

Lemma digit_cases (d : N) :
  is_digit d ->
  d = 0%N \/ d = 1%N \/ d = 2%N \/ d = 3%N \/ d = 4%N \/ d = 5%N \/ d = 6%N
  \/ d = 7%N \/ d = 8%N \/ d = 9%N.
Proof. unfold is_digit. lia. Qed.

Ltac each_digit H :=
  apply digit_cases in H;
  repeat (destruct H as [H|H]); subst.

Lemma digit_val_char (d : N) : is_digit d -> digit_val (digit_char d) = Some d.
Proof. intros H. each_digit H; reflexivity. Qed.

Lemma code_digit_char (d : N) : is_digit d -> code (digit_char d) = (48 + d)%N.
Proof. intros H. each_digit H; reflexivity. Qed.

Lemma num_step_digit st a d :
  is_digit d ->
  num_step st a (digit_char d)
  = match st with
    | NSign => Some (LNum (if (d =? 0)%N then NZero else NInt) (add_int a d), [])
    | NInt => Some (LNum NInt (add_int a d), [])
    | NDot | NFrac => Some (LNum NFrac (add_frac a d), [])
    | NE | NESign | NExp => Some (LNum NExp (add_exp a d), [])
    | NZero => num_end NZero a (digit_char d)
    end.
Proof.
  intros H. unfold num_step. rewrite (digit_val_char d H). by destruct st.
Qed.

Lemma lex_int_digits ds s neg m f en ex :
  Forall is_digit ds ->
  lex (LNum NInt (Build_numacc neg m f en ex)) (digits_string ds +:+ s)
  = lex (LNum NInt (Build_numacc neg (digits_val m ds) f en ex)) s.
Proof.
  intros H. revert m. induction H as [|d ds Hd _ IH]; intros m; [reflexivity|].
  cbn [digits_string digits_val String.append]. rewrite lex_cons.
  cbn [lex_step]. rewrite (num_step_digit NInt _ d Hd), ?emit_nil. apply IH.
Qed.

Lemma lex_frac_digits ds s neg m f en ex :
  Forall is_digit ds ->
  lex (LNum NFrac (Build_numacc neg m f en ex)) (digits_string ds +:+ s)
  = lex (LNum NFrac (Build_numacc neg (digits_val m ds) (f + Z.of_nat (length ds)) en ex)) s.
Proof.
  intros H. revert m f. induction H as [|d ds Hd _ IH]; intros m f.
  - simpl. by rewrite Z.add_0_r.
  - cbn [digits_string digits_val String.append length]. rewrite lex_cons.
    cbn [lex_step]. rewrite (num_step_digit NFrac _ d Hd), ?emit_nil.
    unfold add_frac. cbn [n_neg n_mant n_frac n_eneg n_exp]. rewrite IH.
    do 3 f_equal. lia.
Qed.

Lemma lex_exp_digits ds s neg m f en ex :
  Forall is_digit ds ->
  lex (LNum NExp (Build_numacc neg m f en ex)) (digits_string ds +:+ s)
  = lex (LNum NExp (Build_numacc neg m f en (digits_val ex ds))) s.
Proof.
  intros H. revert ex. induction H as [|d ds Hd _ IH]; intros ex; [reflexivity|].
  cbn [digits_string digits_val String.append]. rewrite lex_cons.
  cbn [lex_step]. rewrite (num_step_digit NExp _ d Hd), ?emit_nil. apply IH.
Qed.

(** A point and the fraction digits after it. *)
Lemma lex_fraction st d ds s neg m f en ex :
  st = NZero \/ st = NInt ->
  Forall is_digit (d :: ds) ->
  lex (LNum st (Build_numacc neg m f en ex)) (String "." (digits_string (d :: ds) +:+ s))
  = lex (LNum NFrac (Build_numacc neg (digits_val m (d :: ds))
                       (f + Z.of_nat (length (d :: ds))) en ex)) s.
Proof.
  intros Hst H. inversion H as [|? ? Hd Hds]; subst.
  rewrite lex_cons.
  assert (lex_step (LNum st (Build_numacc neg m f en ex)) "."
          = Some (LNum NDot (Build_numacc neg m f en ex), [])) as ->
    by (destruct Hst as [-> | ->]; reflexivity).
  rewrite ?emit_nil. cbn [digits_string String.append]. rewrite lex_cons.
  cbn [lex_step]. rewrite (num_step_digit NDot _ d Hd), ?emit_nil.
  unfold add_frac. cbn [n_neg n_mant n_frac n_eneg n_exp].
  rewrite lex_frac_digits by done. cbn [digits_val length].
  do 3 f_equal. lia.
Qed.

(** An exponent: e, a sign, digits. *)
Lemma lex_exponent st (eneg : bool) d ds s neg m f :
  st = NInt \/ st = NFrac ->
  Forall is_digit (d :: ds) ->
  lex (LNum st (Build_numacc neg m f false 0))
      (String "e" ((if eneg then "-" else "+") +:+ digits_string (d :: ds) +:+ s))
  = lex (LNum NExp (Build_numacc neg m f eneg (digits_val 0 (d :: ds)))) s.
Proof.
  intros Hst H. inversion H as [|? ? Hd Hds]; subst.
  rewrite lex_cons.
  assert (lex_step (LNum st (Build_numacc neg m f false 0)) "e"
          = Some (LNum NE (Build_numacc neg m f false 0), [])) as ->
    by (destruct Hst as [-> | ->]; reflexivity).
  rewrite ?emit_nil.
  assert (lex (LNum NE (Build_numacc neg m f false 0))
              ((if eneg then "-" else "+") +:+ digits_string (d :: ds) +:+ s)
          = lex (LNum NESign (Build_numacc neg m f eneg 0)) (digits_string (d :: ds) +:+ s))
    as ->.
  { destruct eneg; rewrite append_cons, append_nil_l, lex_cons;
      cbn [lex_step num_step]; simpl; by rewrite ?emit_nil. }
  cbn [digits_string String.append]. rewrite lex_cons.
  cbn [lex_step]. rewrite (num_step_digit NESign _ d Hd), ?emit_nil.
  unfold add_exp. cbn [n_neg n_mant n_frac n_eneg n_exp].
  by rewrite lex_exp_digits.
Qed.

(** The literal ends where a stop character, or nothing, follows. *)
Lemma lex_number_end st a s :
  num_accepting st = true ->
  number_stop s ->
  lex (LNum st a) s = emit [TNum (num_value a)] (lex LIdle s).
Proof.
  intros Hacc Hs. destruct s as [|c s].
  - simpl. by rewrite Hacc.
  - simpl in Hs. unfold stop_char in Hs.
    destruct (digit_val c) eqn:Hd; [discriminate|].
    apply negb_true_iff in Hs. apply orb_false_iff in Hs as [Hs He2].
    apply orb_false_iff in Hs as [Hdot He1].
    rewrite !lex_cons. cbn [lex_step].
    assert (num_step st a c = num_end st a c) as ->.
    { unfold num_step. rewrite Hd, Hdot, He1, He2. by destruct st. }
    unfold num_end. rewrite Hacc.
    destruct (idle_step c) as [[st' ts]|]; [|reflexivity].
    by rewrite emit_emit.
Qed.

Lemma lex_first_digit neg d s :
  is_digit d -> d <> 0%N ->
  lex LIdle (sign_text neg +:+ String (digit_char d) s)
  = lex (LNum NInt (Build_numacc neg d 0 false 0)) s.
Proof.
  intros H Hnz. each_digit H; try done; destruct neg; simpl; by rewrite ?emit_nil.
Qed.

Lemma lex_first_zero neg s :
  lex LIdle (sign_text neg +:+ String "0" s)
  = lex (LNum NZero (Build_numacc neg 0 0 false 0)) s.
Proof. destruct neg; simpl; by rewrite ?emit_nil. Qed.

Lemma Forall_is_digit_zeros (j : Z) : Forall is_digit (zeros j).
Proof.
  unfold zeros. induction (Z.to_nat j) as [|i IH]; simpl; constructor; [|exact IH].
  unfold is_digit. lia.
Qed.

Lemma num_value_canonical neg lead last (j : nat) (m : N) (f : Z) (en : bool) (ex : N) (e : Z) :
  m = (mantissa_N lead last * 10 ^ N.of_nat j)%N ->
  (if en then - Z.of_N ex else Z.of_N ex) - f + Z.of_nat j = e ->
  num_value (Build_numacc neg m f en ex) = NonZero neg lead last e.
Proof.
  intros -> <-. unfold num_value. cbn [n_neg n_mant n_frac n_eneg n_exp].
  apply of_decimal_canonical.
Qed.

Lemma digits_string_app (a b : list N) :
  digits_string (a ++ b) = digits_string a +:+ digits_string b.
Proof. induction a as [|d a IH]; simpl; [reflexivity | by rewrite IH]. Qed.

Lemma digits_string_cons (d : N) (ds : list N) :
  digits_string (d :: ds) = String (digit_char d) (digits_string ds).
Proof. reflexivity. Qed.

Ltac norm_text := rewrite ?append_assoc; repeat rewrite append_cons; rewrite ?append_nil_l.

(** Reading back what [Number::toString] wrote gives the number. *)
Lemma lex_toString (x : number) (s : string) :
  number_stop s ->
  lex LIdle (toString x +:+ s) = emit [TNum x] (lex LIdle s).
Proof.
  intros Hs. destruct x as [|neg lead last e].
  - change (toString Zero +:+ s) with (sign_text false +:+ String "0" s).
    by rewrite lex_first_zero, lex_number_end.
  - unfold toString. fold (mantissa_N lead last). fold (sign_text neg).
    destruct (digits_spec (mantissa_N lead last)) as (d & r & Eds & Hall & Hval & Hd).
    rewrite Eds. cbv zeta.
    assert (mantissa_N lead last <> 0%N) as HM
      by (unfold mantissa_N; pose proof (digit19_val_range last); lia).
    specialize (Hd HM).
    change (digits_val 0 (d :: r)) with (digits_val d r) in Hval.
    inversion Hall as [|? ? Hdd Hr]; subst.
    set (k := Z.of_nat (length (d :: r))).
    assert (k = 1 + Z.of_nat (length r)) as Hk by (unfold k; simpl; lia).
    set (n := k + e).
    destruct ((k <=? n) && (n <=? 21)) eqn:CA; [|destruct ((0 <? n) && (n <=? 21)) eqn:CB;
      [|destruct ((-6 <? n) && (n <=? 0)) eqn:CC]].
    + (* digits, then zeros *)
      apply andb_true_iff in CA as [CA1 CA2].
      rewrite <- app_comm_cons, digits_string_cons. norm_text.
      rewrite lex_first_digit by done.
      rewrite lex_int_digits by (apply Forall_app; split; [done | apply Forall_is_digit_zeros]).
      rewrite lex_number_end by done. do 3 f_equal.
      apply (num_value_canonical _ _ _ (Z.to_nat (n - k))).
      * rewrite digits_val_app, Hval. unfold zeros. apply digits_val_zeros.
      * lia.
    + (* integer digits, a point, fraction digits *)
      apply andb_true_iff in CB as [CB1 CB2].
      apply andb_false_iff in CA.
      assert (0 < n < k) as Hn by lia.
      destruct (Z.to_nat n) as [|n'] eqn:En; [lia|].
      assert (n' < length r)%nat as Hn' by lia.
      cbn [firstn skipn].
      destruct (skipn n' r) as [|f1 fr] eqn:Esk.
      { apply (f_equal (@length N)) in Esk. rewrite length_skipn in Esk. simpl in Esk. lia. }
      assert (Forall is_digit (firstn n' r)) as HF by by apply Forall_take.
      assert (Forall is_digit (f1 :: fr)) as HB by (rewrite <- Esk; by apply Forall_drop).
      rewrite (digits_string_cons d). norm_text.
      rewrite lex_first_digit by done.
      rewrite lex_int_digits by done.
      rewrite (lex_fraction NInt) by (done || by right).
      rewrite lex_number_end by done. do 3 f_equal.
      apply (num_value_canonical _ _ _ 0).
      * rewrite <- digits_val_app, <- Esk, firstn_skipn, Hval. simpl. lia.
      * rewrite <- Esk, length_skipn. simpl. lia.
    + (* zero, a point, zeros, digits *)
      apply andb_true_iff in CC as [CC1 CC2].
      destruct (zeros (- n) ++ d :: r) as [|z zs] eqn:Ez.
      { by destruct (zeros (- n)). }
      assert (Forall is_digit (z :: zs)) as HZ.
      { rewrite <- Ez. apply Forall_app. split; [apply Forall_is_digit_zeros | done]. }
      norm_text.
      rewrite lex_first_zero.
      rewrite (lex_fraction NZero) by (done || by left).
      rewrite lex_number_end by done. do 3 f_equal.
      apply (num_value_canonical _ _ _ 0).
      * rewrite <- Ez, digits_val_app. unfold zeros. rewrite digits_val_zeros.
        rewrite N.mul_0_l. change (digits_val 0 (d :: r)) with (digits_val d r).
        rewrite Hval. simpl. lia.
      * rewrite <- Ez, length_app. unfold zeros. rewrite repeat_length. simpl length. lia.
    + (* exponent notation *)
      apply andb_false_iff in CA. apply andb_false_iff in CB. apply andb_false_iff in CC.
      set (ex := n - 1).
      assert (ex <> 0) as Hex by lia.
      destruct (digits_spec (Z.abs_N ex)) as (x1 & xs & Ex & Hxall & Hxval & _).
      rewrite Ex.
      destruct r as [|r1 rs].
      * (* one digit *)
        rewrite (digits_string_cons d []). norm_text.
        rewrite lex_first_digit by done.
        rewrite (lex_exponent NInt (ex <? 0)) by (done || by left).
        rewrite lex_number_end by done. do 3 f_equal.
        apply (num_value_canonical _ _ _ 0).
        -- simpl in Hval. rewrite <- Hval. simpl. lia.
        -- rewrite Hxval. destruct (Z.ltb_spec ex 0); simpl in Hk; lia.
      * (* a digit, a point, digits *)
        rewrite (digits_string_cons d []). norm_text.
        rewrite lex_first_digit by done.
        rewrite (lex_fraction NInt) by (done || by right).
        rewrite (lex_exponent NFrac (ex <? 0)) by (done || by right).
        rewrite lex_number_end by done. do 3 f_equal.
        apply (num_value_canonical _ _ _ 0).
        -- rewrite Hval. simpl. lia.
        -- rewrite Hxval. destruct (Z.ltb_spec ex 0); simpl in Hk |- *; lia.
Qed.

(** ** Lexing a string literal *)

(** One character of the text: quoted by [stringify], read back by the
    lexer. *)
Lemma lex_quote_char (c : ascii) (acc t : string) :
  lex (LStr acc None) (quote_char c +:+ t) = lex (LStr (String c acc) None) t.
Proof. destruct c as [[] [] [] [] [] [] [] []]; reflexivity. Qed.

Lemma lex_quote_body (s acc t : string) :
  lex (LStr acc None) (quote_body s +:+ String dquote t)
  = emit [TStr (JsString.rev (rev_onto s acc))] (lex LIdle t).
Proof.
  revert acc. induction s as [|c s IH]; intros acc; [reflexivity|].
  cbn [quote_body rev_onto]. rewrite append_assoc, lex_quote_char. apply IH.
Qed.

Lemma lex_quote (s t : string) :
  lex LIdle (quote s +:+ t) = emit [TStr s] (lex LIdle t).
Proof.
  unfold quote. rewrite append_cons, append_assoc, append_cons, append_nil_l.
  change (lex LIdle (String dquote ?x)) with (lex (LStr EmptyString None) x).
  rewrite lex_quote_body. fold (JsString.rev s). by rewrite rev_involutive.
Qed.

(** ** Lexing what [stringify] wrote *)

Lemma number_stop_follows (r : list token) :
  follows_number r -> number_stop (tokens_text r).
Proof. destruct r as [|[] r]; simpl; try done. Qed.

Lemma lex_tokens (ts : list token) :
  separated ts -> lex LIdle (tokens_text ts) = Some ts.
Proof.
  induction ts as [|t ts IH]; intros Hsep; [reflexivity|].
  cbn [tokens_text].
  assert (separated ts) as Hts by (destruct t; simpl in Hsep; tauto).
  specialize (IH Hts).
  destruct t; cbn [token_text];
    try (rewrite ?append_cons, append_nil_l; cbn [lex lex_step idle_step];
         simpl; rewrite IH; reflexivity).
  - by rewrite lex_quote, IH.
  - rewrite lex_toString, IH; [reflexivity|].
    apply number_stop_follows. simpl in Hsep. tauto.
Qed.

(** ** Induction on values *)

Lemma json_induction (P : json -> Prop) :
  P JNull ->
  (forall b, P (JBool b)) ->
  (forall x, P (JNum x)) ->
  (forall s, P (JStr s)) ->
  (forall items, Forall P items -> P (JArr items)) ->
  (forall members, Forall (fun kv => P (snd kv)) members -> P (JObj members)) ->
  forall v, P v.
Proof.
  intros Hnull Hbool Hnum Hstr Harr Hobj.
  fix IH 1. intros [ | b | x | s | items | members].
  - exact Hnull.
  - apply Hbool.
  - apply Hnum.
  - apply Hstr.
  - apply Harr. revert items. fix IHl 1. intros [|x items].
    + constructor.
    + constructor; [apply IH | apply IHl].
  - apply Hobj. revert members. fix IHl 1. intros [|[k x] members].
    + constructor.
    + constructor; [apply IH | apply IHl].
Qed.

(** ** [stringify] writes the tokens of the value *)

Lemma tokens_text_app (a b : list token) :
  tokens_text (a ++ b) = tokens_text a +:+ tokens_text b.
Proof.
  induction a as [|t a IH]; [reflexivity|].
  cbn [app tokens_text]. by rewrite IH, append_assoc.
Qed.

Lemma concat_tokens_text {A} (f : A -> string) (g : A -> list token) (l : list A) :
  Forall (fun x => f x = tokens_text (g x)) l ->
  String.concat "," (map f l) = tokens_text (sep_concat [TComma] (map g l)).
Proof.
  induction 1 as [|x l Hx Hl IH]; [reflexivity|].
  destruct l as [|y l]; [exact Hx|].
  change (f x +:+ "," +:+ String.concat "," (map f (y :: l))
          = tokens_text (g x ++ [TComma] ++ sep_concat [TComma] (map g (y :: l)))).
  by rewrite !tokens_text_app, IH, Hx.
Qed.

Lemma stringify_tokens (v : json) : stringify v = tokens_text (tokens_of v).
Proof.
  induction v as [ | [] | x | s | items IH | members IH] using json_induction;
    try (cbn [stringify tokens_of tokens_text token_text]; by rewrite ?append_nil_r).
  - cbn [stringify tokens_of tokens_text token_text].
    rewrite tokens_text_app, (concat_tokens_text stringify tokens_of items IH).
    reflexivity.
  - cbn [stringify tokens_of tokens_text token_text].
    rewrite tokens_text_app.
    rewrite (concat_tokens_text
               (fun kv => quote (fst kv) +:+ ":" +:+ stringify (snd kv))
               (fun kv => TStr (fst kv) :: TColon :: tokens_of (snd kv))).
    + reflexivity.
    + eapply Forall_impl; [exact IH|]. intros [k x] Hx. simpl in *.
      by rewrite Hx.
Qed.

(** ** The tokens of a value are separated *)

Lemma separated_pieces (pieces : list (list token)) (close : token) (r : list token) :
  closes close ->
  Forall (fun p => forall r', follows_number r' -> separated r' -> separated (p ++ r'))
         pieces ->
  separated r ->
  separated (sep_concat [TComma] pieces ++ close :: r).
Proof.
  intros Hc Hall Hr. induction Hall as [|p ps Hp Hps IH].
  - destruct Hc as [-> | ->]; exact Hr.
  - destruct ps as [|q ps].
    + cbn [sep_concat]. apply Hp; destruct Hc as [-> | ->]; done.
    + change (separated ((p ++ [TComma] ++ sep_concat [TComma] (q :: ps)) ++ close :: r)).
      rewrite <- !app_assoc. apply Hp; [done|]. exact IH.
Qed.

Lemma separated_tokens_of (v : json) :
  forall r, follows_number r -> separated r -> separated (tokens_of v ++ r).
Proof.
  induction v as [ | [] | x | s | items IH | members IH] using json_induction;
    intros r Hf Hr; try (simpl; tauto).
  - cbn [tokens_of]. rewrite <- app_comm_cons, <- app_assoc.
    change (separated (sep_concat [TComma] (map tokens_of items) ++ TRBracket :: r)).
    apply separated_pieces; [by left | | exact Hr].
    apply Forall_map. exact IH.
  - cbn [tokens_of]. rewrite <- app_comm_cons, <- app_assoc.
    change (separated
              (sep_concat [TComma]
                 (map (fun kv => TStr (fst kv) :: TColon :: tokens_of (snd kv)) members)
               ++ TRBrace :: r)).
    apply separated_pieces; [by right | | exact Hr].
    apply Forall_map. eapply Forall_impl; [exact IH|].
    intros [k x] Hx r' Hf' Hr'. simpl. by apply Hx.
Qed.

Lemma lex_stringify (v : json) : lex LIdle (stringify v) = Some (tokens_of v).
Proof.
  rewrite stringify_tokens. apply lex_tokens.
  rewrite <- (app_nil_r (tokens_of v)). by apply separated_tokens_of.
Qed.

(** ** Parsing the tokens of a value *)

Lemma sep_concat_map {A B} (sep : list B) (f : A -> list B) (x : A) (xs : list A) :
  sep_concat sep (map f (x :: xs)) = f x ++ flat_map (fun y => sep ++ f y) xs.
Proof.
  revert x. induction xs as [|y xs IH]; intros x.
  - simpl. by rewrite app_nil_r.
  - change (f x ++ sep ++ sep_concat sep (map f (y :: xs))
            = f x ++ (sep ++ f y) ++ flat_map (fun y => sep ++ f y) xs).
    by rewrite IH, <- app_assoc.
Qed.

Lemma obj_set_fresh (k : string) (v : json) (done : list (string * json)) :
  ~ In k (map fst done) -> obj_set k v done = done ++ [(k, v)].
Proof.
  induction done as [|[k' v'] done IH]; intros Hk; [reflexivity|].
  simpl in *. destruct (String.eqb_spec k' k) as [->|Hne]; [tauto|].
  rewrite IH; [reflexivity | tauto].
Qed.

Lemma parse_array_tail (items done : list json) stk rest :
  Forall parses items ->
  parse_tokens (FArr done :: stk, PAfter)
    (flat_map (fun y => [TComma] ++ tokens_of y) items ++ TRBracket :: rest)
  = parse_tokens (push_value stk (JArr (List.rev done ++ items))) rest.
Proof.
  intros H. revert done. induction H as [|y items Hy _ IH]; intros done.
  - simpl. by rewrite app_nil_r.
  - cbn [flat_map]. rewrite <- !app_assoc.
    change (parse_tokens (FArr done :: stk, PAfter) ([TComma] ++ ?x))
      with (parse_tokens (FArr done :: stk, PValue) x).
    rewrite Hy. cbn [push_value]. rewrite IH. simpl. by rewrite <- app_assoc.
Qed.

Lemma parse_object_tail (members done : list (string * json)) k0 stk rest :
  NoDup (map fst (done ++ members)) ->
  Forall (fun kv => parses (snd kv)) members ->
  parse_tokens (FObj done k0 :: stk, PAfter)
    (flat_map (fun kv => [TComma] ++ TStr (fst kv) :: TColon :: tokens_of (snd kv)) members
     ++ TRBrace :: rest)
  = parse_tokens (push_value stk (JObj (done ++ members))) rest.
Proof.
  intros Hnd H. revert done k0 Hnd.
  induction H as [|[k x] members Hx _ IH]; intros done k0 Hnd.
  - simpl. by rewrite app_nil_r.
  - cbn [flat_map fst snd]. rewrite <- !app_assoc.
    change (parse_tokens (FObj done k0 :: stk, PAfter)
              ([TComma] ++ (TStr k :: TColon :: tokens_of x) ++ ?t))
      with (parse_tokens (FObj done k :: stk, PValue) (tokens_of x ++ t)).
    simpl in Hx. rewrite Hx. cbn [push_value].
    assert (~ In k (map fst done)) as Hfresh.
    { rewrite map_app in Hnd. apply NoDup_app in Hnd as (_ & Hdisj & Hm).
      intros Hin. apply (Hdisj k); [by apply list_elem_of_In|].
      apply list_elem_of_In. simpl. by left. }
    rewrite (obj_set_fresh k x done Hfresh).
    rewrite IH by by rewrite <- app_assoc.
    by rewrite <- app_assoc.
Qed.

Lemma parse_tokens_of (v : json) : keys_distinct v -> parses v.
Proof.
  induction v as [ | [] | x | s | items IH | members IH] using json_induction;
    intros Hkd; try (intros stk rest; reflexivity).
  - inversion Hkd as [ | | | | ? Hitems | ]; subst.
    assert (Forall parses items) as Hall.
    { apply Forall_forall. intros x Hx.
      rewrite Forall_forall in IH, Hitems. by apply IH; [|apply Hitems]. }
    intros stk rest. destruct items as [|x items].
    + reflexivity.
    + cbn [tokens_of]. rewrite sep_concat_map.
      inversion Hall as [|? ? Hx Hxs]; subst.
      rewrite <- app_comm_cons, <- !app_assoc.
      change (parse_tokens (stk, PValue) (TLBracket :: ?t))
        with (parse_tokens (FArr [] :: stk, PValue) t).
      rewrite Hx. cbn [push_value].
      change ([TRBracket] ++ rest) with (TRBracket :: rest).
      by rewrite parse_array_tail.
  - inversion Hkd as [ | | | | | ? Hnd Hmembers]; subst.
    assert (Forall (fun kv => parses (snd kv)) members) as Hall.
    { apply Forall_forall. intros kv Hkv.
      rewrite Forall_forall in IH, Hmembers. by apply IH; [|apply Hmembers]. }
    intros stk rest. destruct members as [|[k x] members].
    + reflexivity.
    + cbn [tokens_of].
      rewrite (sep_concat_map [TComma]
                 (fun kv => TStr (fst kv) :: TColon :: tokens_of (snd kv))).
      inversion Hall as [|? ? Hx Hxs]; subst. cbn [fst snd] in *.
      rewrite <- !app_comm_cons, <- !app_assoc.
      change (parse_tokens (stk, PValue) (TLBrace :: TStr k :: TColon :: ?t))
        with (parse_tokens (FObj [] k :: stk, PValue) t).
      rewrite Hx. cbn [push_value obj_set].
      change ([TRBrace] ++ rest) with (TRBrace :: rest).
      by rewrite (parse_object_tail members [(k, x)]).
Qed.

(** [JSON.parse(JSON.stringify(v))] is [v]. *)
Lemma parse_stringify (v : json) : keys_distinct v -> parse (stringify v) = Some v.
Proof.
  intros Hkd. unfold parse. rewrite lex_stringify.
  rewrite <- (app_nil_r (tokens_of v)). by rewrite (parse_tokens_of v Hkd).
Qed.

(** ** The characters [stringify] writes *)

Lemma no_control_digits (ds : list N) :
  Forall is_digit ds -> string_forall no_control (digits_string ds) = true.
Proof.
  induction 1 as [|d ds Hd _ IH]; [reflexivity|].
  cbn [digits_string string_forall]. rewrite IH, andb_true_r.
  each_digit Hd; reflexivity.
Qed.

Lemma no_control_toString (x : number) : string_forall no_control (toString x) = true.
Proof.
  destruct x as [|neg lead last e]; [reflexivity|].
  unfold toString.
  destruct (digits_spec (10 * lead + digit19_val last)) as (d & r & -> & Hall & _ & _).
  destruct (digits_spec (Z.abs_N (Z.of_nat (length (d :: r)) + e - 1)))
    as (x1 & xs & -> & Hxall & _ & _).
  cbv zeta.
  assert (forall j, string_forall no_control (digits_string (zeros j)) = true) as Hz
    by (intros j; apply no_control_digits, Forall_is_digit_zeros).
  assert (forall j, Forall is_digit (firstn j (d :: r))) as Hf by (intros j; by apply Forall_take).
  assert (forall j, Forall is_digit (skipn j (d :: r))) as Hs by (intros j; by apply Forall_drop).
  inversion Hall as [|? ? Hd Hr]; subst.
  assert (Forall is_digit [d]) as Hd1 by (by constructor).
  rewrite string_forall_append.
  assert (string_forall no_control (sign_text neg) = true) as -> by by destruct neg.
  repeat match goal with
         | |- context [if ?b then _ else _] => destruct b
         | |- context [match ?l with [] => _ | _ :: _ => _ end] => destruct l
         end;
    rewrite ?string_forall_append, ?digits_string_app, ?string_forall_append;
    repeat first [rewrite Hz | rewrite no_control_digits by done]; reflexivity.
Qed.

Lemma no_control_quote_char (c : ascii) : string_forall no_control (quote_char c) = true.
Proof. destruct c as [[] [] [] [] [] [] [] []]; reflexivity. Qed.

Lemma no_control_quote (s : string) : string_forall no_control (quote s) = true.
Proof.
  unfold quote. cbn [string_forall]. rewrite string_forall_append.
  assert (string_forall no_control (quote_body s) = true) as ->; [|reflexivity].
  induction s as [|c s IH]; [reflexivity|].
  cbn [quote_body]. by rewrite string_forall_append, no_control_quote_char, IH.
Qed.

Lemma no_control_stringify (v : json) : string_forall no_control (stringify v) = true.
Proof.
  rewrite stringify_tokens. induction (tokens_of v) as [|t ts IH]; [reflexivity|].
  cbn [tokens_text]. rewrite string_forall_append, IH, andb_true_r.
  destruct t; try reflexivity; [apply no_control_quote | apply no_control_toString].
Qed.

Lemma not_LF_stringify (v : json) : string_forall not_LF (stringify v) = true.
Proof.
  apply (string_forall_impl no_control); [|apply no_control_stringify].
  intros c. destruct c as [[] [] [] [] [] [] [] []]; done.
Qed.

(** ** The line of an envelope *)

Lemma keys_distinct_envelope (envelope : TranslationContractEnvelope) :
  keys_distinct (envelope_json envelope).
Proof.
  unfold envelope_json, contract_json, provenance_json.
  constructor; [apply (bool_decide_unpack _); by vm_compute|].
  constructor; [|constructor]. cbn [snd].
  constructor.
  - destruct (translator (contract envelope));
      apply (bool_decide_unpack _); by vm_compute.
  - destruct (translator (contract envelope)); simpl;
      repeat (constructor; cbn [snd]);
      apply (bool_decide_unpack _); by vm_compute.
Qed.

Lemma braced_line (envelope : TranslationContractEnvelope) : braced (line_of envelope).
Proof. eexists. reflexivity. Qed.

Lemma not_LF_line (envelope : TranslationContractEnvelope) :
  string_forall not_LF (line_of envelope) = true.
Proof. apply not_LF_stringify. Qed.

Lemma parse_line (envelope : TranslationContractEnvelope) :
  parse (line_of envelope) = Some (envelope_json envelope).
Proof. apply parse_stringify, keys_distinct_envelope. Qed.

(** ** The monad *)

Lemma bind_inr {A B} (m : M A) (k : A -> M B) w x w' :
  m w = (inr x, w') -> (m ≫= k) w = k x w'.
Proof. intros H. unfold mbind, M_bind. now rewrite H. Qed.

Lemma bind_inl {A B} (m : M A) (k : A -> M B) w e w' :
  m w = (inl e, w') -> (m ≫= k) w = (inl e, w').
Proof. intros H. unfold mbind, M_bind. now rewrite H. Qed.

(** ** Provider failure *)

(** C6. If the provider's translate operation fails, translateRequest fails
    with the provider's own error; the only effect is the provider call:
    the clock is not read (no contract is built), no directory is made, no
    file is written, and every file keeps its content. *)
Theorem provider_failure_propagates :
  forall (validate : Validator) (provider : TranslationProvider)
         (input : TranslationRequestInput) (w : World) (e : JsError),
    translate provider (params_of input) = inl e ->
    exists w',
      Translate.translateRequest validate provider input w = (inl e, w')
      /\ files w' = files w /\ dirs w' = dirs w /\ ticks w' = ticks w
      /\ trace w' = trace w ++ [EvTranslate (params_of input)].
Proof.
  intros validate provider input w e Hfail.
  exists (log (EvTranslate (params_of input)) w). split; [|by repeat split].
  unfold Translate.translateRequest. apply bind_inl.
  unfold call_translate. fold (params_of input). by rewrite Hfail.
Qed.

Lemma provider_failure_propagates_witness :
  exists w',
    Translate.translateRequest SpecSchema.envelope_schema Fixtures.failing_mock
      (Fixtures.request machine None) Fixtures.empty_world
    = (inl (new_Error "Mock translation failed (simulated)"), w')
    /\ files w' = files Fixtures.empty_world /\ dirs w' = dirs Fixtures.empty_world
    /\ ticks w' = ticks Fixtures.empty_world
    /\ trace w' = trace Fixtures.empty_world
                  ++ [EvTranslate (params_of (Fixtures.request machine None))].
Proof.
  apply (provider_failure_propagates SpecSchema.envelope_schema Fixtures.failing_mock
           (Fixtures.request machine None) Fixtures.empty_world).
  reflexivity.
Defined.

(** ** Validation *)

Lemma ltb_leb (x y : number) : ltb x y = negb (leb y x).
Proof.
  unfold ltb, leb. rewrite (Z.min_comm (exponent y)). apply Z.ltb_antisym.
Qed.

Lemma falsy_present (c : TranslationContract) :
  falsy (translator c) = false <-> translator_present c.
Proof.
  unfold translator_present, falsy. destruct (translator c) as [[|a r]|]; simpl.
  - split; [discriminate | intros (s & [= <-] & H); congruence].
  - split; [intros _; eexists; split; [reflexivity | discriminate] | reflexivity].
  - split; [discriminate | intros (s & [=] & _)].
Qed.

Lemma in_unit_interval_iff (x : number) :
  in_unit_interval x <-> ltb x zero = false /\ ltb one x = false.
Proof.
  unfold in_unit_interval. rewrite !ltb_leb, !negb_false_iff. tauto.
Qed.

(** Validation has no effect on the world, whatever its outcome. *)
Lemma validateEnvelope_pure validate envelope w :
  snd (Ledger.validateEnvelope validate envelope w) = w.
Proof.
  unfold Ledger.validateEnvelope.
  repeat match goal with |- context [if ?b then _ else _] => destruct b end;
    reflexivity.
Qed.

Lemma validateEnvelope_ok validate envelope w :
  fst (Ledger.validateEnvelope validate envelope w) = inr ()
  <-> validate (envelope_json envelope) = []
      /\ (is_human_or_hybrid (method (contract envelope)) = true ->
          translator_present (contract envelope))
      /\ in_unit_interval (confidence (contract envelope)).
Proof.
  rewrite in_unit_interval_iff, <- falsy_present.
  unfold Ledger.validateEnvelope.
  destruct (validate (envelope_json envelope)) as [|err errs]; simpl.
  2: { split; [discriminate | intros [H _]; discriminate H]. }
  destruct (is_human_or_hybrid _), (falsy _),
    (ltb (confidence _) zero), (ltb one _); simpl;
    (split; [first [discriminate | intros _; repeat split; auto; discriminate]
            | first [reflexivity
                    | intros (_ & H & H1 & H2);
                      first [discriminate H1 | discriminate H2
                            | discriminate (H eq_refl)]]]).
Qed.

Lemma validateEnvelope_error validate envelope w :
  ~ envelope_valid validate envelope ->
  exists e, Ledger.validateEnvelope validate envelope w = (inl e, w).
Proof.
  intros Hinv.
  destruct (Ledger.validateEnvelope validate envelope w) as [[e|[]] w'] eqn:E.
  - exists e. f_equal. by rewrite <- (validateEnvelope_pure validate envelope w), E.
  - exfalso. apply Hinv, (validateEnvelope_ok validate envelope w). by rewrite E.
Qed.

(** C7, as the code has it. On a structurally valid envelope the business rules
    pass exactly when the confidence lies in [0, 1] and, for the methods human
    and hybrid, a non-empty translator is present.  The translator rule is
    checked first: its violation is always reported by an error naming
    "translator"; a confidence out of range is reported by the range error
    when the translator rule holds. *)
Theorem business_rules :
  forall (validate : Validator) (envelope : TranslationContractEnvelope) (w : World),
    validate (envelope_json envelope) = [] ->
    let c := contract envelope in
    let r := fst (Ledger.validateEnvelope validate envelope w) in
    (r = inr () <->
       in_unit_interval (confidence c)
       /\ (is_human_or_hybrid (method c) = true -> translator_present c))
    /\ (is_human_or_hybrid (method c) = true -> ~ translator_present c ->
        exists e, r = inl e /\ includes "translator" (message e) = true)
    /\ ((is_human_or_hybrid (method c) = true -> translator_present c) ->
        out_of_range (confidence c) ->
        exists e, r = inl e /\ includes "between 0.0 and 1.0" (message e) = true).
Proof.
  intros validate envelope w Hs c r. split; [|split].
  - subst r. rewrite validateEnvelope_ok. fold c. tauto.
  - intros Hm Hno. subst r c. unfold Ledger.validateEnvelope.
    rewrite Hs, Hm. simpl.
    destruct (falsy (translator (contract envelope))) eqn:F.
    + eexists; split; reflexivity.
    + exfalso. by apply Hno, falsy_present.
  - intros Hpres Hout. subst r c. unfold Ledger.validateEnvelope. rewrite Hs. simpl.
    assert (is_human_or_hybrid (method (contract envelope))
            && falsy (translator (contract envelope)) = false) as ->.
    { destruct (is_human_or_hybrid _); [|reflexivity].
      simpl. by apply falsy_present, Hpres. }
    assert (ltb (confidence (contract envelope)) zero
            || ltb one (confidence (contract envelope)) = true) as ->.
    { destruct Hout as [-> | ->]; [reflexivity | apply orb_true_r]. }
    eexists; split; reflexivity.
Qed.

Lemma business_rules_witness :
  let envelope := {| contract := Fixtures.a_contract hybrid (Some "ana") Fixtures.n_1_5 |} in
  let c := contract envelope in
  let r := fst (Ledger.validateEnvelope SpecSchema.envelope_schema envelope
                  Fixtures.empty_world) in
  (r = inr () <->
     in_unit_interval (confidence c)
     /\ (is_human_or_hybrid (method c) = true -> translator_present c))
  /\ (is_human_or_hybrid (method c) = true -> ~ translator_present c ->
      exists e, r = inl e /\ includes "translator" (message e) = true)
  /\ ((is_human_or_hybrid (method c) = true -> translator_present c) ->
      out_of_range (confidence c) ->
      exists e, r = inl e /\ includes "between 0.0 and 1.0" (message e) = true).
Proof.
  apply (business_rules SpecSchema.envelope_schema
           {| contract := Fixtures.a_contract hybrid (Some "ana") Fixtures.n_1_5 |}
           Fixtures.empty_world).
  vm_compute. reflexivity.
Defined.

(** C7, the counterexample: a human contract without translator and with
    confidence 1.5 is structurally valid and out of range, yet the error it
    gets is the translator error, which says nothing of the range. *)
Lemma range_error_not_always_reported :
  ~ range_error_reported SpecSchema.envelope_schema
      {| contract := Fixtures.a_contract human None Fixtures.n_1_5 |}
      Fixtures.empty_world.
Proof.
  intros H. destruct H as (e & He & Hmsg).
  - reflexivity.
  - right. reflexivity.
  - vm_compute in He. injection He as <-. vm_compute in Hmsg. discriminate.
Qed.

(** ** The gate of the ledger *)

Lemma saveLedgerEntry_gate validate envelope w :
  (~ envelope_valid validate envelope ->
   exists e, Ledger.saveLedgerEntry validate envelope w = (inl e, w))
  /\ (snd (Ledger.saveLedgerEntry validate envelope w) <> w ->
      envelope_valid validate envelope).
Proof.
  assert (~ envelope_valid validate envelope ->
          exists e, Ledger.saveLedgerEntry validate envelope w = (inl e, w)) as Hgate.
  { intros Hinv. destruct (validateEnvelope_error validate envelope w Hinv) as [e He].
    exists e. unfold Ledger.saveLedgerEntry. by apply bind_inl. }
  split; [exact Hgate|].
  intros Hchg.
  destruct (Ledger.validateEnvelope validate envelope w) as [[e|[]] w'] eqn:E.
  - exfalso. apply Hchg. unfold Ledger.saveLedgerEntry.
    rewrite (bind_inl _ _ _ _ _ E). simpl.
    by rewrite <- (validateEnvelope_pure validate envelope w), E.
  - apply (validateEnvelope_ok validate envelope w). by rewrite E.
Qed.

(** C2. saveLedgerEntry validates first: for an envelope that is not valid
    (schema or business rules) the call fails and leaves the world as it was,
    files, directories and events alike; the world changes only for a valid
    envelope. *)
Theorem gate_before_write :
  forall (validate : Validator) (envelope : TranslationContractEnvelope) (w : World),
    (~ envelope_valid validate envelope ->
     exists e, Ledger.saveLedgerEntry validate envelope w = (inl e, w))
    /\ (snd (Ledger.saveLedgerEntry validate envelope w) <> w ->
        envelope_valid validate envelope).
Proof. intros validate envelope w. apply saveLedgerEntry_gate. Qed.

Lemma gate_before_write_witness :
  exists e,
    Ledger.saveLedgerEntry SpecSchema.envelope_schema
      {| contract := Fixtures.a_contract machine None Fixtures.n_1_5 |}
      Fixtures.empty_world
    = (inl e, Fixtures.empty_world).
Proof.
  apply (proj1 (gate_before_write SpecSchema.envelope_schema
                  {| contract := Fixtures.a_contract machine None Fixtures.n_1_5 |}
                  Fixtures.empty_world)).
  intros (_ & _ & _ & H). vm_compute in H. discriminate.
Defined.

(** ** The builders *)

Lemma generateContractId_eq content w :
  generateContractId content w
  = (inr ("trans_" +:+ JsString.substring 0 6
            (generateHash (content +:+ "_" +:+ toString (of_Z (clock w (ticks w)))))),
     tick 1 w).
Proof. reflexivity. Qed.

Lemma generateTimestamp_eq w :
  generateTimestamp w = (inr (toISOString (clock w (ticks w))), tick 1 w).
Proof. reflexivity. Qed.

(** The builder of the pipeline has no failure path: it reads the clock
    twice and returns the contract, whatever the request and the provider
    output. *)
Lemma buildContract_returns input text conf w :
  Translate.buildContract input text conf w
  = (inr {| id := "trans_" +:+ JsString.substring 0 6
                    (generateHash (pipeline_id_content input +:+ "_"
                                   +:+ toString (of_Z (clock w (ticks w)))));
            workflow := Request.workflow input;
            flow := Request.flow input;
            source_language := Request.source_language input;
            target_language := Request.target_language input;
            source_text := Request.source_text input;
            translated_text := text;
            translator := Request.translator input;
            method := Request.method input;
            confidence := conf;
            provenance := {| timestamp := toISOString (clock w (S (ticks w)));
                             tenant_id := Request.tenant_id input;
                             signature := EmptyString |} |},
     tick 2 w).
Proof. reflexivity. Qed.

(** C3, at the failing input.  The legacy builder of contract.ts validates
    before it returns: with the parameters of its own test (confidence 1.5)
    it throws, whatever the schema and the world, where the test expects the
    contract back. *)
Theorem legacy_builder_throws_on_confidence_1_5 :
  forall (validate : Validator) (w : World),
    exists e, Contract.buildContract validate Fixtures.params_confidence_1_5 w
              = (inl e, tick 2 w).
Proof.
  intros validate w. unfold Contract.buildContract.
  rewrite (bind_inr _ _ _ _ _ (generateContractId_eq _ w)).
  rewrite (bind_inr _ _ _ _ _ (generateTimestamp_eq (tick 1 w))).
  match goal with |- context [Contract.validateContract _ ?c] => set (built := c) end.
  assert (exists e, Contract.validateContract validate built (tick 1 (tick 1 w))
                    = (inl e, tick 2 w)) as [e He].
  { unfold Contract.validateContract.
    destruct (validate (Contract.contract_json built)); simpl; eexists; reflexivity. }
  exists e. by apply bind_inl.
Qed.

(** ** The translator rule in the pipeline *)

Lemma new_events_app w w' evs :
  trace w' = trace w ++ evs -> new_events w w' = evs.
Proof.
  intros H. unfold new_events. rewrite H.
  rewrite skipn_app, skipn_all, Nat.sub_diag. reflexivity.
Qed.

Lemma validateEnvelope_missing_translator validate envelope w :
  is_human_or_hybrid (method (contract envelope)) = true ->
  falsy (translator (contract envelope)) = true ->
  exists e,
    Ledger.validateEnvelope validate envelope w = (inl e, w)
    /\ (e = new_Error Ledger.translator_required
        \/ exists errors,
             e = new_Error ("Invalid translation contract envelope: " +:+ errors)).
Proof.
  intros Hm Hf. unfold Ledger.validateEnvelope.
  destruct (validate (envelope_json envelope)) as [|err errs]; simpl.
  - rewrite Hm, Hf. simpl. eexists. split; [reflexivity | by left].
  - eexists. split; [reflexivity | right; by eexists].
Qed.

Lemma translateRequest_missing_translator :
  forall (validate : Validator) (provider : TranslationProvider)
         (input : TranslationRequestInput) (w : World),
    is_human_or_hybrid (Request.method input) = true ->
    falsy (Request.translator input) = true ->
    exists e w',
      Translate.translateRequest validate provider input w = (inl e, w')
      /\ refusal (translate provider (params_of input)) e
      /\ new_events w w' = [EvTranslate (params_of input)]
      /\ storage_untouched (new_events w w')
      /\ files w' = files w /\ dirs w' = dirs w.
Proof.
  intros validate provider input w Hm Hf.
  assert (forall evs, evs = [EvTranslate (params_of input)] -> storage_untouched evs) as Hst.
  { intros evs ->. split; [intros d [H|[]] | intros p data [H|[]]]; discriminate H. }
  unfold Translate.translateRequest. fold (params_of input).
  destruct (translate provider (params_of input)) as [e|res] eqn:Hp.
  - exists e, (log (EvTranslate (params_of input)) w).
    assert (new_events w (log (EvTranslate (params_of input)) w)
            = [EvTranslate (params_of input)]) as Hn by by apply new_events_app.
    split; [|split; [reflexivity | split; [exact Hn | split; [by apply Hst | by split]]]].
    apply bind_inl. unfold call_translate. by rewrite Hp.
  - set (w1 := log (EvTranslate (params_of input)) w).
    assert (call_translate provider (params_of input) w = (inr res, w1)) as Hc.
    { unfold call_translate. by rewrite Hp. }
    rewrite (bind_inr _ _ _ _ _ Hc).
    rewrite (bind_inr _ _ _ _ _ (buildContract_returns input _ _ w1)).
    match goal with |- context [Ledger.saveLedgerEntry _ ?env] => set (envelope := env) end.
    destruct (validateEnvelope_missing_translator validate envelope (tick 2 w1) Hm Hf)
      as (e & He & Hform).
    exists e, (tick 2 w1).
    assert (new_events w (tick 2 w1) = [EvTranslate (params_of input)]) as Hn
      by by apply new_events_app.
    split; [|split; [exact Hform | split; [exact Hn | split; [by apply Hst | by split]]]].
    apply bind_inl. unfold Ledger.saveLedgerEntry. by apply bind_inl.
Qed.

(** C1, as the code has it. A human or hybrid request without translator makes
    translateRequest fail with nothing written.  The provider is called
    first, and that call is the only effect: no directory is made, no file is
    written, every file keeps its content.  The error is the provider's own
    when the provider fails, otherwise the refusal of the ledger. *)
Theorem missing_translator_fails_without_write :
  forall (validate : Validator) (provider : TranslationProvider)
         (input : TranslationRequestInput) (w : World),
    is_human_or_hybrid (Request.method input) = true ->
    falsy (Request.translator input) = true ->
    exists e w',
      Translate.translateRequest validate provider input w = (inl e, w')
      /\ refusal (translate provider (params_of input)) e
      /\ new_events w w' = [EvTranslate (params_of input)]
      /\ storage_untouched (new_events w w')
      /\ files w' = files w /\ dirs w' = dirs w.
Proof. exact translateRequest_missing_translator. Qed.

Lemma missing_translator_fails_without_write_witness :
  exists e w',
    Translate.translateRequest SpecSchema.envelope_schema
      (Fixtures.mock "teste" Fixtures.n_0_95) (Fixtures.request human None)
      Fixtures.empty_world = (inl e, w')
    /\ refusal (translate (Fixtures.mock "teste" Fixtures.n_0_95)
                  (params_of (Fixtures.request human None))) e
    /\ new_events Fixtures.empty_world w'
       = [EvTranslate (params_of (Fixtures.request human None))]
    /\ storage_untouched (new_events Fixtures.empty_world w')
    /\ files w' = files Fixtures.empty_world /\ dirs w' = dirs Fixtures.empty_world.
Proof.
  apply (missing_translator_fails_without_write SpecSchema.envelope_schema
           (Fixtures.mock "teste" Fixtures.n_0_95) (Fixtures.request human None)
           Fixtures.empty_world); reflexivity.
Defined.

(** C1, the counterexample: the test request of tests/pipeline.test.ts
    (method human, no translator) against the mock provider.  The provider is
    called before the failure. *)
Lemma provider_called_before_failure :
  ~ fails_before_provider SpecSchema.envelope_schema
      (Fixtures.mock "teste" Fixtures.n_0_95) (Fixtures.request human None)
      Fixtures.empty_world.
Proof.
  unfold fails_before_provider.
  destruct (translateRequest_missing_translator SpecSchema.envelope_schema
              (Fixtures.mock "teste" Fixtures.n_0_95) (Fixtures.request human None)
              Fixtures.empty_world eq_refl eq_refl) as (e & w' & -> & _ & Hn & _).
  intros (_ & Hprov & _). rewrite Hn in Hprov.
  apply (Hprov (params_of (Fixtures.request human None))). by left.
Qed.

(** ** Appending to the ledger *)

Lemma mkdir_output (w : World) :
  Deno.mkdir_recursive "./output" w
  = if Deno.is_file w "./output" then
      (inl {| err_class := AlreadyExists; message := "File exists (os error 17)" |},
       log (EvMkdir "./output") w)
    else if Deno.is_file w "." || (Deno.is_file w "./output" || false) then
      (inl {| err_class := NotADirectory; message := "Not a directory (os error 20)" |},
       log (EvMkdir "./output") w)
    else
      (inr (),
       {| files := files w; dirs := dirs w ∪ list_to_set ["."; "./output"];
          clock := clock w; ticks := ticks w;
          trace := trace w ++ [EvMkdir "./output"] |}).
Proof. reflexivity. Qed.

Lemma write_ledger (line : string) (w : World) :
  Deno.writeTextFile_append Ledger.LEDGER_PATH line w
  = if bool_decide (Ledger.LEDGER_PATH ∈ dirs w) then
      (inl {| err_class := IsADirectory; message := "Is a directory (os error 21)" |},
       log (EvWrite Ledger.LEDGER_PATH line) w)
    else if negb (Deno.is_dir w "./output") then
      (inl {| err_class := NotFound; message := "No such file or directory (os error 2)" |},
       log (EvWrite Ledger.LEDGER_PATH line) w)
    else
      (inr (),
       {| files := <[ Ledger.LEDGER_PATH :=
                        default EmptyString (files w !! Ledger.LEDGER_PATH) +:+ line ]>
                     (files w);
          dirs := dirs w; clock := clock w; ticks := ticks w;
          trace := trace w ++ [EvWrite Ledger.LEDGER_PATH line] |}).
Proof. reflexivity. Qed.

Lemma ledger_path_not_made (w : World) :
  Ledger.LEDGER_PATH ∈ dirs w ∪ list_to_set ["."; "./output"]
  <-> Ledger.LEDGER_PATH ∈ dirs w.
Proof.
  rewrite elem_of_union, elem_of_list_to_set. split; [|tauto].
  intros [H|H]; [exact H|]. exfalso.
  apply list_elem_of_In in H. simpl in H.
  destruct H as [H|[H|[]]]; discriminate H.
Qed.

Lemma write_line_cases (line : string) (w : World) :
  (storage_ready w /\ write_line line w = (inr (), appended line w))
  \/ (~ storage_ready w /\ exists e w', write_line line w = (inl e, w')).
Proof.
  unfold write_line, try_catch.
  change (JsString.substring 0 (lastIndexOf Deno.slash Ledger.LEDGER_PATH) Ledger.LEDGER_PATH)
    with "./output".
  cbv zeta. unfold mbind, M_bind. rewrite mkdir_output. unfold storage_ready.
  destruct (Deno.is_file w "./output") eqn:Eo.
  { right. split; [intros (_ & H & _); discriminate H | by eexists _, _]. }
  destruct (Deno.is_file w ".") eqn:Ed.
  { right. split; [intros (H & _); discriminate H | by eexists _, _]. }
  cbn [orb]. rewrite write_ledger. cbn [dirs files clock ticks trace].
  destruct (bool_decide (Ledger.LEDGER_PATH ∈ dirs w ∪ list_to_set ["."; "./output"])) eqn:Ep.
  { right. split; [|by eexists _, _].
    intros (_ & _ & H). apply H, ledger_path_not_made. by apply bool_decide_eq_true in Ep. }
  assert (Deno.is_dir
            {| files := files w; dirs := dirs w ∪ list_to_set ["."; "./output"];
               clock := clock w; ticks := ticks w;
               trace := trace w ++ [EvMkdir "./output"] |} "./output" = true) as ->.
  { unfold Deno.is_dir. cbn [dirs]. rewrite bool_decide_eq_true_2; [apply orb_true_r|].
    apply elem_of_union_r, elem_of_list_to_set, list_elem_of_In. simpl. tauto. }
  left. split; [|reflexivity].
  repeat split; try done.
  intros H. apply bool_decide_eq_false in Ep. by apply Ep, ledger_path_not_made.
Qed.

Lemma saveLedgerEntry_unfold validate envelope w :
  Ledger.saveLedgerEntry validate envelope w
  = match Ledger.validateEnvelope validate envelope w with
    | (inr _, w') => write_line (line_of envelope +:+ end_of_line) w'
    | (inl e, w') => (inl e, w')
    end.
Proof. reflexivity. Qed.

Lemma saveLedgerEntry_valid validate envelope w :
  envelope_valid validate envelope ->
  Ledger.saveLedgerEntry validate envelope w
  = write_line (line_of envelope +:+ end_of_line) w.
Proof.
  intros Hv. rewrite saveLedgerEntry_unfold.
  pose proof (validateEnvelope_pure validate envelope w) as Hp.
  apply (validateEnvelope_ok validate envelope w) in Hv.
  destruct (Ledger.validateEnvelope validate envelope w) as [[e|[]] w']; simpl in *;
    [discriminate Hv | by subst].
Qed.

(** What a successful append has done. *)
Lemma saveLedgerEntry_inr validate envelope w w' :
  Ledger.saveLedgerEntry validate envelope w = (inr (), w') ->
  envelope_valid validate envelope
  /\ storage_ready w
  /\ w' = appended (line_of envelope +:+ end_of_line) w.
Proof.
  intros H.
  assert (envelope_valid validate envelope) as Hv.
  { apply (saveLedgerEntry_gate validate envelope w). rewrite H. simpl. intros ->.
    rewrite saveLedgerEntry_unfold in H.
    destruct (Ledger.validateEnvelope validate envelope w) as [[e|[]] w1] eqn:E;
      [discriminate H|].
    destruct (write_line_cases (line_of envelope +:+ end_of_line) w1)
      as [[_ Hw] | [_ (e & w2 & Hw)]]; rewrite Hw in H; [|discriminate H].
    pose proof (validateEnvelope_pure validate envelope w) as Hp. rewrite E in Hp.
    simpl in Hp. subst w1. injection H as H.
    apply (f_equal trace) in H. simpl in H.
    apply (f_equal (@length Event)) in H. rewrite !length_app in H. simpl in H. lia. }
  split; [exact Hv|]. rewrite (saveLedgerEntry_valid _ _ _ Hv) in H.
  destruct (write_line_cases (line_of envelope +:+ end_of_line) w)
    as [[Hr Hw] | [_ (e & w2 & Hw)]]; rewrite Hw in H; [|discriminate H].
  split; [exact Hr | by injection H].
Qed.

(** When nothing stands in the way, the append of a valid envelope
    succeeds. *)
Lemma saveLedgerEntry_succeeds validate envelope w :
  envelope_valid validate envelope ->
  storage_ready w ->
  Ledger.saveLedgerEntry validate envelope w
  = (inr (), appended (line_of envelope +:+ end_of_line) w).
Proof.
  intros Hv Hr. rewrite (saveLedgerEntry_valid _ _ _ Hv).
  by destruct (write_line_cases (line_of envelope +:+ end_of_line) w)
    as [[_ Hw] | [Hn _]].
Qed.

(** ** Reading the ledger *)

Lemma map_M_parse (lines : list string) (w : World) :
  map_M JSON_parse lines w
  = match parse_all lines with
    | Some vs => (inr vs, w)
    | None => (inl syntax_error, w)
    end.
Proof.
  induction lines as [|l lines IH]; [reflexivity|].
  cbn [map_M parse_all]. unfold mbind, M_bind, JSON_parse at 1.
  destruct (parse l) as [v|]; [|reflexivity].
  unfold mret at 1, M_ret at 1. rewrite IH. by destruct (parse_all lines).
Qed.


Lemma parse_all_Some (lines : list string) (vs : list json) :
  Forall2 (fun line v => parse line = Some v) lines vs -> parse_all lines = Some vs.
Proof.
  induction 1 as [|l v lines vs Hl _ IH]; [reflexivity|].
  cbn [parse_all]. by rewrite Hl, IH.
Qed.

Lemma readLedger_file (path content : string) (w : World) :
  files w !! path = Some content ->
  Ledger.readLedger path w
  = match parse_all (Ledger.ledger_lines content) with
    | Some vs => (inr vs, w)
    | None => (inl syntax_error, w)
    end.
Proof.
  intros Hf. unfold Ledger.readLedger, try_catch, mbind, M_bind, Deno.readTextFile.
  rewrite Hf, map_M_parse. by destruct (parse_all _).
Qed.

Lemma readLedger_absent (path : string) (w : World) :
  files w !! path = None -> path ∉ dirs w ->
  Ledger.readLedger path w = (inr [], w).
Proof.
  intros Hf Hd. unfold Ledger.readLedger, try_catch, mbind, M_bind, Deno.readTextFile.
  rewrite Hf. by rewrite bool_decide_eq_false_2.
Qed.



(** C10. Reading back applies no validation: when every kept line is JSON,
    the read returns exactly the parsed lines, whatever they hold.  So a line
    of another shape, and an envelope the gate would refuse (human, no
    translator, confidence 1.5), both come back. *)
Theorem read_back_unvalidated :
  (forall (w : World) (path content : string) (vs : list json),
      files w !! path = Some content ->
      Forall2 (fun line v => parse line = Some v) (Ledger.ledger_lines content) vs ->
      Ledger.readLedger path w = (inr vs, w))
  /\ (exists v,
        Ledger.readLedger Ledger.LEDGER_PATH (Fixtures.with_ledger Fixtures.unvalidated_ledger)
        = (inr [v; envelope_json Fixtures.invalid_envelope],
           Fixtures.with_ledger Fixtures.unvalidated_ledger)
        /\ SpecSchema.envelope_schema v <> []
        /\ ~ envelope_valid SpecSchema.envelope_schema Fixtures.invalid_envelope).
Proof.
  split.
  - intros w path content vs Hf Hall.
    rewrite (readLedger_file _ _ _ Hf). by rewrite (parse_all_Some _ _ Hall).
  - exists (JObj [("foo", JNum one)]). split; [by vm_compute|]. split; [by vm_compute|].
    intros (_ & H & _). specialize (H eq_refl). destruct H as (s & H & _). discriminate H.
Qed.

Lemma read_back_unvalidated_witness :
  Ledger.readLedger Ledger.LEDGER_PATH (Fixtures.with_ledger Fixtures.unvalidated_ledger)
  = (inr [JObj [("foo", JNum one)]; envelope_json Fixtures.invalid_envelope],
     Fixtures.with_ledger Fixtures.unvalidated_ledger).
Proof.
  apply (proj1 read_back_unvalidated (Fixtures.with_ledger Fixtures.unvalidated_ledger)
           Ledger.LEDGER_PATH Fixtures.unvalidated_ledger).
  - by vm_compute.
  - set (ls := Ledger.ledger_lines _). vm_compute in ls. subst ls.
    repeat constructor; by vm_compute.
Defined.

(** ** The shape of an append *)

Lemma new_events_appended (line : string) (w : World) :
  new_events w (appended line w)
  = [EvMkdir "./output"; EvWrite Ledger.LEDGER_PATH line].
Proof. apply new_events_app. simpl. by rewrite <- app_assoc. Qed.

Lemma saveLedgerEntry_shape validate envelope w w' :
  Ledger.saveLedgerEntry validate envelope w = (inr (), w') ->
  let prior := default EmptyString (files w !! Ledger.LEDGER_PATH) in
  let text := stringify (envelope_json envelope) in
  files w' !! Ledger.LEDGER_PATH = Some (prior +:+ text +:+ end_of_line)
  /\ string_forall not_LF text = true
  /\ (forall p, p <> Ledger.LEDGER_PATH -> files w' !! p = files w !! p)
  /\ Deno.dirname Ledger.LEDGER_PATH ∈ dirs w'
  /\ dirs w ⊆ dirs w'
  /\ new_events w w'
     = [EvMkdir (Deno.dirname Ledger.LEDGER_PATH);
        EvWrite Ledger.LEDGER_PATH (text +:+ end_of_line)].
Proof.
  intros H prior text. apply saveLedgerEntry_inr in H as (_ & _ & ->).
  change (Deno.dirname Ledger.LEDGER_PATH) with "./output".
  split; [apply lookup_insert_eq|].
  split; [apply not_LF_stringify|].
  split; [intros p Hp; by apply lookup_insert_ne|].
  split; [apply elem_of_union_r, elem_of_list_to_set, list_elem_of_In; simpl; tauto|].
  split; [apply union_subseteq_l | apply new_events_appended].
Qed.

(** C8. A successful append leaves the ledger file equal to its prior
    content (nothing, for a missing file) followed by exactly one line: the
    compact JSON text of the envelope, which holds no line feed, and one line
    feed.  No other file changes, the directory of the ledger exists
    afterwards, no directory is lost, and the only effects are the making of
    that directory and the one write of that line. *)
Theorem append_one_line :
  forall (validate : Validator) (envelope : TranslationContractEnvelope) (w w' : World),
    Ledger.saveLedgerEntry validate envelope w = (inr (), w') ->
    let prior := default EmptyString (files w !! Ledger.LEDGER_PATH) in
    let text := stringify (envelope_json envelope) in
    files w' !! Ledger.LEDGER_PATH = Some (prior +:+ text +:+ end_of_line)
    /\ string_forall not_LF text = true
    /\ (forall p, p <> Ledger.LEDGER_PATH -> files w' !! p = files w !! p)
    /\ Deno.dirname Ledger.LEDGER_PATH ∈ dirs w'
    /\ dirs w ⊆ dirs w'
    /\ new_events w w'
       = [EvMkdir (Deno.dirname Ledger.LEDGER_PATH);
          EvWrite Ledger.LEDGER_PATH (text +:+ end_of_line)].
Proof. exact saveLedgerEntry_shape. Qed.

Lemma append_one_line_witness :
  let w := Fixtures.empty_world in
  let w' := appended (line_of Fixtures.valid_envelope +:+ end_of_line) w in
  let prior := default EmptyString (files w !! Ledger.LEDGER_PATH) in
  let text := stringify (envelope_json Fixtures.valid_envelope) in
  files w' !! Ledger.LEDGER_PATH = Some (prior +:+ text +:+ end_of_line)
  /\ string_forall not_LF text = true
  /\ (forall p, p <> Ledger.LEDGER_PATH -> files w' !! p = files w !! p)
  /\ Deno.dirname Ledger.LEDGER_PATH ∈ dirs w'
  /\ dirs w ⊆ dirs w'
  /\ new_events w w'
     = [EvMkdir (Deno.dirname Ledger.LEDGER_PATH);
        EvWrite Ledger.LEDGER_PATH (text +:+ end_of_line)].
Proof.
  apply (append_one_line SpecSchema.envelope_schema Fixtures.valid_envelope
           Fixtures.empty_world).
  vm_compute. reflexivity.
Defined.

(** ** Appending, then reading *)

Lemma braced_nonempty (l : string) : braced l -> Ledger.nonempty l = true.
Proof. by intros [x ->]. Qed.

Lemma join_lines_closed (ls : list string) :
  ls <> [] -> Forall braced ls ->
  exists s, join_lines ls = s +:+ String rbrace EmptyString.
Proof.
  induction ls as [|l [|l2 r] IH]; intros Hne H; [done | |].
  - inversion H as [|? ? [x ->] _]; subst. by exists (String lbrace x).
  - inversion H as [|? ? _ Hr]; subst.
    destruct (IH ltac:(done) Hr) as [s Hs].
    exists (l +:+ String LF s).
    change (join_lines (l :: l2 :: r)) with (l +:+ String LF (join_lines (l2 :: r))).
    by rewrite Hs, append_assoc.
Qed.

Lemma ledger_lines_unlines (ls : list string) :
  ls <> [] ->
  Forall braced ls ->
  Forall (fun l => string_forall not_LF l = true) ls ->
  Ledger.ledger_lines (unlines ls) = ls.
Proof.
  intros Hne Hb Hlf. unfold Ledger.ledger_lines.
  assert (trim (unlines ls) = join_lines ls) as ->.
  { destruct (join_lines_closed ls Hne Hb) as [s Hs].
    destruct ls as [|l r]; [done|].
    inversion Hb as [|? ? [x Hx] _]; subst.
    assert (unlines (String lbrace (x +:+ String rbrace EmptyString) :: r)
            = s +:+ String rbrace (String LF EmptyString)) as Hu.
    { rewrite unlines_join by done. rewrite Hs, append_assoc. reflexivity. }
    cbn [unlines] in *. rewrite append_cons in *.
    rewrite (trim_braces _ s Hu). by rewrite <- Hs. }
  rewrite (split_join_lines ls Hne Hlf).
  induction Hb as [|l r Hl _ IH]; [reflexivity|].
  cbn [List.filter]. rewrite (braced_nonempty l Hl).
  destruct r as [|l2 r]; [reflexivity|].
  inversion Hlf; subst. f_equal. by apply IH.
Qed.

Lemma parse_all_lines (envelopes : list TranslationContractEnvelope) :
  parse_all (map line_of envelopes) = Some (map envelope_json envelopes).
Proof.
  induction envelopes as [|e r IH]; [reflexivity|].
  cbn [map parse_all]. by rewrite parse_line, IH.
Qed.

Lemma storage_ready_appended (line : string) (w : World) :
  storage_ready w -> storage_ready (appended line w).
Proof.
  intros (Hd & Ho & Hp). unfold storage_ready, Deno.is_file in *. cbn [files dirs appended].
  rewrite !lookup_insert_ne by done.
  split; [exact Hd | split; [exact Ho|]].
  by rewrite ledger_path_not_made.
Qed.

(** After the appends the ledger holds its prior content and then the lines
    of the envelopes, in order. *)
Lemma save_all_run validate (envelopes : list TranslationContractEnvelope) (w : World) :
  Forall (envelope_valid validate) envelopes ->
  storage_ready w ->
  exists w',
    save_all validate envelopes w = (inr (), w')
    /\ storage_ready w'
    /\ files w' !! Ledger.LEDGER_PATH
       = match envelopes with
         | [] => files w !! Ledger.LEDGER_PATH
         | _ => Some (default EmptyString (files w !! Ledger.LEDGER_PATH)
                      +:+ unlines (map line_of envelopes))
         end.
Proof.
  intros Hv. revert w. induction Hv as [|e r He _ IH]; intros w Hr.
  - by exists w.
  - set (w1 := appended (line_of e +:+ end_of_line) w).
    destruct (IH w1 (storage_ready_appended _ w Hr)) as (w' & Hrun & Hr' & Hf).
    exists w'. split; [|split; [exact Hr'|]].
    + cbn [save_all]. by rewrite (bind_inr _ _ _ _ _ (saveLedgerEntry_succeeds _ _ _ He Hr)).
    + rewrite Hf. unfold w1 at 1 2. cbn [files appended]. rewrite lookup_insert_eq.
      change (default EmptyString (Some ?x)) with x. destruct r as [|e2 r].
      * reflexivity.
      * cbn [map unlines]. by rewrite !append_assoc.
Qed.

Lemma save_then_read validate (envelopes : list TranslationContractEnvelope) (w : World) :
  ledger_blank w ->
  storage_ready w ->
  Forall (envelope_valid validate) envelopes ->
  exists w',
    save_all validate envelopes w = (inr (), w')
    /\ Ledger.readLedger Ledger.LEDGER_PATH w' = (inr (map envelope_json envelopes), w').
Proof.
  intros Hblank Hr Hv.
  destruct (save_all_run validate envelopes w Hv Hr) as (w' & Hrun & Hr' & Hf).
  exists w'. split; [exact Hrun|].
  destruct envelopes as [|e r].
  - destruct Hblank as [Hb | Hb]; rewrite Hb in Hf.
    + apply readLedger_absent; [exact Hf | apply Hr'].
    + by rewrite (readLedger_file _ _ _ Hf).
  - assert (default EmptyString (files w !! Ledger.LEDGER_PATH) = EmptyString) as Hprior
      by (by destruct Hblank as [-> | ->]).
    rewrite Hprior, append_nil_l in Hf.
    rewrite (readLedger_file _ _ _ Hf).
    rewrite ledger_lines_unlines.
    + by rewrite parse_all_lines.
    + done.
    + apply Forall_map, Forall_forall. intros x _. apply braced_line.
    + apply Forall_map, Forall_forall. intros x _. apply not_LF_line.
Qed.

Lemma read_envelope_json (envelope : TranslationContractEnvelope) :
  read_envelope (envelope_json envelope) = Some envelope.
Proof.
  destruct envelope as [[i wf fl sl tl st tt [tr|] [] cf [ts tn sg]]]; reflexivity.
Qed.

Lemma read_envelopes (envelopes : list TranslationContractEnvelope) :
  map read_envelope (map envelope_json envelopes) = map Some envelopes.
Proof.
  induction envelopes as [|e r IH]; [reflexivity|].
  cbn [map]. by rewrite read_envelope_json, IH.
Qed.

(** C5. For every sequence of valid envelopes appended to a ledger that was
    absent or empty (and that nothing obstructs), every append succeeds and
    reading the ledger back returns exactly those envelopes, as many and in
    the order of the appends, each the object that was appended, so that
    every field reads back with the value it had. *)
Theorem append_then_read_round_trip :
  forall (validate : Validator) (envelopes : list TranslationContractEnvelope) (w : World),
    ledger_blank w ->
    storage_ready w ->
    Forall (envelope_valid validate) envelopes ->
    exists w' values,
      save_all validate envelopes w = (inr (), w')
      /\ Ledger.readLedger Ledger.LEDGER_PATH w' = (inr values, w')
      /\ length values = length envelopes
      /\ values = map envelope_json envelopes
      /\ map read_envelope values = map Some envelopes.
Proof.
  intros validate envelopes w Hb Hr Hv.
  destruct (save_then_read validate envelopes w Hb Hr Hv) as (w' & Hrun & Hread).
  exists w', (map envelope_json envelopes).
  split; [exact Hrun | split; [exact Hread|]].
  split; [apply length_map | split; [reflexivity | apply read_envelopes]].
Qed.

Lemma valid_fixture : envelope_valid SpecSchema.envelope_schema Fixtures.valid_envelope.
Proof.
  split; [by vm_compute|]. split; [intros H; discriminate H|].
  split; by vm_compute.
Qed.

Lemma reviewed_fixture : envelope_valid SpecSchema.envelope_schema Fixtures.reviewed_envelope.
Proof.
  split; [by vm_compute|]. split; [intros _; by eexists|].
  split; by vm_compute.
Qed.

Lemma empty_world_ready : storage_ready Fixtures.empty_world.
Proof.
  split; [by vm_compute|]. split; [by vm_compute|].
  apply (bool_decide_unpack _). by vm_compute.
Qed.

Lemma append_then_read_round_trip_witness :
  exists w' values,
    save_all SpecSchema.envelope_schema
      [Fixtures.valid_envelope; Fixtures.reviewed_envelope] Fixtures.empty_world
    = (inr (), w')
    /\ Ledger.readLedger Ledger.LEDGER_PATH w' = (inr values, w')
    /\ length values = length [Fixtures.valid_envelope; Fixtures.reviewed_envelope]
    /\ values = map envelope_json [Fixtures.valid_envelope; Fixtures.reviewed_envelope]
    /\ map read_envelope values
       = map Some [Fixtures.valid_envelope; Fixtures.reviewed_envelope].
Proof.
  apply (append_then_read_round_trip SpecSchema.envelope_schema
           [Fixtures.valid_envelope; Fixtures.reviewed_envelope] Fixtures.empty_world).
  - left. reflexivity.
  - exact empty_world_ready.
  - constructor; [exact valid_fixture|].
    constructor; [exact reviewed_fixture | constructor].
Defined.

(** ** The contract id *)

Lemma substring_0_take (n : nat) (s : string) : String.substring 0 n s = JsString.take n s.
Proof.
  revert s. induction n as [|n IH]; intros [|c s]; simpl; try reflexivity.
  by rewrite IH.
Qed.

Lemma js_substring_take (n : nat) (s : string) :
  (n <= String.length s)%nat ->
  JsString.substring 0 (Z.of_nat n) s = JsString.take n s.
Proof.
  intros H. unfold JsString.substring, len.
  replace (Z.max 0 (Z.min 0 (Z.of_nat (String.length s)))) with 0 by lia.
  replace (Z.max 0 (Z.min (Z.of_nat n) (Z.of_nat (String.length s)))) with (Z.of_nat n) by lia.
  replace (Z.min 0 (Z.of_nat n)) with 0 by lia.
  replace (Z.max 0 (Z.of_nat n) - 0) with (Z.of_nat n) by lia.
  rewrite Nat2Z.id. apply substring_0_take.
Qed.

Lemma hex_digit_printable (d : N) :
  (d < 16)%N ->
  printable_ascii (hex_digit d) = true.
Proof.
  intros H.
  assert (d = 0 \/ d = 1 \/ d = 2 \/ d = 3 \/ d = 4 \/ d = 5 \/ d = 6 \/ d = 7 \/ d = 8
          \/ d = 9 \/ d = 10 \/ d = 11 \/ d = 12 \/ d = 13 \/ d = 14 \/ d = 15)%N as Hd by lia.
  repeat (destruct Hd as [Hd|Hd]); subst; reflexivity.
Qed.

Lemma hex2_printable (b : N) :
  (b < 256)%N -> string_forall printable_ascii (hex2 b) = true.
Proof.
  intros H. unfold hex2. cbn [string_forall].
  rewrite !hex_digit_printable; [reflexivity | |].
  - apply N.mod_lt. lia.
  - apply N.Div0.div_lt_upper_bound. lia.
Qed.

(** The digest is 32 bytes; its first three are what the id shows. *)
Lemma digest_shape (msg : list N) :
  exists b0 b1 b2 rest,
    Sha256.digest msg = b0 :: b1 :: b2 :: rest
    /\ length rest = 29%nat
    /\ (b0 < 256)%N /\ (b1 < 256)%N /\ (b2 < 256)%N.
Proof.
  unfold Sha256.digest. destruct (Sha256.final_state msg) as [a b c d e f g h].
  unfold Sha256.state_bytes, Sha256.word_bytes. cbn [Sha256.ha app].
  do 4 eexists. split; [reflexivity|]. split; [reflexivity|].
  repeat split; apply N.mod_lt; lia.
Qed.

Lemma length_hex_join (bytes : list N) :
  String.length (hex_join bytes) = (2 * length bytes)%nat.
Proof.
  induction bytes as [|b r IH]; [reflexivity|].
  cbn [hex_join length]. unfold hex2. rewrite !append_cons, append_nil_l.
  cbn [String.length]. rewrite IH. lia.
Qed.

Lemma take6_hex_join (b0 b1 b2 : N) (rest : list N) :
  JsString.take 6 (hex_join (b0 :: b1 :: b2 :: rest)) = hex2 b0 +:+ hex2 b1 +:+ hex2 b2.
Proof. reflexivity. Qed.

Lemma id_shape (content : string) (now : Z) :
  "trans_" +:+ JsString.substring 0 6
                 (generateHash (content +:+ "_" +:+ toString (of_Z now)))
  = id_of_content content now
  /\ String.length (id_of_content content now) = 12%nat
  /\ string_forall printable_ascii (id_of_content content now) = true.
Proof.
  unfold id_of_content, generateHash.
  set (msg := encode _).
  destruct (digest_shape msg) as (b0 & b1 & b2 & rest & E & Hlen & H0 & H1 & H2).
  assert (String.length (hex_join (Sha256.digest msg)) = 64%nat) as Hl.
  { rewrite length_hex_join, E. simpl. rewrite Hlen. reflexivity. }
  split; [|split].
  - rewrite (js_substring_take 6) by lia. reflexivity.
  - rewrite E, take6_hex_join. reflexivity.
  - rewrite E, take6_hex_join.
    change (string_forall printable_ascii ("trans_" +:+ ?x))
      with (string_forall printable_ascii x).
    rewrite !string_forall_append.
    by rewrite (hex2_printable b0 H0), (hex2_printable b1 H1), (hex2_printable b2 H2).
Qed.

Lemma translateRequest_id validate provider input w envelope w' :
  Translate.translateRequest validate provider input w = (inr envelope, w') ->
  id (contract envelope)
  = "trans_" +:+ JsString.substring 0 6
                   (generateHash (pipeline_id_content input +:+ "_"
                                  +:+ toString (of_Z (clock w (ticks w))))).
Proof.
  unfold Translate.translateRequest. fold (params_of input).
  destruct (translate provider (params_of input)) as [e|res] eqn:Hp.
  - intros H. rewrite (bind_inl _ _ _ e (log (EvTranslate (params_of input)) w)) in H;
      [discriminate H | unfold call_translate; by rewrite Hp].
  - set (w1 := log (EvTranslate (params_of input)) w).
    assert (call_translate provider (params_of input) w = (inr res, w1)) as Hc
      by (unfold call_translate; by rewrite Hp).
    rewrite (bind_inr _ _ _ _ _ Hc).
    rewrite (bind_inr _ _ _ _ _ (buildContract_returns input _ _ w1)).
    unfold mbind, M_bind.
    destruct (Ledger.saveLedgerEntry validate _ (tick 2 w1)) as [[e|[]] w2];
      intros H; [discriminate H|].
    injection H as <- _. reflexivity.
Qed.

(** C4, as the code has it. The id of every contract the pipeline produces is
    "trans_" followed by the first six hexadecimal characters of the SHA-256
    of source language, target language and source text joined by "_", then
    "_" and the clock reading in decimal: twelve printable ASCII
    characters. *)
Theorem pipeline_contract_id :
  forall (validate : Validator) (provider : TranslationProvider)
         (input : TranslationRequestInput) (w w' : World)
         (envelope : TranslationContractEnvelope),
    Translate.translateRequest validate provider input w = (inr envelope, w') ->
    id (contract envelope)
    = id_of_content (pipeline_id_content input) (clock w (ticks w))
    /\ String.length (id (contract envelope)) = 12%nat
    /\ string_forall printable_ascii (id (contract envelope)) = true.
Proof.
  intros validate provider input w w' envelope H.
  rewrite (translateRequest_id _ _ _ _ _ _ H).
  destruct (id_shape (pipeline_id_content input) (clock w (ticks w))) as (-> & Hl & Hp).
  by repeat split.
Qed.

Lemma machine_request_run :
  exists envelope w',
    Translate.translateRequest SpecSchema.envelope_schema
      (Fixtures.mock "teste" Fixtures.n_0_95) (Fixtures.request machine None)
      Fixtures.empty_world = (inr envelope, w').
Proof. eexists _, _. vm_compute. reflexivity. Qed.

Lemma pipeline_contract_id_witness :
  exists envelope,
    id (contract envelope)
    = id_of_content (pipeline_id_content (Fixtures.request machine None))
        (clock Fixtures.empty_world (ticks Fixtures.empty_world))
    /\ String.length (id (contract envelope)) = 12%nat
    /\ string_forall printable_ascii (id (contract envelope)) = true.
Proof.
  eexists.
  eapply (pipeline_contract_id SpecSchema.envelope_schema
            (Fixtures.mock "teste" Fixtures.n_0_95) (Fixtures.request machine None)
            Fixtures.empty_world).
  vm_compute. reflexivity.
Defined.

(** C4, the counterexample: for the request of the pipeline tests (workflow
    and flow "test", source language "en") the id is not the one that hashing
    source text, target language, workflow and flow would give. *)
Lemma id_does_not_hash_workflow_and_flow :
  ~ id_hashes_spec_content SpecSchema.envelope_schema
      (Fixtures.mock "teste" Fixtures.n_0_95) (Fixtures.request machine None)
      Fixtures.empty_world.
Proof.
  intros H. destruct machine_request_run as (envelope & w' & Hrun).
  specialize (H envelope w' Hrun).
  rewrite (translateRequest_id _ _ _ _ _ _ Hrun) in H.
  vm_compute in H. discriminate H.
Qed.

(** ** The legacy module and the earlier ledger *)

(** contract.ts reads its ledger with the same code as ledger.ts. *)
Remark legacy_readLedger_same (path : string) :
  Contract.readLedger path = Ledger.readLedger path.
Proof. reflexivity. Qed.

(** contract.ts applies the same business rules, to the bare contract. *)
Lemma validateContract_ok validate (c : TranslationContract) (w : World) :
  fst (Contract.validateContract validate c w) = inr ()
  <-> validate (Contract.contract_json c) = []
      /\ (is_human_or_hybrid (method c) = true -> translator_present c)
      /\ in_unit_interval (confidence c).
Proof.
  rewrite in_unit_interval_iff, <- falsy_present.
  unfold Contract.validateContract.
  destruct (validate (Contract.contract_json c)) as [|err errs]; simpl.
  2: { split; [discriminate | intros [H _]; discriminate H]. }
  destruct (is_human_or_hybrid _), (falsy _),
    (ltb (confidence _) zero), (ltb one _); simpl;
    (split; [first [discriminate | intros _; repeat split; auto; discriminate]
            | first [reflexivity
                    | intros (_ & H & H1 & H2);
                      first [discriminate H1 | discriminate H2
                            | discriminate (H eq_refl)]]]).
Qed.

(** The earlier revision of the ledger has no gate: it writes the line of an
    envelope that the gate of ledger.ts refuses. *)
Remark draft_ledger_has_no_gate :
  exists w',
    LedgerDraft.saveLedgerEntry Fixtures.invalid_envelope (Fixtures.with_ledger EmptyString)
    = (inr (), w')
    /\ files w' !! LedgerDraft.LEDGER_PATH
       = Some (line_of Fixtures.invalid_envelope +:+ end_of_line).
Proof. eexists. split; by vm_compute. Qed.

(** The builder of the pipeline, unlike the legacy one, returns a contract
    for the parameters on which the legacy builder throws. *)
Remark pipeline_builder_accepts_confidence_1_5 :
  forall (w : World),
  exists c,
    Translate.buildContract (Fixtures.request machine None) "teste" Fixtures.n_1_5 w
    = (inr c, tick 2 w)
    /\ confidence c = Fixtures.n_1_5.
Proof. intros w. eexists. split; [apply buildContract_returns | reflexivity]. Qed.

(* ===================================================================== *)
(** * 22. Further properties                                               *)
(* ===================================================================== *)

(** ** utils/hash.ts: the shape of a hash *)

Lemma digest_bytes (msg : list N) :
  length (Sha256.digest msg) = 32%nat
  /\ Forall (fun b => (b < 256)%N) (Sha256.digest msg).
Proof.
  unfold Sha256.digest. destruct (Sha256.final_state msg) as [a b c d e f g h].
  unfold Sha256.state_bytes, Sha256.word_bytes. cbn [Sha256.ha app].
  split; [reflexivity|].
  repeat (apply Forall_cons; split; [apply N.mod_lt; lia|]). apply Forall_nil_2.
Qed.

Lemma hex_digit_lower (d : N) : (d < 16)%N -> lower_hex (hex_digit d) = true.
Proof.
  intros H.
  assert (d = 0 \/ d = 1 \/ d = 2 \/ d = 3 \/ d = 4 \/ d = 5 \/ d = 6 \/ d = 7 \/ d = 8
          \/ d = 9 \/ d = 10 \/ d = 11 \/ d = 12 \/ d = 13 \/ d = 14 \/ d = 15)%N as Hd by lia.
  repeat (destruct Hd as [Hd|Hd]); subst; reflexivity.
Qed.

Lemma hex_join_lower (bytes : list N) :
  Forall (fun b => (b < 256)%N) bytes ->
  string_forall lower_hex (hex_join bytes) = true.
Proof.
  induction 1 as [|b r Hb _ IH]; [reflexivity|].
  cbn [hex_join]. rewrite string_forall_append, IH, andb_true_r.
  unfold hex2. cbn [string_forall].
  rewrite !hex_digit_lower; [reflexivity | |].
  - apply N.mod_lt. lia.
  - apply N.Div0.div_lt_upper_bound. lia.
Qed.

(** X1. Whatever the input, the empty string included, generateHash returns
    64 characters, each a digit of lower-case hexadecimal. *)
Theorem generateHash_shape :
  forall (input : string),
    String.length (generateHash input) = 64%nat
    /\ string_forall lower_hex (generateHash input) = true.
Proof.
  intros input. unfold generateHash.
  destruct (digest_bytes (encode input)) as [Hlen Hall].
  split; [by rewrite length_hex_join, Hlen | by apply hex_join_lower].
Qed.

(** ** translate.ts: the outcomes of translateRequest *)

Lemma translateRequest_provider_fails validate provider input w e :
  translate provider (params_of input) = inl e ->
  Translate.translateRequest validate provider input w
  = (inl e, log (EvTranslate (params_of input)) w).
Proof.
  intros Hp. unfold Translate.translateRequest. fold (params_of input).
  apply bind_inl. unfold call_translate. by rewrite Hp.
Qed.

Lemma translateRequest_provider_answers validate provider input w r :
  translate provider (params_of input) = inr r ->
  Translate.translateRequest validate provider input w
  = match Ledger.saveLedgerEntry validate (pipeline_envelope input r w)
            (tick 2 (log (EvTranslate (params_of input)) w)) with
    | (inr _, w') => (inr (pipeline_envelope input r w), w')
    | (inl e, w') => (inl e, w')
    end.
Proof.
  intros Hp. unfold Translate.translateRequest. fold (params_of input).
  set (w1 := log (EvTranslate (params_of input)) w).
  assert (call_translate provider (params_of input) w = (inr r, w1)) as Hc
    by (unfold call_translate; by rewrite Hp).
  rewrite (bind_inr _ _ _ _ _ Hc).
  rewrite (bind_inr _ _ _ _ _ (buildContract_returns input _ _ w1)).
  change (clock w1) with (clock w). change (ticks w1) with (ticks w).
  destruct (id_shape (pipeline_id_content input) (clock w (ticks w))) as [-> _].
  fold (pipeline_contract input r (clock w (ticks w)) (clock w (S (ticks w)))).
  fold (pipeline_envelope input r w).
  unfold mbind, M_bind.
  by destruct (Ledger.saveLedgerEntry validate _ (tick 2 w1)) as [[e|[]] w2].
Qed.

Lemma storage_ready_same (w w1 : World) :
  files w1 = files w -> dirs w1 = dirs w -> storage_ready w1 <-> storage_ready w.
Proof.
  intros Hf Hd. unfold storage_ready, Deno.is_file. by rewrite Hf, Hd.
Qed.

Lemma translateRequest_outcome :
  forall (validate : Validator) (provider : TranslationProvider)
         (input : TranslationRequestInput) (w : World),
    (forall r,
        translate provider (params_of input) = inr r ->
        envelope_valid validate (pipeline_envelope input r w) ->
        storage_ready w ->
        exists w',
          Translate.translateRequest validate provider input w
          = (inr (pipeline_envelope input r w), w')
          /\ files w'
             = <[ Ledger.LEDGER_PATH :=
                    ledger_content w +:+ line_of (pipeline_envelope input r w)
                    +:+ end_of_line ]> (files w)
          /\ ticks w' = (2 + ticks w)%nat
          /\ new_events w w'
             = [ EvTranslate (params_of input);
                 EvMkdir "./output";
                 EvWrite Ledger.LEDGER_PATH
                   (line_of (pipeline_envelope input r w) +:+ end_of_line) ])
    /\ (forall envelope w',
          Translate.translateRequest validate provider input w = (inr envelope, w') ->
          exists r,
            translate provider (params_of input) = inr r
            /\ envelope = pipeline_envelope input r w
            /\ envelope_valid validate envelope
            /\ storage_ready w).
Proof.
  intros validate provider input w. split.
  - intros r Hp Hv Hr.
    rewrite (translateRequest_provider_answers _ _ _ _ _ Hp).
    set (w1 := tick 2 (log (EvTranslate (params_of input)) w)).
    assert (storage_ready w1) as Hr1 by by apply (storage_ready_same w w1).
    rewrite (saveLedgerEntry_succeeds _ _ _ Hv Hr1).
    eexists. split; [reflexivity|]. split; [|split].
    + reflexivity.
    + reflexivity.
    + apply new_events_app. cbn [trace appended w1 tick log].
      by rewrite <- !app_assoc.
  - intros envelope w' H.
    destruct (translate provider (params_of input)) as [e|r] eqn:Hp.
    + rewrite (translateRequest_provider_fails _ _ _ _ _ Hp) in H. discriminate H.
    + rewrite (translateRequest_provider_answers _ _ _ _ _ Hp) in H.
      destruct (Ledger.saveLedgerEntry validate _ _) as [[e|[]] w2] eqn:Hs;
        [discriminate H|].
      injection H as <- <-.
      apply saveLedgerEntry_inr in Hs as (Hv & Hr & _).
      exists r. split; [reflexivity|]. split; [reflexivity|]. split; [exact Hv|].
      by apply (storage_ready_same w (tick 2 (log (EvTranslate (params_of input)) w))).
Qed.

(** X2. translateRequest succeeds exactly when the provider answers, the
    envelope built from the request and the answer passes the gate of the
    ledger, and nothing obstructs the ledger.  It then returns that envelope:
    the fields of the request, the text and the confidence of the provider,
    an id from the first reading of the clock, a timestamp from the second
    and an empty signature; the ledger file has grown by the line of that
    envelope, and the effects are the provider call, the directory and the
    one write, in this order. *)
Theorem translateRequest_success :
  forall (validate : Validator) (provider : TranslationProvider)
         (input : TranslationRequestInput) (w : World),
    (forall r,
        translate provider (params_of input) = inr r ->
        envelope_valid validate (pipeline_envelope input r w) ->
        storage_ready w ->
        exists w',
          Translate.translateRequest validate provider input w
          = (inr (pipeline_envelope input r w), w')
          /\ files w'
             = <[ Ledger.LEDGER_PATH :=
                    ledger_content w +:+ line_of (pipeline_envelope input r w)
                    +:+ end_of_line ]> (files w)
          /\ ticks w' = (2 + ticks w)%nat
          /\ new_events w w'
             = [ EvTranslate (params_of input);
                 EvMkdir "./output";
                 EvWrite Ledger.LEDGER_PATH
                   (line_of (pipeline_envelope input r w) +:+ end_of_line) ])
    /\ (forall envelope w',
          Translate.translateRequest validate provider input w = (inr envelope, w') ->
          exists r,
            translate provider (params_of input) = inr r
            /\ envelope = pipeline_envelope input r w
            /\ envelope_valid validate envelope
            /\ storage_ready w).
Proof. exact translateRequest_outcome. Qed.

Lemma translateRequest_success_witness :
  exists w',
    Translate.translateRequest SpecSchema.envelope_schema
      (Fixtures.mock "teste" Fixtures.n_0_95) (Fixtures.request machine None)
      Fixtures.empty_world
    = (inr (pipeline_envelope (Fixtures.request machine None)
              {| translatedText := "teste"; result_confidence := Fixtures.n_0_95 |}
              Fixtures.empty_world), w')
    /\ files w'
       = <[ Ledger.LEDGER_PATH :=
              ledger_content Fixtures.empty_world
              +:+ line_of (pipeline_envelope (Fixtures.request machine None)
                             {| translatedText := "teste";
                                result_confidence := Fixtures.n_0_95 |}
                             Fixtures.empty_world)
              +:+ end_of_line ]> (files Fixtures.empty_world)
    /\ ticks w' = (2 + ticks Fixtures.empty_world)%nat
    /\ new_events Fixtures.empty_world w'
       = [ EvTranslate (params_of (Fixtures.request machine None));
           EvMkdir "./output";
           EvWrite Ledger.LEDGER_PATH
             (line_of (pipeline_envelope (Fixtures.request machine None)
                         {| translatedText := "teste";
                            result_confidence := Fixtures.n_0_95 |}
                         Fixtures.empty_world) +:+ end_of_line) ].
Proof.
  apply (proj1 (translateRequest_success SpecSchema.envelope_schema
                  (Fixtures.mock "teste" Fixtures.n_0_95) (Fixtures.request machine None)
                  Fixtures.empty_world)).
  - reflexivity.
  - split; [by vm_compute|]. split; [discriminate|]. split; by vm_compute.
  - split; [by vm_compute|]. split; [by vm_compute|]. apply not_elem_of_empty.
Defined.

(** ** ledger.ts: failures of the file system *)

Lemma write_line_fails (line : string) (w : World) (e : JsError) (w' : World) :
  write_line line w = (inl e, w') ->
  (exists cause, e = write_failure cause)
  /\ files w' = files w
  /\ ~ storage_ready w.
Proof.
  intros H.
  destruct (write_line_cases line w) as [[_ Hw] | [Hn _]];
    [rewrite Hw in H; discriminate H|].
  split; [|split; [|exact Hn]].
  - revert H. unfold write_line, try_catch.
    destruct (_ ≫= _) as [[e1|[]] w1]; [|discriminate].
    intros [= <- _]. by eexists.
  - revert H. unfold write_line, try_catch.
    change (JsString.substring 0 (lastIndexOf Deno.slash Ledger.LEDGER_PATH)
              Ledger.LEDGER_PATH) with "./output".
    cbv zeta. unfold mbind, M_bind. rewrite mkdir_output.
    destruct (Deno.is_file w "./output"); [by intros [= _ <-]|].
    destruct (Deno.is_file w "." || _); [by intros [= _ <-]|].
    rewrite write_ledger.
    destruct (bool_decide _); [by intros [= _ <-]|].
    destruct (negb _); [by intros [= _ <-] | discriminate].
Qed.



Lemma write_line_trace (line : string) (w : World) :
  exists evs, trace (snd (write_line line w)) = trace w ++ evs.
Proof.
  unfold write_line, try_catch.
  change (JsString.substring 0 (lastIndexOf Deno.slash Ledger.LEDGER_PATH)
            Ledger.LEDGER_PATH) with "./output".
  cbv zeta. unfold mbind, M_bind. rewrite mkdir_output.
  destruct (Deno.is_file w "./output"); [by eexists|].
  destruct (Deno.is_file w "." || _); [by eexists|].
  rewrite write_ledger. cbn [dirs files clock ticks trace].
  destruct (bool_decide _); [eexists; cbn [throw snd log trace]; by rewrite <- app_assoc|].
  destruct (negb _); eexists; cbn [throw snd log trace]; by rewrite <- app_assoc.
Qed.

Lemma translateRequest_failure_files :
  forall (validate : Validator) (provider : TranslationProvider)
         (input : TranslationRequestInput) (w : World) (e : JsError) (w' : World),
    Translate.translateRequest validate provider input w = (inl e, w') ->
    files w' = files w
    /\ exists rest, new_events w w' = EvTranslate (params_of input) :: rest.
Proof.
  intros validate provider input w e w' H.
  destruct (translate provider (params_of input)) as [pe|r] eqn:Hp.
  - rewrite (translateRequest_provider_fails _ _ _ _ _ Hp) in H.
    injection H as _ <-. split; [reflexivity|].
    exists []. by apply new_events_app.
  - rewrite (translateRequest_provider_answers _ _ _ _ _ Hp) in H.
    set (w1 := tick 2 (log (EvTranslate (params_of input)) w)) in *.
    assert (trace w1 = trace w ++ [EvTranslate (params_of input)]) as Ht by reflexivity.
    assert (files w1 = files w) as Hf1 by reflexivity.
    clearbody w1.
    rewrite saveLedgerEntry_unfold in H.
    pose proof (validateEnvelope_pure validate (pipeline_envelope input r w) w1) as Hpure.
    destruct (Ledger.validateEnvelope validate _ w1) as [[ve|[]] w2]; simpl in Hpure; subst w2.
    + injection H as _ <-. split; [exact Hf1|].
      exists []. by apply new_events_app.
    + destruct (write_line_trace (line_of (pipeline_envelope input r w) +:+ end_of_line) w1)
        as [evs Hevs].
      destruct (write_line _ w1) as [[we|[]] w3] eqn:Hw; [|discriminate H].
      injection H as _ <-.
      pose proof (write_line_fails _ _ _ _ Hw) as (_ & Hf & _).
      split; [by rewrite Hf|].
      exists evs. apply new_events_app. simpl in Hevs. by rewrite Hevs, Ht, <- app_assoc.
Qed.

(** X4. A translateRequest that fails has changed no file, whatever made it
    fail: the provider, the gate of the ledger or the file system.  The
    provider has been called all the same, first of all. *)
Theorem failed_request_keeps_files :
  forall (validate : Validator) (provider : TranslationProvider)
         (input : TranslationRequestInput) (w : World) (e : JsError) (w' : World),
    Translate.translateRequest validate provider input w = (inl e, w') ->
    files w' = files w
    /\ exists rest, new_events w w' = EvTranslate (params_of input) :: rest.
Proof. exact translateRequest_failure_files. Qed.

Lemma failed_request_keeps_files_witness :
  files (log (EvTranslate (params_of (Fixtures.request human None))) Fixtures.empty_world)
  = files Fixtures.empty_world
  /\ exists rest,
       new_events Fixtures.empty_world
         (log (EvTranslate (params_of (Fixtures.request human None))) Fixtures.empty_world)
       = EvTranslate (params_of (Fixtures.request human None)) :: rest.
Proof.
  apply (failed_request_keeps_files SpecSchema.envelope_schema Fixtures.failing_mock
           (Fixtures.request human None) Fixtures.empty_world
           (new_Error "Mock translation failed (simulated)")).
  reflexivity.
Defined.

(** ** ledger.ts: reading a blank file, reading a directory *)

Lemma trimStart_blank (s : string) :
  string_forall blank s = true -> trimStart s = EmptyString.
Proof.
  induction s as [|c s IH]; [reflexivity|].
  cbn [string_forall]. unfold blank at 1. intros [Hc Hs]%andb_true_iff.
  cbn [trimStart]. rewrite Hc. by apply IH.
Qed.

Lemma ledger_lines_blank (content : string) :
  string_forall blank content = true -> Ledger.ledger_lines content = [].
Proof.
  intros H. unfold Ledger.ledger_lines, trim. by rewrite (trimStart_blank _ H).
Qed.

(** X5. A ledger file that is empty, or holds nothing but white space and
    line ends, reads as the empty sequence.  A directory in the place of the
    ledger does not: only the absence of the file is taken for an empty
    ledger, any other failure of the read is thrown on. *)
Theorem read_blank_or_directory :
  forall (w : World) (path : string),
    (forall content,
        files w !! path = Some content ->
        string_forall blank content = true ->
        Ledger.readLedger path w = (inr [], w))
    /\ (files w !! path = None ->
        path ∈ dirs w ->
        exists e, Ledger.readLedger path w = (inl e, w)).
Proof.
  intros w path. split.
  - intros content Hf Hb. by rewrite (readLedger_file _ _ _ Hf), (ledger_lines_blank _ Hb).
  - intros Hf Hd. unfold Ledger.readLedger, try_catch, mbind, M_bind, Deno.readTextFile.
    rewrite Hf, bool_decide_eq_true_2 by exact Hd. by eexists.
Qed.

Lemma read_blank_or_directory_witness :
  Ledger.readLedger Ledger.LEDGER_PATH
    (Fixtures.with_ledger (String LF (String " " (String LF EmptyString))))
  = (inr [], Fixtures.with_ledger (String LF (String " " (String LF EmptyString)))).
Proof.
  apply (proj1 (read_blank_or_directory
                  (Fixtures.with_ledger (String LF (String " " (String LF EmptyString))))
                  Ledger.LEDGER_PATH)
           (String LF (String " " (String LF EmptyString)))).
  - reflexivity.
  - reflexivity.
Defined.

(** ** contract.ts: the legacy builder *)

Lemma validateContract_pure validate (c : TranslationContract) (w : World) :
  snd (Contract.validateContract validate c w) = w.
Proof.
  unfold Contract.validateContract.
  repeat match goal with |- context [if ?b then _ else _] => destruct b end;
    reflexivity.
Qed.

Lemma legacy_buildContract_unfold validate (params : Contract.BuildContractParams) (w : World) :
  Contract.buildContract validate params w
  = let c := legacy_contract params (clock w (ticks w)) (clock w (S (ticks w))) in
    match Contract.validateContract validate c (tick 2 w) with
    | (inr _, w') => (inr c, w')
    | (inl e, w') => (inl e, w')
    end.
Proof.
  unfold Contract.buildContract.
  rewrite (bind_inr _ _ _ _ _ (generateContractId_eq _ w)).
  rewrite (bind_inr _ _ _ _ _ (generateTimestamp_eq (tick 1 w))).
  fold (legacy_id_content params).
  destruct (id_shape (legacy_id_content params) (clock w (ticks w))) as [-> _].
  cbv zeta. unfold mbind, M_bind.
  change (tick 1 (tick 1 w)) with (tick 2 w).
  change (clock (tick 1 w) (ticks (tick 1 w))) with (clock w (S (ticks w))).
  fold (legacy_contract params (clock w (ticks w)) (clock w (S (ticks w)))).
  by destruct (Contract.validateContract validate _ (tick 2 w)) as [[e|[]] w2].
Qed.

(** X6. The legacy buildContract returns a contract exactly when the
    contract it assembles passes validateContract (schema, translator rule,
    confidence range), and it returns that contract: the fields of the
    parameters, an empty translator left out, a missing signature as the
    empty string, the id hashed from source text, target language, workflow
    and flow with the first reading of the clock, the timestamp from the
    second.  Either way it only reads the clock, twice. *)
Theorem legacy_builder_returns_checked :
  forall (validate : Validator) (params : Contract.BuildContractParams) (w : World),
    let c := legacy_contract params (clock w (ticks w)) (clock w (S (ticks w))) in
    (contract_valid validate c ->
     Contract.buildContract validate params w = (inr c, tick 2 w))
    /\ (forall c' w',
          Contract.buildContract validate params w = (inr c', w') ->
          c' = c /\ w' = tick 2 w /\ contract_valid validate c')
    /\ (forall e w',
          Contract.buildContract validate params w = (inl e, w') ->
          w' = tick 2 w /\ ~ contract_valid validate c).
Proof.
  intros validate params w c. rewrite legacy_buildContract_unfold. fold c. cbv zeta.
  pose proof (validateContract_pure validate c (tick 2 w)) as Hpure.
  pose proof (validateContract_ok validate c (tick 2 w)) as Hok. fold (contract_valid validate c) in Hok.
  destruct (Contract.validateContract validate c (tick 2 w)) as [[e|[]] w2];
    simpl in Hpure, Hok; subst w2.
  - split; [|split].
    + intros Hv. apply Hok in Hv. discriminate Hv.
    + intros c' w' [=].
    + intros e' w' [= _ <-]. split; [reflexivity|]. intros Hv. apply Hok in Hv. discriminate Hv.
  - split; [|split].
    + reflexivity.
    + intros c' w' [= <- <-]. repeat split; try reflexivity; by apply Hok.
    + intros e' w' [=].
Qed.

Lemma legacy_builder_returns_checked_witness :
  Contract.buildContract LegacyFixtures.contract_schema LegacyFixtures.params
    Fixtures.empty_world
  = (inr (legacy_contract LegacyFixtures.params
            (clock Fixtures.empty_world (ticks Fixtures.empty_world))
            (clock Fixtures.empty_world (S (ticks Fixtures.empty_world)))),
     tick 2 Fixtures.empty_world).
Proof.
  apply (proj1 (legacy_builder_returns_checked LegacyFixtures.contract_schema
                  LegacyFixtures.params Fixtures.empty_world)).
  split; [by vm_compute|]. split; [discriminate|]. split; by vm_compute.
Defined.

(** ** contract.ts: a ledger at any path *)

















(** ** utils/time.ts: the calendar *)

Lemma days_in_month_31 (y m : Z) :
  m = 1 \/ m = 3 \/ m = 5 \/ m = 7 \/ m = 8 \/ m = 10 \/ m = 12 ->
  Date.days_in_month y m = 31.
Proof. intros H. repeat (destruct H as [-> | H]); try subst m; reflexivity. Qed.

Lemma days_in_month_30 (y m : Z) :
  m = 4 \/ m = 6 \/ m = 9 \/ m = 11 -> Date.days_in_month y m = 30.
Proof. intros H. repeat (destruct H as [-> | H]); try subst m; reflexivity. Qed.

Lemma days_in_month_february (y : Z) :
  28 <= Date.days_in_month y 2 <= 29
  /\ (y mod 4 = 0 /\ (y mod 100 <> 0 \/ y mod 400 = 0) -> Date.days_in_month y 2 = 29).
Proof.
  unfold Date.days_in_month, Date.is_leap. cbn [Z.eqb Pos.eqb].
  destruct (Z.eqb_spec (y mod 4) 0), (Z.eqb_spec (y mod 100) 0), (Z.eqb_spec (y mod 400) 0);
    cbn [andb orb negb]; lia.
Qed.

Lemma civil_of_doe_ok (doe : Z) :
  0 <= doe < 146097 ->
  exists y m d,
    civil_of_doe doe = (y, m, d)
    /\ 1 <= m <= 12
    /\ 1 <= d <= Date.days_in_month y m
    /\ Date.days_from_civil y m d = doe - 719468
    /\ 0 <= y <= 400.
Proof.
  intros H. unfold civil_of_doe. cbv zeta.
  set (yoe := (doe - doe / 1460 + doe / 36524 - doe / 146096) / 365).
  set (doy := doe - (365 * yoe + yoe / 4 - yoe / 100)).
  set (mp := (5 * doy + 2) / 153).
  set (q := (153 * mp + 2) / 5).
  assert (0 <= yoe <= 399) as Hy by (subst yoe; Z.div_mod_to_equations; lia).
  assert (0 <= doy <= 365) as Hd by (subst doy yoe; Z.div_mod_to_equations; lia).
  assert (doy = 365 -> (yoe + 1) mod 4 = 0 /\ ((yoe + 1) mod 100 <> 0 \/ (yoe + 1) mod 400 = 0))
    as Hleap by (subst doy yoe; Z.div_mod_to_equations; lia).
  assert (doe = yoe * 365 + yoe / 4 - yoe / 100 + doy) as Hdoe by (subst doy; lia).
  clearbody doy. clearbody yoe.
  assert (153 * mp <= 5 * doy + 2 < 153 * mp + 153) as Hmp
    by (subst mp; Z.div_mod_to_equations; lia).
  assert (5 * q <= 153 * mp + 2 < 5 * q + 5) as Hq
    by (subst q; Z.div_mod_to_equations; lia).
  assert (q = (153 * mp + 2) / 5) as Hq_def by reflexivity.
  clearbody q. clearbody mp.
  set (m := if mp <? 10 then mp + 3 else mp - 9).
  assert ((mp < 10 /\ m = mp + 3) \/ (10 <= mp /\ m = mp - 9)) as Hm
    by (subst m; destruct (Z.ltb_spec mp 10); lia).
  clearbody m.
  set (y := yoe + (if m <=? 2 then 1 else 0)).
  assert ((2 < m /\ y = yoe) \/ (m <= 2 /\ y = yoe + 1)) as Hyear
    by (subst y; destruct (Z.leb_spec m 2); lia).
  clearbody y.
  exists y, m, (doy - q + 1). split; [reflexivity|]. split; [lia|].
  split; [|split; [|lia]].
  - assert (m = 1 \/ m = 3 \/ m = 5 \/ m = 7 \/ m = 8 \/ m = 10 \/ m = 12
            \/ (m = 4 \/ m = 6 \/ m = 9 \/ m = 11) \/ m = 2) as Hcases by lia.
    destruct Hcases as [E|[E|[E|[E|[E|[E|[E|[E|E]]]]]]]];
      try (rewrite (days_in_month_31 y m) by lia; lia);
      try (rewrite (days_in_month_30 y m) by lia; lia).
    subst m. assert (y = yoe + 1) as -> by lia.
    destruct (days_in_month_february (yoe + 1)) as [Hb Hl].
    destruct (Z.eq_dec doy 365) as [E|E].
    + rewrite (Hl (Hleap E)). lia.
    + lia.
  - unfold Date.days_from_civil. cbv zeta.
    replace (if m <=? 2 then y - 1 else y) with yoe by (destruct (Z.leb_spec m 2); lia).
    replace (if 2 <? m then m - 3 else m + 9) with mp by (destruct (Z.ltb_spec 2 m); lia).
    replace (yoe / 400) with 0 by (symmetry; apply Z.div_small; lia).
    rewrite <- Hq_def. replace (yoe - 0 * 400) with yoe by lia. lia.
Qed.

Lemma civil_from_days_cycle (days : Z) :
  civil_from_days days
  = let z := days + 719468 in
    let '(y, m, d) := civil_of_doe (z mod 146097) in
    (y + z / 146097 * 400, m, d).
Proof.
  unfold civil_from_days, civil_of_doe. cbv zeta.
  replace (days + 719468 - (days + 719468) / 146097 * 146097)
    with ((days + 719468) mod 146097)
    by (rewrite Z.mod_eq by lia; lia).
  f_equal. f_equal. lia.
Qed.

Lemma is_leap_shift (y k : Z) : Date.is_leap (y + k * 400) = Date.is_leap y.
Proof.
  unfold Date.is_leap.
  replace ((y + k * 400) mod 4) with (y mod 4)
    by (replace (k * 400) with (k * 100 * 4) by lia; by rewrite Z_mod_plus_full).
  replace ((y + k * 400) mod 100) with (y mod 100)
    by (replace (k * 400) with (k * 4 * 100) by lia; by rewrite Z_mod_plus_full).
  by rewrite Z_mod_plus_full.
Qed.

Lemma days_in_month_shift (y k m : Z) :
  Date.days_in_month (y + k * 400) m = Date.days_in_month y m.
Proof. unfold Date.days_in_month. by rewrite is_leap_shift. Qed.

Lemma days_from_civil_shift (y k m d : Z) :
  Date.days_from_civil (y + k * 400) m d = Date.days_from_civil y m d + k * 146097.
Proof.
  unfold Date.days_from_civil. cbv zeta.
  replace (if m <=? 2 then y + k * 400 - 1 else y + k * 400)
    with ((if m <=? 2 then y - 1 else y) + k * 400) by (destruct (m <=? 2); lia).
  set (y' := if m <=? 2 then y - 1 else y).
  rewrite Z.div_add by lia.
  replace (y' + k * 400 - (y' / 400 + k) * 400) with (y' - y' / 400 * 400) by lia.
  lia.
Qed.

(** The date of a day number is a date of the calendar, and the day number
    of that date is the one it came from. *)
Lemma civil_round_trip (days : Z) :
  exists y m d,
    civil_from_days days = (y, m, d)
    /\ 1 <= m <= 12
    /\ 1 <= d <= Date.days_in_month y m
    /\ Date.days_from_civil y m d = days
    /\ (days + 719468) / 146097 * 400 <= y <= (days + 719468) / 146097 * 400 + 400.
Proof.
  rewrite civil_from_days_cycle. cbv zeta.
  set (z := days + 719468).
  pose proof (Z.mod_pos_bound z 146097 ltac:(lia)) as Hdoe.
  destruct (civil_of_doe_ok (z mod 146097) Hdoe) as (y & m & d & -> & Hm & Hd & Hback & Hy).
  exists (y + z / 146097 * 400), m, d.
  split; [reflexivity|].
  rewrite days_in_month_shift, days_from_civil_shift.
  pose proof (Z.div_mod z 146097 ltac:(lia)).
  lia.
Qed.

(** ** utils/time.ts: the digits of a field *)

Lemma length_digits_le (w : nat) (n : N) :
  (1 <= w)%nat -> (n < 10 ^ N.of_nat w)%N -> (length (digits n) <= w)%nat.
Proof.
  intros Hw Hn.
  destruct (digits_spec n) as (d & ds & E & Hall & Hval & Hhd). rewrite E.
  destruct (N.eq_dec n 0%N) as [->|Hne].
  - change (digits 0%N) with [0%N] in E. injection E as <- <-. simpl. lia.
  - specialize (Hhd Hne).
    cbn [digits_val] in Hval. rewrite digits_val_shift in Hval.
    assert (10 ^ N.of_nat (length ds) <= n)%N as Hlow by nia.
    assert (N.of_nat (length ds) < N.of_nat w)%N as Hlt.
    { apply (N.pow_lt_mono_r_iff 10); lia. }
    cbn [length]. lia.
Qed.

Lemma take_digits_string (l : list N) (acc : Z) (rest : string) :
  Forall is_digit l -> 0 <= acc ->
  Date.take_digits (length l) acc (digits_string l +:+ rest)
  = Some (Z.of_N (digits_val (Z.to_N acc) l), rest).
Proof.
  intros Hall. revert acc. induction Hall as [|d l Hd _ IH]; intros acc Hacc.
  - cbn. by rewrite Z2N.id.
  - cbn [length digits_string Date.take_digits]. rewrite append_cons.
    rewrite (digit_val_char d Hd). rewrite IH by lia.
    cbn [digits_val].
    by replace (Z.to_N (10 * acc + Z.of_N d)) with (10 * Z.to_N acc + d)%N by lia.
Qed.

Lemma pad_digits_list (w : nat) (v : Z) :
  (1 <= w)%nat -> 0 <= v < 10 ^ Z.of_nat w ->
  exists l,
    pad_digits w v = digits_string l
    /\ length l = w
    /\ Forall is_digit l
    /\ digits_val 0 l = Z.to_N v.
Proof.
  intros Hw Hv. unfold pad_digits.
  set (ds := digits (Z.to_N v)).
  assert (Z.to_N v < 10 ^ N.of_nat w)%N as Hn.
  { apply N2Z.inj_lt. rewrite Z2N.id, N2Z.inj_pow by lia.
    change (Z.of_N 10) with 10. rewrite nat_N_Z. apply Hv. }
  pose proof (length_digits_le w (Z.to_N v) Hw Hn) as Hlen. fold ds in Hlen.
  destruct (digits_spec (Z.to_N v)) as (d & r & E & Hall & Hval & _). fold ds in E.
  exists (repeat 0%N (w - length ds) ++ ds). split; [reflexivity|]. split; [|split].
  - rewrite length_app, repeat_length. lia.
  - apply Forall_app. split; [|by rewrite E].
    apply Forall_forall. intros x Hx%list_elem_of_In%repeat_spec. subst. unfold is_digit. lia.
  - rewrite digits_val_app, digits_val_zeros. simpl. by rewrite E.
Qed.

Lemma take_pad (w : nat) (v : Z) (rest : string) :
  (1 <= w)%nat -> 0 <= v < 10 ^ Z.of_nat w ->
  Date.take_digits w 0 (pad_digits w v +:+ rest) = Some (v, rest).
Proof.
  intros Hw Hv. destruct (pad_digits_list w v Hw Hv) as (l & -> & Hlen & Hall & Hval).
  rewrite <- Hlen at 1. rewrite take_digits_string by (done || lia).
  simpl. rewrite Hval, Z2N.id by lia. reflexivity.
Qed.

Lemma matches_app (p q : list (ascii -> bool)) (a b : string) :
  matches p a = true -> matches q b = true -> matches (p ++ q) (a +:+ b) = true.
Proof.
  revert a. induction p as [|x p IH]; intros [|c a] Ha Hb; try discriminate Ha.
  - by rewrite append_nil_l.
  - cbn [matches] in Ha. apply andb_true_iff in Ha as [Hx Ha].
    rewrite append_cons. cbn [app matches]. rewrite Hx. by apply IH.
Qed.

Lemma matches_digits (l : list N) :
  Forall is_digit l -> matches (repeat digit_char_b (length l)) (digits_string l) = true.
Proof.
  induction 1 as [|d l Hd _ IH]; [reflexivity|].
  cbn [length repeat digits_string matches]. rewrite IH, andb_true_r.
  unfold digit_char_b. by rewrite (digit_val_char d Hd).
Qed.

Lemma matches_pad (w : nat) (v : Z) :
  (1 <= w)%nat -> 0 <= v < 10 ^ Z.of_nat w ->
  matches (repeat digit_char_b w) (pad_digits w v) = true.
Proof.
  intros Hw Hv. destruct (pad_digits_list w v Hw Hv) as (l & -> & Hlen & Hall & _).
  rewrite <- Hlen. by apply matches_digits.
Qed.

(** ** utils/time.ts: reading back what toISOString writes *)

Lemma toISOString_fields (ms : Z) :
  toISOString ms
  = let rest := ms mod 86400000 in
    let '(y, m, d) := civil_from_days (ms / 86400000) in
    year_text y +:+ "-" +:+ pad_digits 2 m +:+ "-" +:+ pad_digits 2 d +:+ "T"
    +:+ pad_digits 2 (rest / 3600000) +:+ ":"
    +:+ pad_digits 2 ((rest / 60000) mod 60) +:+ ":"
    +:+ pad_digits 2 ((rest / 1000) mod 60) +:+ "."
    +:+ pad_digits 3 (rest mod 1000) +:+ "Z".
Proof. reflexivity. Qed.

Lemma digit_char_not_sign (d : N) :
  is_digit d ->
  Ascii.eqb (digit_char d) "+" = false /\ Ascii.eqb (digit_char d) "-" = false.
Proof. intros H. each_digit H; by split. Qed.

Lemma take_year_text (y : Z) (rest : string) :
  -999999 <= y <= 999999 ->
  Date.take_year (year_text y +:+ rest) = Some (y, rest).
Proof.
  intros Hy. unfold year_text.
  destruct (Z.leb_spec 0 y) as [H0|H0]; cbn [andb].
  - destruct (Z.leb_spec y 9999) as [H1|H1].
    + pose proof (take_pad 4 y rest ltac:(lia) ltac:(lia)) as Ht.
      destruct (pad_digits_list 4 y ltac:(lia) ltac:(lia)) as (l & E & Hlen & Hall & _).
      rewrite E in *. destruct l as [|d l]; [discriminate Hlen|].
      inversion Hall as [|? ? Hd _]; subst.
      cbn [digits_string] in *. rewrite append_cons in *.
      unfold Date.take_year.
      destruct (digit_char_not_sign d Hd) as [-> ->]. exact Ht.
    + replace (y <? 0) with false by (symmetry; apply Z.ltb_ge; lia).
      rewrite append_cons, append_nil_l. unfold Date.take_year.
      change (Ascii.eqb "+" "+") with true. cbv iota.
      rewrite Z.abs_eq by lia. apply take_pad; lia.
  - replace (y <? 0) with true by (symmetry; apply Z.ltb_lt; lia).
    rewrite !append_cons, !append_nil_l. unfold Date.take_year.
    change (Ascii.eqb "-" "+") with false. change (Ascii.eqb "-" "-") with true. cbv iota.
    rewrite take_pad by lia.
    replace (Z.abs y =? 0) with false by (symmetry; apply Z.eqb_neq; lia).
    do 2 f_equal. lia.
Qed.

Lemma in_range_bounds (ms : Z) :
  Date.in_range ms = true -> - 8640000000000000 <= ms <= 8640000000000000.
Proof. unfold Date.in_range, Date.max_time. intros [?%Z.leb_le ?%Z.leb_le]%andb_true_iff. lia. Qed.

Lemma civil_in_range (ms : Z) :
  Date.in_range ms = true ->
  exists y m d,
    civil_from_days (ms / 86400000) = (y, m, d)
    /\ 1 <= m <= 12
    /\ 1 <= d <= Date.days_in_month y m
    /\ d <= 31
    /\ Date.days_from_civil y m d = ms / 86400000
    /\ -999999 <= y <= 999999.
Proof.
  intros Hr%in_range_bounds.
  destruct (civil_round_trip (ms / 86400000)) as (y & m & d & E & Hm & Hd & Hback & Hy).
  exists y, m, d. split; [exact E|]. split; [exact Hm|]. split; [exact Hd|].
  split; [|split; [exact Hback|]].
  - assert (Date.days_in_month y m <= 31); [|lia].
    unfold Date.days_in_month.
    destruct (m =? 2); [destruct (Date.is_leap y); lia|].
    destruct (_ || _); lia.
  - revert Hy. Z.div_mod_to_equations. lia.
Qed.

Lemma expect_head (c : ascii) (rest : string) :
  Date.expect c (String c EmptyString +:+ rest) = Some rest.
Proof. rewrite append_cons, append_nil_l. cbn [Date.expect]. by rewrite Ascii.eqb_refl. Qed.

Lemma iso_parse_toISOString (ms : Z) :
  Date.in_range ms = true -> Date.iso_parse (toISOString ms) = Some ms.
Proof.
  intros Hr. rewrite toISOString_fields. cbv zeta.
  destruct (civil_in_range ms Hr) as (y & m & d & -> & Hm & Hd & Hd31 & Hback & Hy).
  pose proof (Z.mod_pos_bound ms 86400000 ltac:(lia)) as Hrest.
  pose proof (Z.div_mod ms 86400000 ltac:(lia)) as Hsplit.
  set (rest := ms mod 86400000) in *.
  assert (0 <= rest / 3600000 <= 23) as Hh by (Z.div_mod_to_equations; lia).
  assert (0 <= (rest / 60000) mod 60 <= 59) as Hmi by (Z.div_mod_to_equations; lia).
  assert (0 <= (rest / 1000) mod 60 <= 59) as Hs by (Z.div_mod_to_equations; lia).
  assert (0 <= rest mod 1000 <= 999) as Hms by (Z.div_mod_to_equations; lia).
  assert (rest / 3600000 * 3600000 + (rest / 60000) mod 60 * 60000
          + (rest / 1000) mod 60 * 1000 + rest mod 1000 = rest) as Hsum
    by (Z.div_mod_to_equations; lia).
  unfold Date.iso_parse.
  rewrite take_year_text by exact Hy. cbn [mbind option_bind].
  rewrite expect_head. cbn [mbind option_bind].
  rewrite take_pad by lia. cbn [mbind option_bind].
  rewrite expect_head. cbn [mbind option_bind].
  rewrite take_pad by lia. cbn [mbind option_bind].
  rewrite expect_head. cbn [mbind option_bind].
  rewrite take_pad by lia. cbn [mbind option_bind].
  rewrite expect_head. cbn [mbind option_bind].
  rewrite take_pad by lia. cbn [mbind option_bind].
  rewrite expect_head. cbn [mbind option_bind].
  rewrite take_pad by lia. cbn [mbind option_bind].
  rewrite expect_head. cbn [mbind option_bind].
  rewrite take_pad by lia. cbn [mbind option_bind].
  change (Date.expect "Z" "Z") with (Some EmptyString). cbn [mbind option_bind is_empty andb].
  replace (1 <=? m) with true by (symmetry; apply Z.leb_le; lia).
  replace (m <=? 12) with true by (symmetry; apply Z.leb_le; lia).
  replace (1 <=? d) with true by (symmetry; apply Z.leb_le; lia).
  replace (d <=? Date.days_in_month y m) with true by (symmetry; apply Z.leb_le; lia).
  replace (rest / 3600000 <=? 23) with true by (symmetry; apply Z.leb_le; lia).
  replace ((rest / 60000) mod 60 <=? 59) with true by (symmetry; apply Z.leb_le; lia).
  replace ((rest / 1000) mod 60 <=? 59) with true by (symmetry; apply Z.leb_le; lia).
  cbn [andb]. f_equal. rewrite Hback. lia.
Qed.

Lemma Date_parse_toISOString (engine_parse : string -> option Z) (ms : Z) :
  Date.in_range ms = true -> Date.parse engine_parse (toISOString ms) = Some ms.
Proof.
  intros Hr. unfold Date.parse. rewrite (iso_parse_toISOString ms Hr).
  unfold Date.TimeClip. by rewrite Hr.
Qed.

Lemma Date_parse_in_range (engine_parse : string -> option Z) (text : string) (t : Z) :
  Date.parse engine_parse text = Some t -> Date.in_range t = true.
Proof.
  unfold Date.parse, Date.TimeClip.
  destruct (Date.iso_parse text) as [t0|].
  - destruct (Date.in_range t0) eqn:E; [by intros [= <-] | discriminate].
  - destruct (engine_parse text) as [t0|]; [|discriminate]. cbn [mbind option_bind].
    destruct (Date.in_range t0) eqn:E; [by intros [= <-] | discriminate].
Qed.

Lemma matches_year (y : Z) (tail : list (ascii -> bool)) (rest : string) :
  -999999 <= y <= 999999 ->
  matches tail rest = true ->
  matches (repeat digit_char_b 4 ++ tail) (year_text y +:+ rest) = true
  \/ matches (is_sign :: repeat digit_char_b 6 ++ tail) (year_text y +:+ rest) = true.
Proof.
  intros Hy Ht. unfold year_text.
  destruct ((0 <=? y) && (y <=? 9999)) eqn:E.
  - apply andb_true_iff in E as [?%Z.leb_le ?%Z.leb_le].
    left. apply matches_app; [apply matches_pad; lia | exact Ht].
  - right.
    assert (matches (repeat digit_char_b 6 ++ tail) (pad_digits 6 (Z.abs y) +:+ rest) = true)
      as Hm by (apply matches_app; [apply matches_pad; lia | exact Ht]).
    destruct (y <? 0); rewrite !append_cons, !append_nil_l; cbn [matches]; by rewrite Hm.
Qed.

Lemma iso_shape_toISOString (ms : Z) :
  Date.in_range ms = true -> iso_shape (toISOString ms) = true.
Proof.
  intros Hr. rewrite toISOString_fields. cbv zeta.
  destruct (civil_in_range ms Hr) as (y & m & d & -> & Hm & Hd & Hd31 & Hback & Hy).
  pose proof (Z.mod_pos_bound ms 86400000 ltac:(lia)) as Hrest.
  set (rest := ms mod 86400000) in *.
  assert (0 <= rest / 3600000 <= 23) as Hh by (Z.div_mod_to_equations; lia).
  assert (0 <= (rest / 60000) mod 60 <= 59) as Hmi by (Z.div_mod_to_equations; lia).
  assert (0 <= (rest / 1000) mod 60 <= 59) as Hs by (Z.div_mod_to_equations; lia).
  assert (0 <= rest mod 1000 <= 999) as Hms by (Z.div_mod_to_equations; lia).
  unfold iso_shape. apply orb_true_iff. apply matches_year; [exact Hy|].
  unfold iso_tail.
  repeat first
    [ reflexivity
    | apply (matches_app [_] _ (String _ EmptyString)); [reflexivity|]
    | apply (matches_app [_; _]); [apply (matches_pad 2); lia|]
    | apply (matches_app [_; _; _]); [apply (matches_pad 3); lia|] ].
Qed.

(** X8. Every timestamp that generateTimestamp produces passes
    isValidTimestamp, whatever the engine makes of text outside the ISO
    format: for any reading of the clock that is a time value, the text is
    of the form YYYY-MM-DDTHH:mm:ss.sssZ (a signed six-digit year outside
    0..9999), parsing it gives the reading back, and printing that gives the
    same text. *)
Theorem generated_timestamp_is_valid :
  forall (engine_parse : string -> option Z) (w : World),
    Date.in_range (clock w (ticks w)) = true ->
    exists t,
      generateTimestamp w = (inr t, tick 1 w)
      /\ Date.parse engine_parse t = Some (clock w (ticks w))
      /\ isValidTimestamp engine_parse t = true
      /\ iso_shape t = true.
Proof.
  intros engine_parse w Hr. exists (toISOString (clock w (ticks w))).
  split; [apply generateTimestamp_eq|].
  pose proof (Date_parse_toISOString engine_parse _ Hr) as Hp.
  split; [exact Hp|]. split; [|by apply iso_shape_toISOString].
  unfold isValidTimestamp. rewrite Hp. apply String.eqb_refl.
Qed.

Lemma generated_timestamp_is_valid_witness :
  exists t,
    generateTimestamp Fixtures.empty_world = (inr t, tick 1 Fixtures.empty_world)
    /\ Date.parse (fun _ => None) t
       = Some (clock Fixtures.empty_world (ticks Fixtures.empty_world))
    /\ isValidTimestamp (fun _ => None) t = true
    /\ iso_shape t = true.
Proof.
  apply (generated_timestamp_is_valid (fun _ => None) Fixtures.empty_world).
  reflexivity.
Defined.

(** X9. isValidTimestamp accepts a text only if it is exactly what
    toISOString prints for some time value, so only text of the form
    YYYY-MM-DDTHH:mm:ss.sssZ (or with a signed six-digit year): a date
    without time, a time without milliseconds or with an offset is refused,
    whatever the engine's parser makes of it. *)
Theorem valid_timestamp_is_canonical :
  forall (engine_parse : string -> option Z) (timestamp : string),
    isValidTimestamp engine_parse timestamp = true ->
    iso_shape timestamp = true
    /\ exists ms, Date.in_range ms = true /\ timestamp = toISOString ms.
Proof.
  intros engine_parse timestamp. unfold isValidTimestamp.
  destruct (Date.parse engine_parse timestamp) as [t|] eqn:Hp; [|discriminate].
  intros E%String.eqb_eq. subst timestamp.
  pose proof (Date_parse_in_range _ _ _ Hp) as Hr.
  split; [by apply iso_shape_toISOString | by exists t].
Qed.

Lemma valid_timestamp_is_canonical_witness :
  iso_shape "2025-11-13T18:44:00.123Z" = true
  /\ exists ms, Date.in_range ms = true /\ "2025-11-13T18:44:00.123Z" = toISOString ms.
Proof.
  apply (valid_timestamp_is_canonical (fun _ => None) "2025-11-13T18:44:00.123Z").
  vm_compute. reflexivity.
Defined.

(** ** providers/mock.ts *)

Lemma fallback_not_empty (text from to : string) : Mock.fallback text from to <> EmptyString.
Proof. unfold Mock.fallback. rewrite append_cons. discriminate. Qed.

Lemma mockTranslate_not_empty (text from to translated : string) :
  Mock.mockTranslate text from to = Some translated -> translated <> EmptyString.
Proof.
  unfold Mock.mockTranslate.
  destruct (get Mock.rules from) as [by_target| |] eqn:E1; [|discriminate|].
  2: { intros [= <-]. apply fallback_not_empty. }
  destruct (get by_target to) as [by_text| |] eqn:E2; [|discriminate|].
  2: { intros [= <-]. apply fallback_not_empty. }
  destruct (get by_text text) as [translation| |] eqn:E3; [|discriminate|].
  2: { intros [= <-]. apply fallback_not_empty. }
  intros [= <-]. destruct translation; [apply fallback_not_empty | discriminate].
Qed.

(** X10. The mock provider.  Set to fail, it fails on every request with
    "Mock translation failed (simulated)".  Otherwise an answer carries the
    configured confidence, 0.95 when none is configured, and a text that is
    never empty: for a source language that is none of en, pt, python (nor
    the name of a property of Object.prototype) the text is the source text
    behind the marker "[MOCK from→to] ". *)
Theorem mock_answer :
  forall (config : Mock.MockProviderConfig) (params : TranslateParams),
    let self := Mock.new config in
    (Mock.shouldFail config = Some true ->
     Mock.translate self params = Some (inl (new_Error "Mock translation failed (simulated)")))
    /\ (forall r,
          Mock.translate self params = Some (inr r) ->
          Mock.shouldFail config <> Some true
          /\ result_confidence r = default (of_decimal 95 (-2)) (Mock.fixedConfidence config)
          /\ translatedText r <> EmptyString)
    /\ (Mock.shouldFail config <> Some true ->
        get Mock.rules (tp_source_language params) = Missing ->
        Mock.translate self params
        = Some (inr {| translatedText :=
                         "[MOCK " +:+ tp_source_language params +:+ "→"
                         +:+ tp_target_language params +:+ "] " +:+ tp_text params;
                       result_confidence :=
                         default (of_decimal 95 (-2)) (Mock.fixedConfidence config) |})).
Proof.
  intros config params self. unfold Mock.translate. subst self. cbn [Mock.fails Mock.new
    Mock.answer_confidence].
  split; [|split].
  - by intros ->.
  - intros r. destruct (Mock.shouldFail config) as [[]|]; cbn [default]; [discriminate| |].
    all: destruct (Mock.mockTranslate _ _ _) as [t|] eqn:E; [|discriminate].
    all: intros [= <-]; cbn [result_confidence translatedText].
    all: split; [discriminate|]; split; [reflexivity|].
    all: by apply (mockTranslate_not_empty _ _ _ _ E).
  - intros Hf Hm.
    assert (default false (Mock.shouldFail config) = false) as ->
      by (destruct (Mock.shouldFail config) as [[]|]; done).
    unfold Mock.mockTranslate. by rewrite Hm.
Qed.

Lemma mock_answer_witness :
  Mock.translate (Mock.new Mock.no_config)
    {| tp_source_language := "fr"; tp_target_language := "pt"; tp_text := "Bonjour" |}
  = Some (inr {| translatedText := "[MOCK " +:+ "fr" +:+ "→" +:+ "pt" +:+ "] " +:+ "Bonjour";
                 result_confidence :=
                   default (of_decimal 95 (-2)) (Mock.fixedConfidence Mock.no_config) |}).
Proof.
  apply (proj2 (proj2 (mock_answer Mock.no_config
                         {| tp_source_language := "fr"; tp_target_language := "pt";
                            tp_text := "Bonjour" |}))).
  - discriminate.
  - reflexivity.
Defined.

(** ** api.ts: the check of a request *)



Lemma is_text_method (text : string) (req : list (string * json)) :
  Api.is_text text (lookup "method" req) = true ->
  get_string "method" req = Some text /\ Api.truthy (lookup "method" req) = negb (is_empty text).
Proof.
  unfold Api.is_text, get_string, Api.truthy.
  destruct (lookup "method" req) as [[| | |s| |]|]; try discriminate.
  by intros ->%String.eqb_eq.
Qed.




(** ** api.ts: the handlers *)

Lemma translateRequest_cases validate provider input w :
  (exists e w', Translate.translateRequest validate provider input w = (inl e, w')
                /\ files w' = files w)
  \/ (exists envelope w',
        Translate.translateRequest validate provider input w = (inr envelope, w')
        /\ envelope_valid validate envelope
        /\ files w' = <[ Ledger.LEDGER_PATH :=
                           ledger_content w +:+ line_of envelope +:+ end_of_line ]> (files w)).
Proof.
  destruct (Translate.translateRequest validate provider input w) as [[e|envelope] w'] eqn:E.
  - left. exists e, w'. split; [reflexivity|].
    by destruct (translateRequest_failure_files _ _ _ _ _ _ E).
  - right. exists envelope, w'. split; [reflexivity|].
    destruct (proj2 (translateRequest_outcome validate provider input w) _ _ E)
      as (r & Hr & -> & Hv & Hs).
    split; [exact Hv|].
    destruct (proj1 (translateRequest_outcome validate provider input w) r Hr Hv Hs)
      as (w2 & E2 & Hf & _).
    rewrite E in E2. injection E2 as <-. exact Hf.
Qed.

(** What handleTranslate answers: it never throws, and its answer says what
    became of the ledger. *)
Lemma handleTranslate_outcome validate provider json_error text respond w :
  Api.handleTranslate validate provider json_error text = Some respond ->
  exists response w',
    respond w = (inr response, w')
    /\ Api.headers response = Api.json_headers
    /\ ((Api.status response = 200
         /\ exists envelope,
              Api.body response = Some (stringify_2 (envelope_json envelope))
              /\ envelope_valid validate envelope
              /\ files w' = <[ Ledger.LEDGER_PATH :=
                                 ledger_content w +:+ line_of envelope +:+ end_of_line ]>
                              (files w))
        \/ (Api.status response = 400 /\ files w' = files w)).
Proof.
  unfold Api.handleTranslate.
  destruct (parse text) as [body|].
  2: { intros [= <-]. eexists _, _. split; [reflexivity|]. split; [reflexivity|]. by right. }
  destruct (Api.validateTranslateRequest body) as [error|[]].
  { intros [= <-]. eexists _, _. split; [reflexivity|]. split; [reflexivity|]. by right. }
  destruct (Api.properties body ≫= Api.input_of) as [input|]; [|discriminate].
  intros [= <-]. unfold try_catch, mbind, M_bind.
  destruct (translateRequest_cases validate provider input w)
    as [(e & w' & -> & Hf) | (envelope & w' & -> & Hv & Hf)].
  - eexists _, _. split; [reflexivity|]. split; [reflexivity|]. by right.
  - eexists _, _. split; [reflexivity|]. split; [reflexivity|]. left.
    split; [reflexivity|]. by exists envelope.
Qed.

(** X12. handleTranslate never throws: it answers 200 or 400.  With 200 the
    body is the envelope, indented by two spaces, that envelope has passed
    the gate of the ledger and the ledger file has grown by its line; with
    400 no file has changed.  (For a body whose translator is a string or
    absent.) *)
Theorem handleTranslate_answers :
  forall (validate : Validator) (provider : TranslationProvider)
         (json_error : string -> JsError) (text : string) (respond : M Api.Response)
         (w : World),
    Api.handleTranslate validate provider json_error text = Some respond ->
    exists response w',
      respond w = (inr response, w')
      /\ Api.headers response = Api.json_headers
      /\ ((Api.status response = 200
           /\ exists envelope,
                Api.body response = Some (stringify_2 (envelope_json envelope))
                /\ envelope_valid validate envelope
                /\ files w' = <[ Ledger.LEDGER_PATH :=
                                   ledger_content w +:+ line_of envelope +:+ end_of_line ]>
                                (files w))
          \/ (Api.status response = 400 /\ files w' = files w)).
Proof. exact handleTranslate_outcome. Qed.

Lemma keys_distinct_body : keys_distinct ApiFixtures.body.
Proof.
  constructor; [apply (bool_decide_unpack _); by vm_compute|].
  repeat constructor.
Qed.

Lemma handleTranslate_answers_witness :
  exists respond,
    Api.handleTranslate SpecSchema.envelope_schema (Fixtures.mock "Olá mundo" Fixtures.n_0_95)
      ApiFixtures.json_error (stringify ApiFixtures.body) = Some respond
    /\ exists response w',
         respond Fixtures.empty_world = (inr response, w')
         /\ Api.headers response = Api.json_headers
         /\ ((Api.status response = 200
              /\ exists envelope,
                   Api.body response = Some (stringify_2 (envelope_json envelope))
                   /\ envelope_valid SpecSchema.envelope_schema envelope
                   /\ files w'
                      = <[ Ledger.LEDGER_PATH :=
                             ledger_content Fixtures.empty_world +:+ line_of envelope
                             +:+ end_of_line ]> (files Fixtures.empty_world))
             \/ (Api.status response = 400 /\ files w' = files Fixtures.empty_world)).
Proof.
  eexists. split.
  - unfold Api.handleTranslate. rewrite (parse_stringify ApiFixtures.body keys_distinct_body).
    reflexivity.
  - apply (handleTranslate_answers SpecSchema.envelope_schema
             (Fixtures.mock "Olá mundo" Fixtures.n_0_95) ApiFixtures.json_error
             (stringify ApiFixtures.body)).
    unfold Api.handleTranslate. rewrite (parse_stringify ApiFixtures.body keys_distinct_body).
    reflexivity.
Defined.





(** ** signer.ts: what a signature covers *)

Lemma canonicalizeContract_text (c : TranslationContract) :
  Signer.canonicalizeContract c = stringify (canonical_json c).
Proof.
  unfold Signer.canonicalizeContract, canonical_json, Contract.contract_json.
  destruct c as [i wf fl sl tl st tt [tr|] m cf [ts tn sg]]; reflexivity.
Qed.

(** X14. The canonical text that signContract signs is the compact JSON of
    the contract with its fields in the order of their names and an empty
    object for the provenance: the list of top-level names given to
    JSON.stringify filters the nested object too.  So neither the timestamp
    nor the tenant id (nor the signature field) enters the text, and two
    contracts that differ only in their provenance get the same signature. *)
Theorem signature_ignores_provenance :
  forall (sign : list N -> list N) (c : TranslationContract) (p : ProvenanceBlock),
    Signer.canonicalizeContract c = stringify (canonical_json c)
    /\ Signer.canonicalizeContract (with_provenance c p) = Signer.canonicalizeContract c
    /\ Signer.signContract sign (with_provenance c p) = Signer.signContract sign c.
Proof.
  intros sign c p.
  assert (Signer.canonicalizeContract (with_provenance c p) = Signer.canonicalizeContract c)
    as H by (by rewrite !canonicalizeContract_text).
  split; [apply canonicalizeContract_text|]. split; [exact H|].
  unfold Signer.signContract. by rewrite H.
Qed.

(** ** signer.ts: hexadecimal text *)

Lemma hex_digit_code (d : N) :
  (d < 16)%N ->
  (code (hex_digit d) < 128)%N
  /\ Hex.line_terminator (code (hex_digit d)) = false
  /\ Hex.white_space (code (hex_digit d)) = false
  /\ code (hex_digit d) <> 45%N /\ code (hex_digit d) <> 43%N
  /\ code (hex_digit d) <> 120%N /\ code (hex_digit d) <> 88%N
  /\ Hex.digit_value (code (hex_digit d)) = Some d.
Proof.
  intros H.
  assert (d = 0 \/ d = 1 \/ d = 2 \/ d = 3 \/ d = 4 \/ d = 5 \/ d = 6 \/ d = 7 \/ d = 8
          \/ d = 9 \/ d = 10 \/ d = 11 \/ d = 12 \/ d = 13 \/ d = 14 \/ d = 15)%N as Hd by lia.
  repeat (destruct Hd as [Hd|Hd]); subst; repeat split; (reflexivity || discriminate).
Qed.

Lemma parse_hex_digits (d1 d2 : N) :
  (d1 < 16)%N -> (d2 < 16)%N ->
  Hex.ToUint8 (Hex.parseInt16 [code (hex_digit d1); code (hex_digit d2)])
  = (16 * d1 + d2)%N.
Proof.
  intros H1 H2.
  assert (d1 = 0 \/ d1 = 1 \/ d1 = 2 \/ d1 = 3 \/ d1 = 4 \/ d1 = 5 \/ d1 = 6 \/ d1 = 7
          \/ d1 = 8 \/ d1 = 9 \/ d1 = 10 \/ d1 = 11 \/ d1 = 12 \/ d1 = 13 \/ d1 = 14
          \/ d1 = 15)%N as Hd1 by lia.
  assert (d2 = 0 \/ d2 = 1 \/ d2 = 2 \/ d2 = 3 \/ d2 = 4 \/ d2 = 5 \/ d2 = 6 \/ d2 = 7
          \/ d2 = 8 \/ d2 = 9 \/ d2 = 10 \/ d2 = 11 \/ d2 = 12 \/ d2 = 13 \/ d2 = 14
          \/ d2 = 15)%N as Hd2 by lia.
  clear H1 H2.
  repeat (destruct Hd1 as [Hd1|Hd1]); subst d1;
    repeat (destruct Hd2 as [Hd2|Hd2]); subst d2; vm_compute; reflexivity.
Qed.

Lemma parse_hex_pair (b : N) : is_byte b -> Hex.ToUint8 (Hex.parseInt16 (hex_pair b)) = b.
Proof.
  intros Hb. unfold hex_pair, is_byte in *. rewrite parse_hex_digits.
  - pose proof (N.div_mod b 16 ltac:(lia)). lia.
  - apply N.Div0.div_lt_upper_bound. lia.
  - apply N.mod_lt. lia.
Qed.

Lemma code_units_hex_join (bs : list N) :
  Forall is_byte bs ->
  code_units (hex_join bs) = flat_map hex_pair bs.
Proof.
  induction 1 as [|b r Hb _ IH]; [reflexivity|].
  cbn [hex_join flat_map]. unfold hex2. rewrite !append_cons, append_nil_l.
  assert (b / 16 < 16)%N as H1 by (apply N.Div0.div_lt_upper_bound; unfold is_byte in Hb; lia).
  assert (b mod 16 < 16)%N as H2 by (apply N.mod_lt; lia).
  destruct (hex_digit_code _ H1) as (Ha & _), (hex_digit_code _ H2) as (Hc & _).
  cbn [code_units]. cbv zeta.
  replace (code (hex_digit (b / 16)) <? 192)%N with true by (symmetry; apply N.ltb_lt; lia).
  replace (code (hex_digit (b mod 16)) <? 192)%N with true by (symmetry; apply N.ltb_lt; lia).
  rewrite IH. reflexivity.
Qed.

Lemma match_pairs_hex (bs : list N) :
  Forall is_byte bs ->
  Hex.match_pairs (flat_map hex_pair bs) = map hex_pair bs.
Proof.
  induction 1 as [|b r Hb _ IH]; [reflexivity|].
  assert (b / 16 < 16)%N as H1 by (apply N.Div0.div_lt_upper_bound; unfold is_byte in Hb; lia).
  assert (b mod 16 < 16)%N as H2 by (apply N.mod_lt; lia).
  destruct (hex_digit_code _ H1) as (_ & Ha & _), (hex_digit_code _ H2) as (_ & Hc & _).
  cbn [flat_map map]. unfold hex_pair at 1. cbn [app Hex.match_pairs].
  rewrite Ha, Hc, IH. reflexivity.
Qed.

(** The bytes written in hexadecimal are the bytes read back. *)
Lemma hex_bytes_hex_join (bs : list N) :
  bs <> [] -> Forall is_byte bs -> Hex.bytes (hex_join bs) = Some bs.
Proof.
  intros Hne Hall. unfold Hex.bytes.
  rewrite (code_units_hex_join bs Hall), (match_pairs_hex bs Hall).
  destruct bs as [|b r]; [done|]. cbn [map]. f_equal.
  change (Hex.ToUint8 (Hex.parseInt16 (hex_pair b))
          :: map (fun piece => Hex.ToUint8 (Hex.parseInt16 piece)) (map hex_pair r))
    with (map (fun piece => Hex.ToUint8 (Hex.parseInt16 piece)) (map hex_pair (b :: r))).
  rewrite map_map. clear Hne. induction Hall as [|x l Hx _ IH]; [reflexivity|].
  cbn [map]. by rewrite (parse_hex_pair x Hx), IH.
Qed.

Lemma drop_append (a b : string) : drop (String.length a) (a +:+ b) = b.
Proof.
  induction a as [|c a IH]; [by rewrite append_nil_l; destruct b|].
  rewrite append_cons. cbn [String.length drop]. exact IH.
Qed.

Lemma startsWith_append (a b : string) : startsWith a (a +:+ b) = true.
Proof.
  induction a as [|c a IH]; [reflexivity|].
  rewrite append_cons. cbn [startsWith]. by rewrite Ascii.eqb_refl, IH.
Qed.

Lemma replace_first_head (pattern rest : string) :
  replace_first pattern EmptyString (pattern +:+ rest) = rest.
Proof.
  assert (forall s, startsWith pattern s = true ->
                    replace_first pattern EmptyString s = drop (String.length pattern) s) as H.
  { intros s Hs. destruct s; cbn [replace_first]; rewrite Hs; apply append_nil_l. }
  rewrite H by apply startsWith_append. apply drop_append.
Qed.

(** X15. verifyContract accepts a contract that carries the signature
    signContract gave it, whenever the key pair is one whose signatures
    verify; and since the signed text leaves the provenance out, it goes on
    accepting the contract after its timestamp or its tenant id have been
    changed.  A contract whose signature field does not start with
    "ed25519:", the unsigned contract included, is refused. *)
Theorem signed_contract_verifies :
  forall (sign : list N -> list N) (verify : list N -> list N -> bool)
         (c : TranslationContract),
    (forall (timestamp tenant_id : string),
        (forall data, sign data <> [] /\ Forall is_byte (sign data)) ->
        (forall data, verify (sign data) data = true) ->
        Signer.verifyContract verify
          (with_provenance c {| timestamp := timestamp; tenant_id := tenant_id;
                                signature := Signer.signContract sign c |}) = true)
    /\ (startsWith "ed25519:" (signature (provenance c)) = false ->
        Signer.verifyContract verify c = false).
Proof.
  intros sign verify c. split.
  - intros ts tn Hsig Hver. unfold Signer.verifyContract.
    cbn [provenance with_provenance signature]. unfold Signer.signContract. cbv zeta.
    rewrite startsWith_append. cbn [negb].
    rewrite replace_first_head.
    destruct (Hsig (encode (Signer.canonicalizeContract c))) as [Hne Hall].
    rewrite (hex_bytes_hex_join _ Hne Hall).
    rewrite !canonicalizeContract_text. apply Hver.
  - intros H. unfold Signer.verifyContract. cbv zeta. by rewrite H.
Qed.

Lemma signed_contract_verifies_witness :
  Signer.verifyContract (fun _ _ => true)
    (with_provenance (Fixtures.a_contract machine None Fixtures.n_0_95)
       {| timestamp := "1999-12-31T23:59:59.999Z"; tenant_id := "someone else";
          signature := Signer.signContract (fun _ => [1; 2; 255]%N)
                         (Fixtures.a_contract machine None Fixtures.n_0_95) |}) = true.
Proof.
  apply (proj1 (signed_contract_verifies (fun _ => [1; 2; 255]%N) (fun _ _ => true)
                  (Fixtures.a_contract machine None Fixtures.n_0_95))).
  - intros data. split; [discriminate|]. repeat constructor.
  - reflexivity.
Defined.

(** X16. A key written out by exportPrivateKey or exportPublicKey is read
    back by importPrivateKey or importPublicKey from the same bytes: the
    hexadecimal text, two lower-case digits a byte, leads importKey to the
    bytes that exportKey gave.  On the empty text the import fails before
    any key is imported. *)
Theorem key_text_round_trip :
  forall (CryptoKey : Type)
         (exportKey : Signer.KeyFormat -> CryptoKey -> JsError + list N)
         (importKey : Signer.KeyFormat -> list N -> JsError + CryptoKey)
         (key : CryptoKey),
    (forall exported,
        exportKey Signer.pkcs8 key = inr exported ->
        exported <> [] -> Forall is_byte exported ->
        exists hexKey,
          Signer.exportPrivateKey CryptoKey exportKey key = inr hexKey
          /\ String.length hexKey = (2 * length exported)%nat
          /\ Signer.importPrivateKey CryptoKey importKey hexKey
             = Some (importKey Signer.pkcs8 exported))
    /\ (forall exported,
          exportKey Signer.spki key = inr exported ->
          exported <> [] -> Forall is_byte exported ->
          exists hexKey,
            Signer.exportPublicKey CryptoKey exportKey key = inr hexKey
            /\ String.length hexKey = (2 * length exported)%nat
            /\ Signer.importPublicKey CryptoKey importKey hexKey
               = Some (importKey Signer.spki exported))
    /\ Signer.importPrivateKey CryptoKey importKey EmptyString = None
    /\ Signer.importPublicKey CryptoKey importKey EmptyString = None.
Proof.
  intros CryptoKey exportKey importKey key. split; [|split; [|by split]].
  - intros exported He Hne Hall. exists (hex_join exported).
    unfold Signer.exportPrivateKey, Signer.importPrivateKey. rewrite He.
    split; [reflexivity|]. split; [apply length_hex_join|].
    by rewrite (hex_bytes_hex_join _ Hne Hall).
  - intros exported He Hne Hall. exists (hex_join exported).
    unfold Signer.exportPublicKey, Signer.importPublicKey. rewrite He.
    split; [reflexivity|]. split; [apply length_hex_join|].
    by rewrite (hex_bytes_hex_join _ Hne Hall).
Qed.

Lemma key_text_round_trip_witness :
  exists hexKey,
    Signer.exportPrivateKey (list N) (fun _ key => inr key) [48; 46; 2; 1; 0; 255]%N = inr hexKey
    /\ String.length hexKey = (2 * length [48; 46; 2; 1; 0; 255]%N)%nat
    /\ Signer.importPrivateKey (list N) (fun _ bytes => inr bytes) hexKey
       = Some (inr [48; 46; 2; 1; 0; 255]%N).
Proof.
  apply (proj1 (key_text_round_trip (list N) (fun _ key => inr key)
                  (fun _ bytes => inr bytes) [48; 46; 2; 1; 0; 255]%N) [48; 46; 2; 1; 0; 255]%N).
  - reflexivity.
  - discriminate.
  - repeat constructor.
Defined.

(** ** providers/openai.ts *)

Lemma openai_translate_cases fetch json_error self params :
  OpenAI.translate fetch json_error self params
  = match fetch (OpenAI.request self params) with
    | inl rejection => OpenAI.Threw rejection
    | inr res =>
        if negb (OpenAI.ok res) then
          OpenAI.Threw (new_Error ("OpenAI error: " +:+ toString (of_Z (OpenAI.http_status res))
                                   +:+ " " +:+ OpenAI.statusText res +:+ " - "
                                   +:+ OpenAI.response_text res))
        else
          match parse (OpenAI.response_text res) with
          | None => OpenAI.Threw (json_error (OpenAI.response_text res))
          | Some JNull => OpenAI.ThrewTypeError
          | Some data =>
              match OpenAI.content_text data with
              | None => OpenAI.ThrewTypeError
              | Some text =>
                  if is_empty text then
                    OpenAI.Threw (new_Error "Empty translation from OpenAI")
                  else
                    OpenAI.Returned {| translatedText := text;
                                       result_confidence := of_decimal 9 (-1) |}
              end
          end
    end.
Proof. reflexivity. Qed.

(** X17. The OpenAI provider.  An answer it returns carries the confidence
    0.9, which lies in [0, 1], and a text that is not empty: the trimmed
    [choices[0].message.content] of the response.  A response whose status
    is not from 200 to 299 throws "OpenAI error: <status> <status text> -
    <body>"; a response of the expected shape whose content is blank throws
    "Empty translation from OpenAI"; a rejection of fetch is thrown on. *)
Theorem openai_answers :
  forall (fetch : OpenAI.FetchRequest -> JsError + OpenAI.FetchResponse)
         (json_error : string -> JsError)
         (config : OpenAI.OpenAIProviderConfig) (params : TranslateParams),
    let self := OpenAI.new config in
    (forall result,
        OpenAI.translate fetch json_error self params = OpenAI.Returned result ->
        result_confidence result = of_decimal 9 (-1)
        /\ in_unit_interval (result_confidence result)
        /\ translatedText result <> EmptyString
        /\ exists res data,
             fetch (OpenAI.request self params) = inr res
             /\ OpenAI.ok res = true
             /\ parse (OpenAI.response_text res) = Some data
             /\ OpenAI.content_text data = Some (translatedText result))
    /\ (forall res,
          fetch (OpenAI.request self params) = inr res ->
          OpenAI.ok res = false ->
          OpenAI.translate fetch json_error self params
          = OpenAI.Threw (new_Error ("OpenAI error: "
                                     +:+ toString (of_Z (OpenAI.http_status res))
                                     +:+ " " +:+ OpenAI.statusText res +:+ " - "
                                     +:+ OpenAI.response_text res)))
    /\ (forall res members choice others message content,
          fetch (OpenAI.request self params) = inr res ->
          OpenAI.ok res = true ->
          parse (OpenAI.response_text res) = Some (JObj members) ->
          lookup "choices" members = Some (JArr (JObj choice :: others)) ->
          lookup "message" choice = Some (JObj message) ->
          lookup "content" message = Some (JStr content) ->
          OpenAI.translate fetch json_error self params
          = if is_empty (trim content)
            then OpenAI.Threw (new_Error "Empty translation from OpenAI")
            else OpenAI.Returned {| translatedText := trim content;
                                    result_confidence := of_decimal 9 (-1) |})
    /\ (forall rejection,
          fetch (OpenAI.request self params) = inl rejection ->
          OpenAI.translate fetch json_error self params = OpenAI.Threw rejection).
Proof.
  intros fetch json_error config params self.
  rewrite openai_translate_cases. split; [|split; [|split]].
  - intros result. destruct (fetch _) as [rej|res]; [discriminate|].
    destruct (OpenAI.ok res) eqn:Eok; [|discriminate]. cbn [negb].
    destruct (parse _) as [data|] eqn:Ep; [|discriminate].
    assert (match OpenAI.content_text data with
            | Some text =>
                if is_empty text
                then OpenAI.Threw (new_Error "Empty translation from OpenAI")
                else OpenAI.Returned {| translatedText := text;
                                        result_confidence := of_decimal 9 (-1) |}
            | None => OpenAI.ThrewTypeError
            end = OpenAI.Returned result ->
            result_confidence result = of_decimal 9 (-1)
            /\ in_unit_interval (result_confidence result)
            /\ translatedText result <> EmptyString
            /\ OpenAI.content_text data = Some (translatedText result)) as Hcore.
    { destruct (OpenAI.content_text data) as [text|]; [|discriminate].
      destruct text as [|c text]; [discriminate|]. cbn [is_empty].
      intros [= <-]. cbn [result_confidence translatedText].
      split; [reflexivity|]. split; [split; by vm_compute|]. split; [discriminate | reflexivity]. }
    intros H.
    assert (result_confidence result = of_decimal 9 (-1)
            /\ in_unit_interval (result_confidence result)
            /\ translatedText result <> EmptyString
            /\ OpenAI.content_text data = Some (translatedText result))
      as (H1 & H2 & H3 & H4) by (destruct data; (discriminate H || by apply Hcore)).
    split; [exact H1|]. split; [exact H2|]. split; [exact H3|]. by exists res, data.
  - intros res -> Hok. by rewrite Hok.
  - intros res members choice others message content -> Hok Hp Hc Hm Hcontent.
    rewrite Hok, Hp. cbn [negb].
    unfold OpenAI.content_text, OpenAI.member. rewrite Hc.
    cbn [OpenAI.chain OpenAI.first OpenAI.member]. rewrite Hm.
    cbn [OpenAI.chain OpenAI.member]. rewrite Hcontent. reflexivity.
  - by intros rejection ->.
Qed.

Lemma openai_answers_witness :
  OpenAI.translate
    (OpenAIFixtures.fetch 200 (stringify (OpenAIFixtures.completion " Olá mundo ")))
    ApiFixtures.json_error (OpenAI.new OpenAIFixtures.config) OpenAIFixtures.params
  = if is_empty (trim " Olá mundo ")
    then OpenAI.Threw (new_Error "Empty translation from OpenAI")
    else OpenAI.Returned {| translatedText := trim " Olá mundo ";
                            result_confidence := of_decimal 9 (-1) |}.
Proof.
  eapply (proj1 (proj2 (proj2 (openai_answers
                                (OpenAIFixtures.fetch 200
                                   (stringify (OpenAIFixtures.completion " Olá mundo ")))
                                ApiFixtures.json_error OpenAIFixtures.config
                                OpenAIFixtures.params)))).
  - reflexivity.
  - reflexivity.
  - by vm_compute.
  - reflexivity.
  - reflexivity.
  - reflexivity.
Defined.

(** ** config.ts and the provider factory *)

Lemma getConfig_cached c p :
  Config.configInstance p = Some c -> Config.getConfig p = Some (c, p).
Proof. unfold Config.getConfig. by intros ->. Qed.

Lemma getConfig_fresh variables :
  Config.getConfig (fresh_process variables)
  = c ← Config.loadConfig (fresh_process variables);
    Some (c, Config.set_instance c (fresh_process variables)).
Proof. reflexivity. Qed.

Lemma getConfig_instance p c p' :
  Config.getConfig p = Some (c, p') -> Config.configInstance p' = Some c.
Proof.
  unfold Config.getConfig. destruct (Config.configInstance p) as [c0|] eqn:E.
  - by intros [= <- <-].
  - destruct (Config.loadConfig p) as [c0|]; [|discriminate]. cbn. by intros [= <- <-].
Qed.

Lemma validateConfig_instance p c p0 outcome p' :
  Config.getConfig p = Some (c, p0) ->
  Config.validateConfig p = Some (outcome, p') ->
  Config.configInstance p' = Some c.
Proof.
  intros Hget. pose proof (getConfig_instance _ _ _ Hget) as Hc.
  unfold Config.validateConfig. rewrite Hget. cbn.
  destruct (_ && _); [by intros [= <- <-]|].
  destruct (_ && _); [by intros [= <- <-]|].
  destruct (_ && _); destruct (Config.port_out_of_range _); by intros [= <- <-].
Qed.

Lemma validated_provider p p' :
  Config.validateConfig p = Some (inr tt, p') ->
  exists config provider,
    Config.configInstance p' = Some config
    /\ provider
       = match Config.llmProvider config with
         | Config.anthropic =>
             LegacyProviders.AnthropicProvider (default EmptyString (Config.anthropicApiKey config))
         | Config.openai =>
             LegacyProviders.OpenAIProvider (default EmptyString (Config.openaiApiKey config))
         | Config.mock => LegacyProviders.MockProvider
         end
    /\ forall variables,
         LegacyProviders.createProvider (with_env variables p')
         = Some (inr provider, with_env variables p').
Proof.
  intros Hv. destruct (Config.getConfig p) as [[c p0]|] eqn:Hget.
  2:{ unfold Config.validateConfig in Hv. by rewrite Hget in Hv. }
  pose proof (validateConfig_instance _ _ _ _ _ Hget Hv) as Hc.
  exists c. eexists. split; [exact Hc|]. split; [reflexivity|].
  intros variables. unfold LegacyProviders.createProvider.
  rewrite (getConfig_cached c) by exact Hc. cbn.
  unfold Config.validateConfig in Hv. rewrite Hget in Hv. cbn in Hv.
  destruct (Config.llmProvider c); cbn in Hv |- *.
  - destruct (Config.anthropicApiKey c) as [[|a key]|]; cbn in Hv |- *;
      [discriminate | reflexivity | discriminate].
  - destruct (Config.openaiApiKey c) as [[|a key]|]; cbn in Hv |- *;
      [discriminate | reflexivity | discriminate].
  - reflexivity.
Qed.

(** X18. When validateConfig returns without throwing, the configuration is
    cached, and createProvider then returns a provider instead of throwing:
    the mock one, or the Anthropic or OpenAI one with its key.  It does so
    whatever the environment variables become afterwards: the cached
    configuration is not read again. *)
Theorem validated_config_gives_provider :
  forall (p p' : Config.Process),
    Config.validateConfig p = Some (inr tt, p') ->
    exists config provider,
      Config.configInstance p' = Some config
      /\ provider
         = match Config.llmProvider config with
           | Config.anthropic =>
               LegacyProviders.AnthropicProvider
                 (default EmptyString (Config.anthropicApiKey config))
           | Config.openai =>
               LegacyProviders.OpenAIProvider (default EmptyString (Config.openaiApiKey config))
           | Config.mock => LegacyProviders.MockProvider
           end
      /\ forall variables,
           LegacyProviders.createProvider (with_env variables p')
           = Some (inr provider, with_env variables p').
Proof. exact validated_provider. Qed.

Lemma validated_config_gives_provider_witness :
  exists config provider,
    Config.configInstance (ConfigFixtures.cached ConfigFixtures.variables) = Some config
    /\ provider
       = match Config.llmProvider config with
         | Config.anthropic =>
             LegacyProviders.AnthropicProvider
               (default EmptyString (Config.anthropicApiKey config))
         | Config.openai =>
             LegacyProviders.OpenAIProvider (default EmptyString (Config.openaiApiKey config))
         | Config.mock => LegacyProviders.MockProvider
         end
    /\ forall variables,
         LegacyProviders.createProvider
           (with_env variables (ConfigFixtures.cached ConfigFixtures.variables))
         = Some (inr provider,
                 with_env variables (ConfigFixtures.cached ConfigFixtures.variables)).
Proof.
  apply (validated_config_gives_provider (fresh_process ConfigFixtures.variables)).
  by vm_compute.
Defined.

Lemma loadConfig_port variables :
  Config.loadConfig (fresh_process variables)
  = port ← match variables !! "PORT" with
           | Some text =>
               if is_empty text then Some (Some 8000) else Config.parseInt10 text
           | None => Some (Some 8000)
           end;
    Some
      {| Config.llmProvider := Config.provider_named (variables !! "LLM_PROVIDER");
         Config.anthropicApiKey := variables !! "ANTHROPIC_API_KEY";
         Config.openaiApiKey := variables !! "OPENAI_API_KEY";
         Config.enableSigning := Config.is_true (variables !! "ENABLE_SIGNING");
         Config.ed25519PrivateKey := variables !! "ED25519_PRIVATE_KEY";
         Config.ed25519PublicKey := variables !! "ED25519_PUBLIC_KEY";
         Config.ledgerPath :=
           Config.or_default (variables !! "LEDGER_PATH") "./output/contracts.ndjson";
         Config.port := port;
         Config.host := Config.or_default (variables !! "HOST") "0.0.0.0";
         Config.defaultTenantId :=
           Config.or_default (variables !! "DEFAULT_TENANT_ID") "default";
         Config.defaultWorkflow :=
           Config.or_default (variables !! "DEFAULT_WORKFLOW") "translation";
         Config.defaultFlow := Config.or_default (variables !! "DEFAULT_FLOW") "default" |}.
Proof. reflexivity. Qed.

Lemma decimal_digits_seen v us :
  is_Some (Config.decimal_digits (Some v) us).
Proof.
  revert v. induction us as [|u r IH]; intros v; cbn; [by eexists|].
  destruct (Config.decimal_value u); [apply IH | by eexists].
Qed.

Lemma no_number_NaN text :
  no_number text = true -> Config.parseInt10 text = Some None.
Proof.
  unfold no_number, Config.parseInt10.
  destruct (Hex.trim_start (code_units text)) as [|u r]; [reflexivity|].
  assert (forall d rest,
             negb (bool_decide (is_Some (Config.decimal_value d))) = true ->
             Config.decimal_digits None (d :: rest) = None) as Hhead.
  { intros d rest H. cbn. destruct (Config.decimal_value d); [|reflexivity].
    exfalso. apply negb_true_iff, bool_decide_eq_false in H. apply H. by eexists. }
  destruct (N.eqb_spec u 45) as [->|H45].
  { cbn. destruct r as [|d rest]; [reflexivity|]. intros H. by rewrite (Hhead _ _ H). }
  destruct (N.eqb_spec u 43) as [->|H43].
  { cbn. destruct r as [|d rest]; [reflexivity|]. intros H. by rewrite (Hhead _ _ H). }
  cbn [orb]. intros H.
  replace (match u with 45%N => (true, r) | 43%N => (false, r) | _ => (false, u :: r) end)
    with (false, u :: r).
  - by rewrite (Hhead _ _ H).
  - destruct u as [|q]; [reflexivity|].
    do 6 (try (destruct q as [q|q|]; try reflexivity)); exfalso; by (apply H45 || apply H43).
Qed.

Lemma port_check variables text :
  Config.provider_named (variables !! "LLM_PROVIDER") = Config.mock ->
  variables !! "PORT" = Some text ->
  is_empty text = false ->
  forall port,
    Config.parseInt10 text = Some port ->
    exists config p',
      Config.loadConfig (fresh_process variables) = Some config
      /\ Config.port config = port
      /\ Config.configInstance p' = Some config
      /\ Config.validateConfig (fresh_process variables)
         = Some (match port with
                 | None => inr tt
                 | Some n =>
                     if (1 <=? n) && (n <=? 65535) then inr tt
                     else inl (new_Error ("Invalid port: " +:+ toString (of_Z n)
                                          +:+ ". Must be between 1 and 65535."))
                 end, p').
Proof.
  intros Hmock Hport Htext port Hparse.
  pose proof (loadConfig_port variables) as Hload.
  rewrite Hport, Htext, Hparse, Hmock in Hload. cbn [mbind option_bind] in Hload.
  eexists.
  set (c := {| Config.llmProvider := Config.mock |}) in Hload.
  set (p0 := Config.set_instance c (fresh_process variables)).
  exists (if Config.enableSigning c && falsy (Config.ed25519PrivateKey c)
          then Config.console_warn Config.signing_warning p0 else p0).
  split; [exact Hload|]. split; [reflexivity|]. split.
  { by destruct (_ && _). }
  unfold Config.validateConfig. rewrite getConfig_fresh, Hload. cbn.
  fold c. fold p0.
  destruct port as [n|]; cbn; [|reflexivity].
  destruct (Z.ltb_spec n 1), (Z.leb_spec 1 n); try lia; cbn; [reflexivity|].
  destruct (Z.leb_spec n 65535), (Z.gtb_spec n 65535); try lia; reflexivity.
Qed.

(** X19. The port check, for the mock provider and a PORT that is set and
    not empty.  A PORT that parseInt reads no number from gives the port
    NaN, and validateConfig accepts it; a PORT with a number is accepted
    when the number is from 1 to 65535, and otherwise validateConfig throws
    "Invalid port: <number>. Must be between 1 and 65535.". *)
Theorem port_validation :
  forall (variables : gmap string string) (text : string),
    Config.provider_named (variables !! "LLM_PROVIDER") = Config.mock ->
    variables !! "PORT" = Some text ->
    is_empty text = false ->
    (no_number text = true ->
     exists config p',
       Config.loadConfig (fresh_process variables) = Some config
       /\ Config.port config = None
       /\ Config.configInstance p' = Some config
       /\ Config.validateConfig (fresh_process variables) = Some (inr tt, p'))
    /\ (forall n,
          Config.parseInt10 text = Some (Some n) ->
          exists config p',
            Config.loadConfig (fresh_process variables) = Some config
            /\ Config.port config = Some n
            /\ Config.configInstance p' = Some config
            /\ Config.validateConfig (fresh_process variables)
               = Some (if (1 <=? n) && (n <=? 65535) then inr tt
                       else inl (new_Error ("Invalid port: " +:+ toString (of_Z n)
                                            +:+ ". Must be between 1 and 65535.")), p')).
Proof.
  intros variables text Hmock Hport Htext. split.
  - intros Hno. apply (port_check variables text Hmock Hport Htext None).
    by apply no_number_NaN.
  - intros n Hn. apply (port_check variables text Hmock Hport Htext (Some n) Hn).
Qed.

Lemma port_validation_witness :
  exists config p',
    Config.loadConfig (fresh_process {[ "PORT" := "http" ]}) = Some config
    /\ Config.port config = None
    /\ Config.configInstance p' = Some config
    /\ Config.validateConfig (fresh_process {[ "PORT" := "http" ]}) = Some (inr tt, p').
Proof.
  refine (proj1 (port_validation {[ "PORT" := "http" ]} "http" _ _ _) _); reflexivity.
Defined.

Lemma provider_named_mock v :
  v <> Some "anthropic" -> v <> Some "openai" -> Config.provider_named v = Config.mock.
Proof.
  intros Ha Ho. unfold Config.provider_named. destruct v as [s|]; [|reflexivity].
  destruct (String.eqb_spec s "anthropic") as [->|_]; [done|].
  destruct (String.eqb_spec s "openai") as [->|_]; [done|]. reflexivity.
Qed.

(** X20. Unless LLM_PROVIDER is exactly "anthropic" or "openai", the
    provider is the mock one: an unknown name is not reported, and the API
    keys play no part.  translateText then answers "[MOCK TRANSLATION from
    <source> to <target>]: <text>" with the confidence 0.95, and leaves the
    configuration cached. *)
Theorem other_provider_names_mean_mock :
  forall (variables : gmap string string) (config : Config.MinitradutorConfig)
         (params : LegacyProviders.TranslationParams),
    variables !! "LLM_PROVIDER" <> Some "anthropic" ->
    variables !! "LLM_PROVIDER" <> Some "openai" ->
    Config.loadConfig (fresh_process variables) = Some config ->
    Config.llmProvider config = Config.mock
    /\ LegacyProviders.translateText params (fresh_process variables)
       = Some (inr {| LegacyProviders.translated_text :=
                        "[MOCK TRANSLATION from "
                        +:+ LegacyProviders.source_language params +:+ " to "
                        +:+ LegacyProviders.target_language params +:+ "]: "
                        +:+ LegacyProviders.source_text params;
                      LegacyProviders.confidence := of_decimal 95 (-2) |},
               Config.set_instance config (fresh_process variables)).
Proof.
  intros variables config params Ha Ho Hload.
  assert (Config.llmProvider config = Config.mock) as Hmock.
  { rewrite loadConfig_port in Hload.
    destruct (match variables !! "PORT" with Some _ => _ | None => _ end); [|discriminate].
    cbn in Hload. injection Hload as <-. cbn. by apply provider_named_mock. }
  split; [exact Hmock|].
  unfold LegacyProviders.translateText, LegacyProviders.createProvider.
  rewrite getConfig_fresh, Hload. cbn. by rewrite Hmock.
Qed.

Lemma other_provider_names_mean_mock_witness :
  Config.llmProvider (ConfigFixtures.loaded ConfigFixtures.misspelt) = Config.mock
  /\ LegacyProviders.translateText ConfigFixtures.params
       (fresh_process ConfigFixtures.misspelt)
     = Some (inr {| LegacyProviders.translated_text :=
                      "[MOCK TRANSLATION from "
                      +:+ LegacyProviders.source_language ConfigFixtures.params +:+ " to "
                      +:+ LegacyProviders.target_language ConfigFixtures.params +:+ "]: "
                      +:+ LegacyProviders.source_text ConfigFixtures.params;
                    LegacyProviders.confidence := of_decimal 95 (-2) |},
             Config.set_instance (ConfigFixtures.loaded ConfigFixtures.misspelt)
               (fresh_process ConfigFixtures.misspelt)).
Proof.
  apply (other_provider_names_mean_mock ConfigFixtures.misspelt).
  - by vm_compute.
  - by vm_compute.
  - by vm_compute.
Defined.
